(* ===== verification/_CoqProject ===== *)
-Q . S2P
Prelude.v
GoStrconv.v
Types.v
Store.v
Database.v
Api.v
Logging.v
Liveness.v
Responses.v
Server.v
Scenarios.v
Interleave.v
Concurrency.v
