(* ===== verification/Prelude.v ===== *)
(** * A verification development for grill-logger

    grill-logger (src/server) is a small Go HTTP/JSON service that records
    smoker temperature readings and groups them into cooking sessions
    ("cooks") kept in PostgreSQL.  It has three source files:

    - [src/server/types.go]: the records [Reading], [Cook],
      [CookReadingUpdate], [Message], [HTTPReqInfo];
    - [src/server/database.go]: the global connection pool [pool], [connect],
      [timeoutContext] (a 10 s deadline per operation), the SQL
      placeholder builder [makeWhereInVarsForArray] and the eight store
      operations [logNewReading], [createNewCook], [updateCook],
      [addReadingsToCook], [removeReadingsFromCook],
      [getOrphanReadingsInRange], [getCooksInRange], [getCookById] with
      the row decoder [processReadingsRow];
    - [src/server/api.go]: the handlers [getStatus], [postReading],
      [getReadings], [saveCook], [getCooks], [getCook],
      [updateCookReadings] and the route table of [runHttpServer].

    A request enters [runHttpServer]'s router, which picks a handler; the
    handler decodes the body, calls one or two store operations, and
    answers through [jsonResponse] or [errorResponse].  Each store
    operation takes a fresh 10 s context and sends one or two SQL
    statements through the pool.  The logging middleware
    [logRequestHandler] wraps the router and appends one access-log entry
    per completed request.  The helpers [jsonResponse],
    [errorResponse], [getLimitOffset], [logRequestHandler] and the entry
    point [main] are
    called by the sources but are not under src/; they are modelled from
    the spec and marked so in PROJECT.json.

    ** How the program is modelled (one file per part)

    - [Prelude] (this file): the result type of Go's [(T, error)] pairs,
      the state monad [prog] with a crash outcome (a Go panic) in which
      every stateful operation is written, the shared tactics, the hint
      databases [grill] and [grill_rw], and the list and string lemmas
      the components share.
    - [GoStrconv]: the two pieces of Go's standard library whose exact
      behaviour the code relies on: [fmt.Sprintf("%d")] ([fmt_d]) and
      [strconv.Atoi] ([Atoi], [ParseInt] with the int64 range checks).
    - [Types]: types.go, one Module per struct with its Record, Go's zero
      values, and the error values the program produces or propagates
      ([GoError] with their [Error()] texts).
    - [Store]: the environment of database.go, not repository code:
      PostgreSQL's two tables for the schema of spec section 6, the
      meaning of each SQL text the code sends ([pg_exec]: placeholders
      [$n] bound to the argument list, the [IN (...)] list parsed from
      the text, pgx's argument-count check, microsecond truncation of
      timestamps, the foreign key), and pgx's [QueryRow], [Query] and
      [Exec] run under a context deadline against an oracle of store
      latencies and faults ([World.w_net]).
    - [Database]: database.go, each function a [prog World _] building
      the same SQL string and argument list as the Go code.
    - [Api]: api.go, every handler with all its early returns, the route
      table [routes] and gorilla/mux's dispatch ([serve]).
    - [Logging]: the middleware [logRequestHandler] around [serve]; the
      access log is the world's [w_log], newest entry first, and the
      number of bytes a response takes is an argument (it depends on
      encoding/json).
    - [Liveness]: what the 10 s contexts give: [before D m] (returns by
      the deadline [D]) and [answers d m] (returns within [d] of server
      time), both with a live pool, composed through [pbind].
    - [Responses]: the success payload spec section 4.4 documents for
      each route ([success_payload]) and the error envelope of section 7
      ([conforms]); [returns P m] for what a program returns.
    - [Interleave]: every request as a [thread] cut at its store round
      trips ([serve_thread]: [getCookById] and the readings update are
      two atomic steps each, every other handler one), any number of
      threads in flight on one world ([istep], [tstep1]), and
      [serial_answers], what a request answers when it runs alone between
      the requests of a client.
    - [Server]: [main] and the running service as a step relation
      [server_step] on worlds (serve a request through the logging
      middleware, let time pass, change
      what the network does), with [reachable] for the worlds of a run.
    - [Scenarios]: the testable properties of spec section 8 through
      [serve], on a store that answers at once ([quiet]) or one that
      misses the deadline ([times_out]).
    - [Concurrency]: spec section 5, two readings updates in flight at
      once: the statements of [updateCookReadings] as data ([Stmt],
      [update_stmts]) and a step relation [cstep] that interleaves the
      statements of two requests, each statement atomic.

    ** What the theorems show

    - Placeholders: the [IN] list [makeWhereInVarsForArray] builds parses
      back to exactly [$offset+1 .. $offset+size], so the bulk updates
      bind exactly the ids passed; an empty list is a syntax error.
    - Each database operation on every branch: success, store error,
      missing row, timeout (including the deadline [getCookById]'s two
      statements share), and a nil pool (a panic).
    - Each handler: its answers, its guards (id mismatch, empty update
      lists, the methods the router lets through) and its defects
      ([getCooks] never succeeds; a negative [limit] is an empty page).
    - Invariants (supporting lemmas): [respects RW m] says a program
      keeps a preorder [RW] on worlds whatever it returns or panics;
      every operation, handler and [serve] respects any [RW] that every
      round trip respects.  With [on_db wf_kept], [on_db tables_grow] and
      [pool_kept] this gives the store invariant, row and sequence growth
      and the fixed pool along any run; these hold for every statement
      text in the store model, so they are tools for the other proofs
      rather than claims about the handlers.
    - Refinement: [getOrphanReadingsInRange] implements the spec's
      "list orphan readings" contract ([orphan_page_spec]).
    - End-to-end scenarios through [serve]: three readings then the two
      newest (spec 8.2), create then fetch a cook (8.3), assign, fetch,
      remove, fetch (8.5), a stalled store gives no success to a request
      that reaches it (8.8); and what a client is not told: a timed-out
      insert the server still commits, a readings update that fails
      after its add step committed, a readings update that takes l + 10 s
      for every first latency l < 10 s.
    - Interleavings: [updateCookReadings] is the sequential run of its
      statements; updates over disjoint readings are serializable in
      every interleaving; on any quiet store, crossing ones can end in a
      store no serial order gives.
    - Liveness: with a live pool every request is answered, without a
      panic, within 20 s of server time.
    - Type: every answer of [serve] is a 200 with the payload its route
      documents, the 500 error envelope, or mux's plain-text 404/405.
    - Threads: on any quiet store, [GET /api/cook/{id}] racing with a
      rename and an assignment can answer an old description with a newly
      assigned reading, a state the cook never had ([serve_thread] is
      checked against [serve] by a lemma).
    - Access log: each completed request adds exactly one entry whose
      every field is the request's, the client's or the router's answer's,
      with a non-negative duration (no operation moves the clock back,
      [clock_mono]).
    - Round trip and bounds: [Atoi (fmt_d n) = Ok n] exactly on the int64
      range, so an id printed into a path reaches [getCookById]
      unchanged.

    ** Bounds and fuel

    Loops are structural over the Go loop counter ([Z.to_nat size]) or
    the row list, so no fuel is needed, and every definition computes
    (the witnesses run them by [vm_compute] and [reflexivity]).  Times are
    nanoseconds since the Unix epoch ([Z]); the deadline is [10 * 10^9]
    ns.  Ids and the int64 fields are [Z]; the only conversion the code
    makes, [strconv.Atoi], is modelled with its int64 range checks.

    ** Not modelled

    JSON encoding and decoding (encoding/json) is a library boundary: a
    request body is given by what [json.Unmarshal] yields for each target
    struct, and a response by its status and payload; for the same reason
    the size of a response in the access log is an argument.  HTTP
    framing and the path cleaning of gorilla/mux are left out.
    Outside [Concurrency] and [Interleave], requests are served one at a
    time.  [Interleave] runs any number of requests (each thread may be
    a client chaining several) at the granularity of store round trips,
    each statement atomic (the store's default isolation for single
    statements).  A round trip holds a pool connection only during its
    own atomic step, so the model never runs out of connections; waiting
    in [pgxpool] for a free connection when more statements are in flight
    than the pool's size is not modelled. *)

From Stdlib Require Export ZArith String Lia.
From stdpp Require Export base list gmap strings sorting.

Declare Scope grill_scope.
Delimit Scope grill_scope with grill.
Open Scope Z_scope.

(** ** Go's [(T, error)] results *)

Inductive result (A E : Type) : Type :=
| Ok (a : A)
| Err (e : E).
Arguments Ok {A E} a.
Arguments Err {A E} e.

Definition is_ok {A E} (r : result A E) : bool :=
  match r with Ok _ => true | Err _ => false end.

(** ** Stateful programs that may panic

    A [prog S A] runs on a state [S] and either returns a value with the
    new state or crashes (a Go panic, which unwinds the whole request). *)

Inductive outcome (S A : Type) : Type :=
| Ret (a : A) (s : S)
| Crash (s : S).
Arguments Ret {S A} a s.
Arguments Crash {S A} s.

Definition prog (S A : Type) : Type := S -> outcome S A.

Definition pret {S A} (a : A) : prog S A := fun s => Ret a s.

Definition pbind {S A B} (m : prog S A) (k : A -> prog S B) : prog S B :=
  fun s => match m s with
           | Ret a s' => k a s'
           | Crash s' => Crash s'
           end.

(** The state an outcome leaves. *)
Definition out_state {S A} (o : outcome S A) : S :=
  match o with Ret _ s => s | Crash s => s end.

Definition pget {S} : prog S S := fun s => Ret s s.
Definition pput {S} (s : S) : prog S unit := fun _ => Ret tt s.
Definition pmodify {S} (f : S -> S) : prog S unit := fun s => Ret tt (f s).
Definition ppanic {S A} : prog S A := fun s => Crash s.

Notation "'do' x <- m ; k" := (pbind m (fun x => k))
  (at level 10, x name, m at level 100, k at level 200) : grill_scope.

Open Scope grill_scope.

Lemma pbind_ret {S A B} (a : A) (k : A -> prog S B) s :
  pbind (pret a) k s = k a s.
Proof. reflexivity. Qed.

Lemma pbind_assoc {S A B C} (m : prog S A) (k : A -> prog S B)
  (h : B -> prog S C) s :
  pbind (pbind m k) h s = pbind m (fun a => pbind (k a) h) s.
Proof. unfold pbind. by destruct (m s). Qed.

Lemma pbind_ext {S A B} (m : prog S A) (k1 k2 : A -> prog S B) s :
  (forall a s', k1 a s' = k2 a s') -> pbind m k1 s = pbind m k2 s.
Proof. unfold pbind. intros H. destruct (m s); [apply H|reflexivity]. Qed.

Lemma pbind_Ret {S A B} (m : prog S A) (k : A -> prog S B) s a s' :
  m s = Ret a s' -> pbind m k s = k a s'.
Proof. unfold pbind. by intros ->. Qed.

(** ** Tactics and the hint database *)

Create HintDb grill.
Create Rewrite HintDb grill_rw.

(** [invc H]: invert and clean up. *)
Ltac invc H := inversion H; subst; clear H.

(** Case analysis on the scrutinee of the first [match] or [if] of the
    goal, remembering the equation. *)
Ltac split_match :=
  match goal with
  | |- context [match ?x with _ => _ end] =>
      let E := fresh "E" in destruct x eqn:E
  end.

(** Decide a comparison [Z.ltb]/[Z.leb]/[Z.eqb] appearing in the goal. *)
Ltac z_cases :=
  repeat match goal with
  | |- context [Z.ltb ?a ?b] => destruct (Z.ltb_spec a b)
  | |- context [Z.leb ?a ?b] => destruct (Z.leb_spec a b)
  | |- context [Z.eqb ?a ?b] => destruct (Z.eqb_spec a b)
  end.

(** ** Shared list lemmas: pagination by [LIMIT]/[OFFSET] *)

Lemma length_take_drop {A} (l : list A) (o n : nat) :
  length (take n (drop o l)) = Nat.min n (length l - o).
Proof. by rewrite length_take, length_drop. Qed.

Lemma elem_of_take_drop {A} (l : list A) (o n : nat) x :
  x ∈ take n (drop o l) -> x ∈ l.
Proof.
  intros Hx. apply elem_of_take in Hx as [i [Hi _]].
  rewrite lookup_drop in Hi. eapply list_elem_of_lookup_2; eauto.
Qed.

Lemma Forall_take_drop {A} (P : A -> Prop) (l : list A) (o n : nat) :
  Forall P l -> Forall P (take n (drop o l)).
Proof. intros H. by apply Forall_take, Forall_drop. Qed.

#[export] Hint Resolve Forall_take_drop : grill.
#[export] Hint Rewrite @length_take_drop : grill_rw.

(** ** Strings

    stdpp makes [String.append] opaque to [simpl]; these equations are
    its two computation rules, and the [grill_rw] database applies them. *)

Lemma string_app_nil_l (s : string) : ("" ++ s)%string = s.
Proof. reflexivity. Qed.

Lemma string_app_cons c (a b : string) : (String c a ++ b)%string = String c (a ++ b).
Proof. reflexivity. Qed.

Lemma string_app_nil_r (a : string) : (a ++ "")%string = a.
Proof. induction a; rewrite ?string_app_nil_l, ?string_app_cons; congruence. Qed.

Lemma string_app_assoc (a b c : string) :
  ((a ++ b) ++ c)%string = (a ++ b ++ c)%string.
Proof. induction a; rewrite ?string_app_nil_l, ?string_app_cons; congruence. Qed.

#[export] Hint Rewrite string_app_nil_l string_app_cons string_app_nil_r
  string_app_assoc : grill_rw.

(** ** Sorted lists: [ORDER BY] survives [OFFSET], [LIMIT] and row decoding *)

Lemma StronglySorted_drop {A} (R : relation A) n l :
  StronglySorted R l -> StronglySorted R (drop n l).
Proof.
  revert l; induction n as [|n IH]; intros l H; [done|].
  destruct l; simpl; [done|]. apply IH. by inversion H.
Qed.

Lemma StronglySorted_take {A} (R : relation A) n l :
  StronglySorted R l -> StronglySorted R (take n l).
Proof.
  revert l; induction n as [|n IH]; intros l H; [constructor|].
  destruct l as [|x l]; simpl; [constructor|]. inversion H as [|? ? Hs Hf]; subst.
  constructor; [by apply IH|]. apply Forall_forall. intros y Hy.
  rewrite Forall_forall in Hf. apply Hf. by eapply elem_of_take_drop with (o := 0%nat).
Qed.

Lemma StronglySorted_map_impl {A B} (R : relation A) (R' : relation B) (f : A -> B) l :
  (forall x y, R x y -> R' (f x) (f y)) ->
  StronglySorted R l -> StronglySorted R' (map f l).
Proof.
  intros HR. induction l as [|x l IH]; intros H; simpl; [constructor|].
  inversion H as [|? ? Hs Hf]; subst. constructor; [by apply IH|].
  apply Forall_map. eapply Forall_impl; [exact Hf|]. auto.
Qed.


Lemma StronglySorted_weaken {A} (R R' : relation A) l :
  (forall x y, R x y -> R' x y) -> StronglySorted R l -> StronglySorted R' l.
Proof. intros H. induction 1; constructor; [done|]. eapply Forall_impl; eauto. Qed.
