(* ===== verification/GoStrconv.v ===== *)
(** * Go's integer formatting and parsing

    The code formats integers with [fmt.Sprintf("$%d", ...)]
    (database.go, [makeWhereInVarsForArray]) and parses path variables
    with [strconv.Atoi] (api.go, [saveCook], [getCook],
    [updateCookReadings]).  This file models both from Go's strconv and
    fmt sources: [fmt_d] is the decimal rendering of a Go [int], [Atoi]
    is [strconv.ParseInt(s, 10, 64)] with [Atoi]'s error wrapper (its
    fast path for strings shorter than 19 bytes returns the same results).
    The round trip [Atoi (fmt_d n) = Ok n] on the int64 range and the
    range bound of every parsed value are proved here. *)

From S2P Require Import Prelude.
From Stdlib Require Import Ascii DecimalString DecimalPos DecimalN.

(** ** int64 and uint64 bounds *)

Definition max_uint64 : Z := 2 ^ 64 - 1.
Definition max_int64 : Z := 2 ^ 63 - 1.
Definition min_int64 : Z := - 2 ^ 63.

Definition in_int64 (n : Z) : Prop := min_int64 <= n <= max_int64.

#[export] Instance in_int64_dec n : Decision (in_int64 n).
Proof. unfold in_int64. apply _. Defined.

(** ** [fmt.Sprintf("%d", n)]: sign, then the digits without leading zeros *)

Definition fmt_d (n : Z) : string :=
  NilEmpty.string_of_int (Z.to_int n).

(** ** [strconv.ParseUint(s, 10, 64)] and [strconv.ParseInt(s, 10, 64)] *)

Inductive NumErrKind := ErrSyntax | ErrRange.

(** [ch - '0'] when it is a decimal digit. *)
Definition digit_val (c : ascii) : option Z :=
  let v := Z.of_N (N_of_ascii c) - 48 in
  if (0 <=? v) && (v <=? 9) then Some v else None.

(** The digit loop of [ParseUint]: a non-digit is a syntax error, a value
    beyond [maxUint64] a range error, reported at the first digit that
    overflows. *)
Fixpoint parseUint_loop (s : string) (n : Z) : result Z NumErrKind :=
  match s with
  | EmptyString => Ok n
  | String c s' =>
      match digit_val c with
      | None => Err ErrSyntax
      | Some d =>
          if max_uint64 <? n * 10 + d then Err ErrRange
          else parseUint_loop s' (n * 10 + d)
      end
  end.

Definition ParseUint (s : string) : result Z NumErrKind :=
  match s with
  | EmptyString => Err ErrSyntax
  | _ => parseUint_loop s 0
  end.

Definition ParseInt (s : string) : result Z NumErrKind :=
  match s with
  | EmptyString => Err ErrSyntax
  | String c rest =>
      let '(neg, body) :=
        if Ascii.eqb c "+"%char then (false, rest)
        else if Ascii.eqb c "-"%char then (true, rest)
        else (false, s) in
      match ParseUint body with
      | Err ErrSyntax => Err ErrSyntax
      | Err ErrRange => Err ErrRange
      | Ok un =>
          if negb neg && (2 ^ 63 <=? un) then Err ErrRange
          else if neg && (2 ^ 63 <? un) then Err ErrRange
          else Ok (if neg then - un else un)
      end
  end.

(** [*strconv.NumError]: the function name, the input and the cause. *)
Record NumError := mkNumError {
  ne_Func : string;
  ne_Num : string;
  ne_Err : NumErrKind;
}.

(** [strconv.Atoi(s)] on a 64-bit platform. *)
Definition Atoi (s : string) : result Z NumError :=
  match ParseInt s with
  | Ok n => Ok n
  | Err k => Err (mkNumError "Atoi" s k)
  end.

(** ** Horner evaluation of Stdlib's decimal digits *)

Fixpoint horner (d : Decimal.uint) (acc : Z) : Z :=
  match d with
  | Decimal.Nil => acc
  | Decimal.D0 d => horner d (acc * 10 + 0)
  | Decimal.D1 d => horner d (acc * 10 + 1)
  | Decimal.D2 d => horner d (acc * 10 + 2)
  | Decimal.D3 d => horner d (acc * 10 + 3)
  | Decimal.D4 d => horner d (acc * 10 + 4)
  | Decimal.D5 d => horner d (acc * 10 + 5)
  | Decimal.D6 d => horner d (acc * 10 + 6)
  | Decimal.D7 d => horner d (acc * 10 + 7)
  | Decimal.D8 d => horner d (acc * 10 + 8)
  | Decimal.D9 d => horner d (acc * 10 + 9)
  end.

(** ** The round trip [Atoi (fmt_d n) = Ok n] and the int64 bound *)

Lemma horner_ge d a : 0 <= a -> a <= horner d a.
Proof.
  revert a; induction d; intros a Ha; simpl; try lia;
    (etransitivity; [|apply IHd]; lia).
Qed.

Lemma horner_of_uint_acc d p : Z.pos (Pos.of_uint_acc d p) = horner d (Z.pos p).
Proof. revert p; induction d; intros p; simpl; rewrite ?IHd; f_equal; lia. Qed.

Lemma horner_of_uint d : Z.of_N (Pos.of_uint d) = horner d 0.
Proof. induction d; simpl; rewrite ?horner_of_uint_acc; auto. Qed.

Lemma horner_to_uint p : horner (Pos.to_uint p) 0 = Z.pos p.
Proof. by rewrite <- horner_of_uint, DecimalPos.Unsigned.of_to. Qed.

Lemma parseUint_loop_digit c k s acc :
  digit_val c = Some k ->
  parseUint_loop (String c s) acc =
  if max_uint64 <? acc * 10 + k then Err ErrRange
  else parseUint_loop s (acc * 10 + k).
Proof. intros H. simpl. by rewrite H. Qed.

Lemma parseUint_loop_string_of_uint d acc :
  0 <= acc <= max_uint64 ->
  parseUint_loop (NilEmpty.string_of_uint d) acc =
  if max_uint64 <? horner d acc then Err ErrRange else Ok (horner d acc).
Proof.
  revert acc; induction d; intros acc Hacc; cbn [NilEmpty.string_of_uint horner];
    [simpl; z_cases; [lia|reflexivity] |..];
    (match goal with |- _ = (if _ <? horner d (acc * 10 + ?k) then _ else _) =>
       rewrite (parseUint_loop_digit _ k) by reflexivity;
       pose proof (horner_ge d (acc * 10 + k));
       destruct (Z.ltb_spec max_uint64 (acc * 10 + k));
       [z_cases; [reflexivity|lia] | apply IHd; lia] end).
Qed.

Lemma ParseUint_to_uint p :
  ParseUint (NilEmpty.string_of_uint (Pos.to_uint p))
  = if max_uint64 <? Z.pos p then Err ErrRange else Ok (Z.pos p).
Proof.
  pose proof (DecimalPos.Unsigned.to_uint_nonnil p) as Hnil.
  pose proof (horner_to_uint p) as Hh.
  assert (ParseUint (NilEmpty.string_of_uint (Pos.to_uint p)) =
          parseUint_loop (NilEmpty.string_of_uint (Pos.to_uint p)) 0) as ->.
  { by destruct (Pos.to_uint p). }
  by rewrite parseUint_loop_string_of_uint, Hh by (unfold max_uint64; lia).
Qed.

(** The first character [fmt_d] prints for a positive number is a digit,
    so [ParseInt] takes it as unsigned. *)
Lemma ParseInt_unsigned p :
  ParseInt (NilEmpty.string_of_uint (Pos.to_uint p)) =
  match ParseUint (NilEmpty.string_of_uint (Pos.to_uint p)) with
  | Ok un => if 2 ^ 63 <=? un then Err ErrRange else Ok un
  | Err k => Err k
  end.
Proof.
  pose proof (DecimalPos.Unsigned.to_uint_nonnil p) as Hnil.
  destruct (Pos.to_uint p) as [|d|d|d|d|d|d|d|d|d|d]; [done|..];
    cbn [NilEmpty.string_of_uint ParseInt]; simpl Ascii.eqb; cbv iota beta;
    by destruct (ParseUint _) as [?|[]].
Qed.

(** [Atoi] of a rendered integer: the integer itself on the int64 range,
    a range error outside it. *)
Lemma Atoi_fmt_d_eq n :
  Atoi (fmt_d n)
  = if decide (in_int64 n) then Ok n else Err (mkNumError "Atoi" (fmt_d n) ErrRange).
Proof.
  unfold Atoi, fmt_d. destruct (decide (in_int64 n)) as [Hn|Hn];
    unfold in_int64, min_int64, max_int64 in Hn;
    destruct n as [|p|p]; try (exfalso; lia); try reflexivity;
    simpl Z.to_int; simpl NilEmpty.string_of_int.
  all: try (rewrite ParseInt_unsigned, ParseUint_to_uint; unfold max_uint64;
            z_cases; first [lia|reflexivity]).
  all: cbn [ParseInt]; simpl Ascii.eqb; cbv iota beta;
    rewrite ParseUint_to_uint; unfold max_uint64;
    simpl negb; z_cases; simpl; first [reflexivity | lia].
Qed.

Theorem Atoi_fmt_d n : in_int64 n -> Atoi (fmt_d n) = Ok n.
Proof. intros Hn. by rewrite Atoi_fmt_d_eq, decide_True. Qed.

Lemma parseUint_loop_nonneg s acc x :
  0 <= acc -> parseUint_loop s acc = Ok x -> 0 <= x.
Proof.
  revert acc; induction s as [|c s IH]; intros acc Hacc H; simpl in H.
  - congruence.
  - destruct (digit_val c) as [k|] eqn:Hk; [|done].
    unfold digit_val in Hk. destruct (_ && _) eqn:Hb; [|done].
    apply andb_true_iff in Hb as [Hb1 _]. apply Z.leb_le in Hb1. invc Hk.
    destruct (_ <? _); [done|]. eapply IH; [|exact H]. lia.
Qed.

(** Every integer strconv.Atoi accepts lies in the int64 range, so
    every id the handlers parse from a path is a Go int of a 64-bit
    platform. *)
Theorem Atoi_in_int64 s n : Atoi s = Ok n -> in_int64 n.
Proof.
  unfold Atoi, ParseInt, in_int64, min_int64, max_int64.
  destruct s as [|c rest]; [done|].
  destruct (if Ascii.eqb c "+"%char then _ else _) as [neg body].
  destruct (ParseUint body) as [un|[]] eqn:Hu; try done.
  assert (0 <= un) as Hun.
  { unfold ParseUint in Hu. destruct body; [done|].
    eapply parseUint_loop_nonneg; [|exact Hu]. lia. }
  destruct neg; simpl; z_cases; intros Hr; invc Hr; lia.
Qed.

(** strconv.Atoi rejects the decimal rendering of every integer
    outside the int64 range with a range error naming the input, rather
    than wrapping it: a path id too large for a Go int never reaches the
    store. *)
Theorem Atoi_fmt_d_range n :
  ~ in_int64 n ->
  Atoi (fmt_d n) = Err (mkNumError "Atoi" (fmt_d n) ErrRange).
Proof. intros Hn. by rewrite Atoi_fmt_d_eq, decide_False. Qed.

