(* ===== verification/Types.v ===== *)
(** * types.go: the shared records and the error values

    The records of src/server/types.go, each in a Module of its own so
    that the Go field names ([Id], [Timestamp], ...) can be kept.  A Go
    [time.Time] is an instant in nanoseconds since the Unix epoch, a
    [float64] is Rocq's primitive binary64 float, a Go [int] or [int64]
    is a [Z] (the int64 range is checked where a value is parsed), and a
    Go slice that may be nil is an [option (list _)] ([None] is the nil
    slice, which encoding/json writes as [null]).

    [GoError] collects the errors the program creates or propagates, and
    [Error] is the text [errorResponse] puts in the message envelope. *)

From S2P Require Import Prelude GoStrconv.
From Stdlib Require Import PrimFloat Ascii.

Definition float64 : Type := PrimFloat.float.

(** [time.Time]: nanoseconds since 1970-01-01T00:00:00Z. *)
Definition time : Type := Z.

(** The zero [time.Time], January 1 of year 1, 00:00:00 UTC. *)
Definition zero_time : time := -62135596800 * 10 ^ 9.

(** [time.Second * 10] as a [time.Duration] in nanoseconds. *)
Definition Second : Z := 10 ^ 9.

Module Reading.
(** [type Reading struct] *)
Record t := mk {
  Id : Z;
  Timestamp : time;
  Uptime : Z;
  MeatTemp : float64;
  SmokeTemp : float64;
}.
(** [Reading{}], the value [var reading Reading] starts from. *)
Definition zero : t := mk 0 zero_time 0 0%float 0%float.
End Reading.

Module Cook.
(** [type Cook struct]; [Readings = None] is the nil slice. *)
Record t := mk {
  Id : Z;
  Created : time;
  Description : string;
  Readings : option (list Reading.t);
}.
Definition zero : t := mk 0 zero_time "" None.
End Cook.

Module CookReadingUpdate.
(** [type CookReadingUpdate struct]; only [len] is taken of the slices,
    so nil and empty are the same list here. *)
Record t := mk {
  Add : list Z;
  Remove : list Z;
}.
End CookReadingUpdate.

Module Message.
(** [type Message struct] *)
Record t := mk {
  Error : bool;
  Message : string;
}.
End Message.

Module HTTPReqInfo.
(** [type HTTPReqInfo struct]: one access-log entry. *)
Record t := mk {
  method : string;
  uri : string;
  referer : string;
  ipaddr : string;
  code : Z;
  size : Z;
  duration : Z;
  userAgent : string;
}.
End HTTPReqInfo.

(** ** Error values *)

Inductive GoError :=
| ErrIdMismatch                      (** [errors.New("id mismatch")] *)
| ErrBadMethod                       (** [errors.New("bad method")] *)
| ErrAtoi (e : NumError)             (** [*strconv.NumError] from [Atoi] *)
| ErrBody (msg : string)             (** [ioutil.ReadAll] failed *)
| ErrJSON (msg : string)             (** [json.Unmarshal] failed *)
| ErrNoRows                          (** [pgx.ErrNoRows] *)
| ErrTimeout                         (** the context deadline passed *)
| ErrPg (code : string) (msg : string) (** [*pgconn.PgError] from the server *)
| ErrPgx (msg : string)              (** a client-side pgx error *)
| ErrConn (msg : string).            (** the connection failed *)

Definition dq : ascii := ascii_of_nat 34.

Definition quote (s : string) : string := String dq (s ++ String dq EmptyString).

Definition NumErrKind_text (k : NumErrKind) : string :=
  match k with
  | ErrSyntax => "invalid syntax"
  | ErrRange => "value out of range"
  end.

(** [err.Error()].  [strconv.Quote]'s escaping of non-printable bytes is
    not modelled ([quote] only adds the double quotes). *)
Definition Error (e : GoError) : string :=
  match e with
  | ErrIdMismatch => "id mismatch"
  | ErrBadMethod => "bad method"
  | ErrAtoi ne =>
      "strconv." ++ ne_Func ne ++ ": parsing " ++ quote (ne_Num ne) ++ ": "
        ++ NumErrKind_text (ne_Err ne)
  | ErrBody msg | ErrJSON msg | ErrPgx msg | ErrConn msg => msg
  | ErrNoRows => "no rows in result set"
  | ErrTimeout => "timeout: context deadline exceeded"
  | ErrPg code msg => "ERROR: " ++ msg ++ " (SQLSTATE " ++ code ++ ")"
  end.
