(* ===== verification/Store.v ===== *)
(** * The store: PostgreSQL and the pgx pool, as database.go sees them

    This file models the environment the functions of database.go run
    in.  Nothing here is code of the repository; it is what the SQL
    texts the code sends mean, for the schema of spec section 6:

      readings(id PK, timestamp, uptime, meat_temp, smoke_temp,
               cook_id NULLABLE FK -> cooks.id)
      cooks(id PK, created, description)

    with both ids generated by a sequence (bigserial) and both times
    [timestamp]/[timestamptz] columns of microsecond precision.

    - [Tables]: the two tables as finite maps from id to row, with the
      last value of each id sequence.
    - [pg_exec]: the server's answer to one statement text with its
      argument list: the rows it returns and the new tables, or an error
      raised while the statement is prepared ([PgPrepErr]: syntax,
      unknown column, placeholders) or while it runs ([PgExecErr]:
      constraint and limit checks).  Each statement is atomic.
    - [World]: the Go process's view: the tables, whether [pool] is a
      live pool (a failed [connect] leaves it nil), the clock, and an
      oracle of round-trip latencies and faults, one per statement.
    - [pgx_roundtrip] with [pgx_QueryRow], [pgx_Query], [pgx_Exec]: one
      statement under a context deadline.  A call on the nil pool panics;
      a round trip that does not answer before the deadline returns a
      timeout error, and the oracle says whether the server committed the
      statement all the same.

    A statement's answer arrives in one piece: the server sends the row
    description and rows of a small result when it reaches the [Sync]
    of the extended protocol, so pgx's [Query] is still waiting for the
    row description when a deadline passes, and returns the error.  A
    result larger than the server's 8 kB output buffer, whose first rows
    can arrive before the deadline while later ones do not, is not
    modelled. *)

From S2P Require Import Prelude GoStrconv Types.
From Stdlib Require Import PrimFloat Ascii.

(** ** Rows and tables *)

Inductive SqlValue :=
| VInt (z : Z)
| VFloat (f : float64)
| VText (s : string)
| VTime (t : time)
| VNull.

Record ReadingRow := mkReadingRow {
  rr_timestamp : time;
  rr_uptime : Z;
  rr_meat_temp : float64;
  rr_smoke_temp : float64;
  rr_cook_id : option Z;
}.

Record CookRow := mkCookRow {
  cr_created : time;
  cr_description : string;
}.

Record Tables := mkTables {
  t_readings : gmap Z ReadingRow;
  t_cooks : gmap Z CookRow;
  t_readings_seq : Z;   (** last value of the readings id sequence *)
  t_cooks_seq : Z;      (** last value of the cooks id sequence *)
}.

Definition empty_tables : Tables := mkTables ∅ ∅ 0 0.

(** pgx sends a [time.Time] as microseconds since the epoch,
    [t.Unix()*1000000 + int64(t.Nanosecond())/1000]: the instant is
    truncated down to a whole microsecond. *)
Definition trunc_us (t : time) : time := t - t mod 1000.

Fixpoint has_nul (s : string) : bool :=
  match s with
  | EmptyString => false
  | String c s' => Ascii.eqb c (ascii_of_nat 0) || has_nul s'
  end.

Definition set_cook_id (c : option Z) (r : ReadingRow) : ReadingRow :=
  mkReadingRow (rr_timestamp r) (rr_uptime r) (rr_meat_temp r)
    (rr_smoke_temp r) c.

(** ** The statement texts of database.go

    Each is the Go string literal, character for character; the double
    quotes of [RETURNING "id"] are written with [quote]. *)

Definition sql_insert_reading : string :=
  "INSERT INTO readings (timestamp, uptime, meat_temp, smoke_temp) VALUES ($1,$2,$3,$4) RETURNING "
    ++ quote "id".

Definition sql_insert_cook : string :=
  "INSERT INTO cooks (description, created) VALUES ($1, $2) RETURNING "
    ++ quote "id".

Definition sql_update_cook : string :=
  "UPDATE cooks SET description = $1 WHERE id = $2".

Definition sql_add_prefix : string :=
  "UPDATE readings SET cook_id = $1 WHERE id IN (".

Definition sql_remove_prefix : string :=
  "UPDATE readings SET cook_id = NULL WHERE id IN (".

Definition sql_orphans : string :=
  "SELECT id, timestamp, uptime, meat_temp, smoke_temp FROM readings WHERE cook_id IS NULL ORDER BY timestamp DESC LIMIT $1 OFFSET $2".

Definition sql_cooks_prefix : string :=
  "SELECT id, created, description FROM cooks ORDER BY ".

Definition sql_cooks_suffix : string := " DESC LIMIT $1 OFFSET $2".

Definition sql_cook_by_id : string :=
  "SELECT description, created FROM cooks WHERE id = $1".

Definition sql_readings_of_cook : string :=
  "SELECT id, timestamp, uptime, meat_temp, smoke_temp FROM readings WHERE cook_id = $1".

(** ** Reading the text of a statement *)

Fixpoint strip_prefix (p s : string) : option string :=
  match p, s with
  | EmptyString, _ => Some s
  | String a p', String b s' => if Ascii.eqb a b then strip_prefix p' s' else None
  | String _ _, EmptyString => None
  end.

Fixpoint strip_suffix (suf s : string) : option string :=
  if String.eqb s suf then Some EmptyString
  else match s with
       | EmptyString => None
       | String c s' => option_map (String c) (strip_suffix suf s')
       end.

(** The placeholder list of [IN (...)], up to and including the closing
    parenthesis: [$n] items separated by commas, nothing after [)].  An
    empty list [()] is a syntax error. *)
Inductive in_state := InStart | InDollar | InNum (n : Z).

Fixpoint scan_in_list (s : string) (st : in_state) (acc : list Z)
  : option (list Z) :=
  match s, st with
  | EmptyString, _ => None
  | String c rest, InStart =>
      if Ascii.eqb c "$"%char then scan_in_list rest InDollar acc else None
  | String c rest, InDollar =>
      match digit_val c with
      | Some d => scan_in_list rest (InNum d) acc
      | None => None
      end
  | String c rest, InNum n =>
      match digit_val c with
      | Some d => scan_in_list rest (InNum (n * 10 + d)) acc
      | None =>
          if Ascii.eqb c ","%char then scan_in_list rest InStart (n :: acc)
          else if Ascii.eqb c ")"%char then
            (if String.eqb rest EmptyString then Some (rev (n :: acc)) else None)
          else None
      end
  end.

Definition parse_in_list (s : string) : option (list Z) :=
  scan_in_list s InStart [].

(** ** Placeholders and arguments

    Postgres numbers a statement's parameters by the highest [$n] it
    uses; every [$1 .. $n] must occur (it cannot type an unused one) and
    [$0] does not exist.  pgx then refuses an argument list of another
    length. *)

Definition sql_err (code msg : string) : GoError := ErrPg code msg.

Definition check_params (used : list Z) (nargs : nat) : option GoError :=
  let n := fold_right Z.max 0 used in
  match List.find (fun k => k <? 1) used with
  | Some k => Some (sql_err "42P02" ("there is no parameter $" ++ fmt_d k))
  | None =>
      match List.find (fun k => negb (existsb (Z.eqb k) used)) (seqZ 1 n) with
      | Some k =>
          Some (sql_err "42P18"
                  ("could not determine data type of parameter $" ++ fmt_d k))
      | None =>
          if n =? Z.of_nat nargs then None
          else Some (ErrPgx ("expected " ++ fmt_d n ++ " arguments, got "
                             ++ fmt_d (Z.of_nat nargs)))
      end
  end.

(** The integer bound to [$k]. *)
Definition int_arg (args : list SqlValue) (k : Z) : option Z :=
  match args !! Z.to_nat (k - 1) with
  | Some (VInt z) => Some z
  | _ => None
  end.

Fixpoint int_args (args : list SqlValue) (ks : list Z) : option (list Z) :=
  match ks with
  | [] => Some []
  | k :: ks' =>
      match int_arg args k, int_args args ks' with
      | Some z, Some zs => Some (z :: zs)
      | _, _ => None
      end
  end.

(** ** What each statement does *)

Inductive pg_result :=
| PgOk (rows : list (list SqlValue)) (t : Tables)
| PgPrepErr (e : GoError)
| PgExecErr (e : GoError).

Definition syntax_error : GoError := sql_err "42601" "syntax error".

Definition nul_error : GoError :=
  sql_err "22021" ("invalid byte sequence for encoding " ++ quote "UTF8" ++ ": 0x00").

Definition bad_args (n : nat) (args : list SqlValue) : pg_result :=
  PgPrepErr (ErrPgx ("expected " ++ fmt_d (Z.of_nat n) ++ " arguments, got "
                     ++ fmt_d (Z.of_nat (length args)))).

Definition exec_insert_reading (args : list SqlValue) (t : Tables) : pg_result :=
  match args with
  | [VTime ts; VInt up; VFloat m; VFloat s] =>
      let id := t_readings_seq t + 1 in
      match t_readings t !! id with
      | Some _ => PgExecErr (sql_err "23505" "duplicate key value violates unique constraint")
      | None =>
          PgOk [[VInt id]]
            (mkTables (<[id := mkReadingRow (trunc_us ts) up m s None]> (t_readings t))
                      (t_cooks t) id (t_cooks_seq t))
      end
  | _ => bad_args 4 args
  end.

Definition exec_insert_cook (args : list SqlValue) (t : Tables) : pg_result :=
  match args with
  | [VText d; VTime c] =>
      if has_nul d then PgExecErr nul_error else
      let id := t_cooks_seq t + 1 in
      match t_cooks t !! id with
      | Some _ => PgExecErr (sql_err "23505" "duplicate key value violates unique constraint")
      | None =>
          PgOk [[VInt id]]
            (mkTables (t_readings t) (<[id := mkCookRow (trunc_us c) d]> (t_cooks t))
                      (t_readings_seq t) id)
      end
  | _ => bad_args 2 args
  end.

(** [UPDATE cooks SET description = $1 WHERE id = $2]: no row matches an
    unknown id, which is not an error. *)
Definition exec_update_cook (args : list SqlValue) (t : Tables) : pg_result :=
  match args with
  | [VText d; VInt id] =>
      if has_nul d then PgExecErr nul_error else
      PgOk [] (mkTables (t_readings t)
                 (alter (fun r => mkCookRow (cr_created r) d) id (t_cooks t))
                 (t_readings_seq t) (t_cooks_seq t))
  | _ => bad_args 2 args
  end.

(** Set [cook_id] of the readings whose id is in [ids]. *)
Definition assign_cook (c : option Z) (ids : list Z) (m : gmap Z ReadingRow)
  : gmap Z ReadingRow :=
  map_imap (fun id r => Some (if decide (id ∈ ids) then set_cook_id c r else r)) m.

Definition assign_tables (c : option Z) (ids : list Z) (t : Tables) : Tables :=
  mkTables (assign_cook c ids (t_readings t)) (t_cooks t) (t_readings_seq t) (t_cooks_seq t).

(** Setting [cook_id = c] on [ids] touches an existing reading while no
    cook [c] exists. *)
Definition fk_violation (ids : list Z) (c : Z) (t : Tables) : bool :=
  existsb (fun id => bool_decide (is_Some (t_readings t !! id))) ids
  && negb (bool_decide (is_Some (t_cooks t !! c))).

Definition fk_error : GoError :=
  sql_err "23503" ("insert or update on table " ++ quote "readings"
                   ++ " violates foreign key constraint").

(** [UPDATE readings SET cook_id = $1 WHERE id IN (<list>)]: the foreign
    key is checked on the rows the update touches. *)
Definition exec_set_cook (list_text : string) (args : list SqlValue) (t : Tables)
  : pg_result :=
  match parse_in_list list_text with
  | None => PgPrepErr syntax_error
  | Some idx =>
      match check_params (1 :: idx) (length args) with
      | Some e => PgPrepErr e
      | None =>
          match int_arg args 1, int_args args idx with
          | Some c, Some ids =>
              if fk_violation ids c t then PgExecErr fk_error
              else PgOk [] (assign_tables (Some c) ids t)
          | _, _ => PgPrepErr (ErrPgx "cannot encode argument")
          end
      end
  end.

(** [UPDATE readings SET cook_id = NULL WHERE id IN (<list>)]. *)
Definition exec_set_null (list_text : string) (args : list SqlValue) (t : Tables)
  : pg_result :=
  match parse_in_list list_text with
  | None => PgPrepErr syntax_error
  | Some idx =>
      match check_params idx (length args) with
      | Some e => PgPrepErr e
      | None =>
          match int_args args idx with
          | Some ids => PgOk [] (assign_tables None ids t)
          | None => PgPrepErr (ErrPgx "cannot encode argument")
          end
      end
  end.

(** [LIMIT $1 OFFSET $2]: Postgres checks the offset, then the limit,
    when the statement runs. *)
Definition check_limit_offset (lim off : Z) : option GoError :=
  if off <? 0 then Some (sql_err "2201X" "OFFSET must not be negative")
  else if lim <? 0 then Some (sql_err "2201W" "LIMIT must not be negative")
  else None.

Definition paginate {A} (lim off : Z) (l : list A) : list A :=
  take (Z.to_nat lim) (drop (Z.to_nat off) l).

(** [ORDER BY k DESC]: a sort by [ge]; the order of ties is not fixed
    by SQL, and this model's is the one [merge_sort] leaves. *)
Definition sort_desc {A} (ge : A -> A -> bool) (l : list A) : list A :=
  @merge_sort A (fun x y => ge x y = true) (fun x y => bool_eq_dec (ge x y) true) l.

Definition ts_ge (x y : Z * ReadingRow) : bool :=
  rr_timestamp y.2 <=? rr_timestamp x.2.

Definition reading_values (x : Z * ReadingRow) : list SqlValue :=
  [VInt x.1; VTime (rr_timestamp x.2); VInt (rr_uptime x.2);
   VFloat (rr_meat_temp x.2); VFloat (rr_smoke_temp x.2)].

Definition orphans (t : Tables) : list (Z * ReadingRow) :=
  filter (fun x => rr_cook_id x.2 = None) (map_to_list (t_readings t)).

Definition exec_orphans (args : list SqlValue) (t : Tables) : pg_result :=
  match args with
  | [VInt lim; VInt off] =>
      match check_limit_offset lim off with
      | Some e => PgExecErr e
      | None => PgOk (map reading_values (paginate lim off (sort_desc ts_ge (orphans t)))) t
      end
  | _ => bad_args 2 args
  end.

Definition cook_values (x : Z * CookRow) : list SqlValue :=
  [VInt x.1; VTime (cr_created x.2); VText (cr_description x.2)].

(** The columns of [cooks] an [ORDER BY] may name, with the order. *)
Definition cooks_order (col : string) : option (Z * CookRow -> Z * CookRow -> bool) :=
  if String.eqb col "id" then Some (fun x y => y.1 <=? x.1)
  else if String.eqb col "created" then Some (fun x y => cr_created y.2 <=? cr_created x.2)
  else if String.eqb col "description" then
    Some (fun x y => String.leb (cr_description y.2) (cr_description x.2))
  else None.

Definition exec_cooks (col : string) (args : list SqlValue) (t : Tables) : pg_result :=
  match cooks_order col with
  | None => PgPrepErr (sql_err "42703" ("column " ++ quote col ++ " does not exist"))
  | Some ge =>
      match args with
      | [VInt lim; VInt off] =>
          match check_limit_offset lim off with
          | Some e => PgExecErr e
          | None => PgOk (map cook_values (paginate lim off
                             (sort_desc ge (map_to_list (t_cooks t))))) t
          end
      | _ => bad_args 2 args
      end
  end.

Definition exec_cook_by_id (args : list SqlValue) (t : Tables) : pg_result :=
  match args with
  | [VInt id] =>
      match t_cooks t !! id with
      | Some r => PgOk [[VText (cr_description r); VTime (cr_created r)]] t
      | None => PgOk [] t
      end
  | _ => bad_args 1 args
  end.

(** No [ORDER BY]: the rows come in an order SQL leaves open. *)
Definition readings_of (id : Z) (t : Tables) : list (Z * ReadingRow) :=
  filter (fun x => rr_cook_id x.2 = Some id) (map_to_list (t_readings t)).

Definition exec_readings_of_cook (args : list SqlValue) (t : Tables) : pg_result :=
  match args with
  | [VInt id] => PgOk (map reading_values (readings_of id t)) t
  | _ => bad_args 1 args
  end.

(** The server's answer to a statement text. *)
Definition pg_exec (sql : string) (args : list SqlValue) (t : Tables) : pg_result :=
  if String.eqb sql sql_insert_reading then exec_insert_reading args t
  else if String.eqb sql sql_insert_cook then exec_insert_cook args t
  else if String.eqb sql sql_update_cook then exec_update_cook args t
  else if String.eqb sql sql_orphans then exec_orphans args t
  else if String.eqb sql sql_cook_by_id then exec_cook_by_id args t
  else if String.eqb sql sql_readings_of_cook then exec_readings_of_cook args t
  else match strip_prefix sql_add_prefix sql with
  | Some l => exec_set_cook l args t
  | None =>
  match strip_prefix sql_remove_prefix sql with
  | Some l => exec_set_null l args t
  | None =>
  match strip_prefix sql_cooks_prefix sql with
  | Some r =>
      match strip_suffix sql_cooks_suffix r with
      | Some col => exec_cooks col args t
      | None => PgPrepErr syntax_error
      end
  | None => PgPrepErr syntax_error
  end end end.

(** ** The Go process's world *)

(** What one round trip to the server does: how long it takes, whether
    the connection fails, and whether the server commits a statement
    whose answer comes after the client stopped waiting. *)
Record StoreResp := mkStoreResp {
  sr_latency : Z;
  sr_fault : option string;
  sr_late_commit : bool;
}.

Definition resp_default : StoreResp := mkStoreResp 0 None false.

Record World := mkWorld {
  w_db : Tables;                    (** the server's tables *)
  w_pool : bool;                    (** [pool != nil] *)
  w_clock : time;                   (** [time.Now()] *)
  w_net : list StoreResp;           (** the next round trips *)
  w_log : list HTTPReqInfo.t;       (** the access log, newest first *)
}.

Definition set_db (t : Tables) (w : World) : World :=
  mkWorld t (w_pool w) (w_clock w) (w_net w) (w_log w).

(** [context.Context] with a deadline. *)
Record Ctx := mkCtx { ctx_deadline : time }.

Inductive rt_result :=
| RtErr (e : GoError)
| RtPg (r : pg_result).

Definition pg_tables (r : pg_result) (t : Tables) : Tables :=
  match r with PgOk _ t' => t' | _ => t end.

(** One statement sent through the pool.  On the nil pool the method
    call dereferences nil and panics.  A context already past its
    deadline fails before anything is sent; an answer that arrives at or
    after the deadline is a timeout, and the statement is committed iff
    the oracle says the server finished it. *)
Definition pgx_roundtrip (ctx : Ctx) (sql : string) (args : list SqlValue)
  : prog World rt_result :=
  fun w =>
    if negb (w_pool w) then Crash w else
    if ctx_deadline ctx <=? w_clock w then Ret (RtErr ErrTimeout) w else
    let '(r, net') := match w_net w with
                      | [] => (resp_default, [])
                      | r :: rs => (r, rs)
                      end in
    let arrive := w_clock w + Z.max 0 (sr_latency r) in
    if ctx_deadline ctx <=? arrive then
      let t' := if sr_late_commit r then pg_tables (pg_exec sql args (w_db w)) (w_db w)
                else w_db w in
      Ret (RtErr ErrTimeout) (mkWorld t' true (ctx_deadline ctx) net' (w_log w))
    else
      match sr_fault r with
      | Some msg => Ret (RtErr (ErrConn msg)) (mkWorld (w_db w) true arrive net' (w_log w))
      | None =>
          let res := pg_exec sql args (w_db w) in
          Ret (RtPg res) (mkWorld (pg_tables res (w_db w)) true arrive net' (w_log w))
      end.

(** [pool.QueryRow(ctx, sql, args...).Scan(...)]: the first row, every
    error, and [pgx.ErrNoRows] when there is no row. *)
Definition pgx_QueryRow (ctx : Ctx) (sql : string) (args : list SqlValue)
  : prog World (result (list SqlValue) GoError) :=
  do r <- pgx_roundtrip ctx sql args ;
  pret (match r with
        | RtErr e | RtPg (PgPrepErr e) | RtPg (PgExecErr e) => Err e
        | RtPg (PgOk [] _) => Err ErrNoRows
        | RtPg (PgOk (row :: _) _) => Ok row
        end).

(** [pool.Query(ctx, sql, args...)]: errors of preparing are returned;
    an error while the statement runs ends the rows and is kept for
    [rows.Err()]. *)
Definition pgx_Query (ctx : Ctx) (sql : string) (args : list SqlValue)
  : prog World (result (list (list SqlValue) * option GoError) GoError) :=
  do r <- pgx_roundtrip ctx sql args ;
  pret (match r with
        | RtErr e | RtPg (PgPrepErr e) => Err e
        | RtPg (PgExecErr e) => Ok ([], Some e)
        | RtPg (PgOk rows _) => Ok (rows, None)
        end).

(** [pool.Exec(ctx, sql, args...)]: every error is returned. *)
Definition pgx_Exec (ctx : Ctx) (sql : string) (args : list SqlValue)
  : prog World (option GoError) :=
  do r <- pgx_roundtrip ctx sql args ;
  pret (match r with
        | RtErr e | RtPg (PgPrepErr e) | RtPg (PgExecErr e) => Some e
        | RtPg (PgOk _ _) => None
        end).

(** ** The store's invariant

    Ids lie between 1 and the last value of their sequence (so the next
    value is fresh), stored times are whole microseconds, and the
    [cook_id] of every reading names an existing cook. *)

Definition cook_ref_ok (t : Tables) (r : ReadingRow) : Prop :=
  match rr_cook_id r with
  | Some c => is_Some (t_cooks t !! c)
  | None => True
  end.

Record tables_wf (t : Tables) : Prop := {
  wf_seq_r : 0 <= t_readings_seq t;
  wf_seq_c : 0 <= t_cooks_seq t;
  wf_readings : map_Forall (fun id r => 1 <= id <= t_readings_seq t
                              /\ rr_timestamp r mod 1000 = 0
                              /\ cook_ref_ok t r) (t_readings t);
  wf_cooks : map_Forall (fun id c => 1 <= id <= t_cooks_seq t
                           /\ cr_created c mod 1000 = 0) (t_cooks t);
}.

(** ** Worlds, round trips and the invariant's checker *)

Definition world_wf (w : World) : Prop := tables_wf (w_db w).

Definition rt_latency (w : World) : Z :=
  match w_net w with [] => 0 | r :: _ => Z.max 0 (sr_latency r) end.

Definition rt_fault (w : World) : option string :=
  match w_net w with [] => None | r :: _ => sr_fault r end.

(** The world after the next round trip, which left the tables [t]. *)
Definition rt_next (w : World) (t : Tables) : World :=
  mkWorld t true (w_clock w + rt_latency w) (tail (w_net w)) (w_log w).

(** The next round trip goes through a live pool and is answered,
    without fault, before the deadline [d]. *)
Definition answers_before (d : time) (w : World) : Prop :=
  w_pool w = true /\ w_clock w + rt_latency w < d /\ rt_fault w = None.

Definition pg_error (r : pg_result) : option GoError :=
  match r with
  | PgOk _ _ => None
  | PgPrepErr e | PgExecErr e => Some e
  end.

(** A program respects a relation [RW] between the world it starts from
    and the world it leaves, whether it returns or panics. *)
Definition respects (RW : relation World) {A} (m : prog World A) : Prop :=
  forall w, RW w (out_state (m w)).

(** A relation on the tables, read on worlds. *)
Definition on_db (R : relation Tables) : relation World :=
  fun w w' => R (w_db w) (w_db w').

(** The relation "the invariant is kept". *)
Definition wf_kept (t t' : Tables) : Prop := tables_wf t -> tables_wf t'.

(** The invariant holds of the world a program leaves. *)
Definition world_preserves {A} (m : prog World A) : Prop := respects (on_db wf_kept) m.

(** The global [pool] is not reassigned. *)
Definition pool_kept : relation World := fun w w' => w_pool w' = w_pool w.

(** The clock does not go back. *)
Definition clock_mono : relation World := fun w w' => w_clock w <= w_clock w'.

(** The access log is left as it is. *)
Definition log_kept : relation World := fun w w' => w_log w' = w_log w.

(** The tables grow: no reading and no cook disappears, and neither id
    sequence goes back. *)
Record tables_grow (t t' : Tables) : Prop := {
  grow_readings : forall id, is_Some (t_readings t !! id) -> is_Some (t_readings t' !! id);
  grow_cooks : forall id, is_Some (t_cooks t !! id) -> is_Some (t_cooks t' !! id);
  grow_seq_r : t_readings_seq t <= t_readings_seq t';
  grow_seq_c : t_cooks_seq t <= t_cooks_seq t';
}.

#[export] Instance wf_kept_preorder : PreOrder wf_kept.
Proof. split; [by intros t H|intros t1 t2 t3 H12 H23 H; auto]. Qed.

#[export] Instance tables_grow_preorder : PreOrder tables_grow.
Proof.
  split; [intros t; split; auto; lia|].
  intros t1 t2 t3 [] []; split; auto; lia.
Qed.

#[export] Instance on_db_preorder (R : relation Tables) `{!PreOrder R} : PreOrder (on_db R).
Proof. split; [intros w; unfold on_db; reflexivity|intros ? ? ? ? ?; unfold on_db in *; etrans; eauto]. Qed.

#[export] Instance pool_kept_preorder : PreOrder pool_kept.
Proof. split; [by intros w|intros ? ? ? H1 H2; unfold pool_kept in *; congruence]. Qed.

#[export] Instance clock_mono_preorder : PreOrder clock_mono.
Proof. split; [intros w; unfold clock_mono; lia|intros ? ? ? H1 H2; unfold clock_mono in *; lia]. Qed.

#[export] Instance log_kept_preorder : PreOrder log_kept.
Proof. split; [by intros w|intros ? ? ? H1 H2; unfold log_kept in *; congruence]. Qed.

Definition cook_ref_okb (t : Tables) (r : ReadingRow) : bool :=
  match rr_cook_id r with
  | Some c => bool_decide (is_Some (t_cooks t !! c))
  | None => true
  end.

Definition tables_wfb (t : Tables) : bool :=
  bool_decide (0 <= t_readings_seq t) && bool_decide (0 <= t_cooks_seq t)
  && bool_decide (map_Forall (fun id r => 1 <= id <= t_readings_seq t
                                /\ rr_timestamp r mod 1000 = 0
                                /\ cook_ref_okb t r = true) (t_readings t))
  && bool_decide (map_Forall (fun id c => 1 <= id <= t_cooks_seq t
                                /\ cr_created c mod 1000 = 0) (t_cooks t)).

(** A small store: cook 1, reading 1 without a cook, reading 2 of cook 1. *)
Definition demo_tables : Tables :=
  mkTables (<[2 := mkReadingRow 2000 7 80.5%float 230%float (Some 1)]>
              {[1 := mkReadingRow 1000 5 75.5%float 225%float None]})
           {[1 := mkCookRow 0 "Brisket #1"]} 2 1.

(** A live pool whose round trips answer at once. *)
Definition demo_world : World := mkWorld demo_tables true 1000000 [] [].

(** The same store behind round trips of 6 s and 5 s. *)
Definition demo_world_slow : World :=
  mkWorld demo_tables true 1000000
    [mkStoreResp (6 * 10 ^ 9) None false; mkStoreResp (5 * 10 ^ 9) None false] [].

(** The same store behind a round trip of 11 s. *)
Definition demo_world_stalled : World :=
  mkWorld demo_tables true 1000000 [mkStoreResp (11 * 10 ^ 9) None false] [].

(** The same store after a failed [connect]: [pool] is nil. *)
Definition demo_world_nil_pool : World := mkWorld demo_tables false 1000000 [] [].

Lemma empty_tables_wf : tables_wf empty_tables.
Proof. split; simpl; try lia; apply map_Forall_empty. Qed.

Lemma trunc_us_mod t : trunc_us t mod 1000 = 0.
Proof.
  unfold trunc_us. rewrite Zminus_mod, Z.mod_mod, Z.sub_diag by lia. reflexivity.
Qed.

Lemma trunc_us_bound t : trunc_us t <= t < trunc_us t + 1000.
Proof. unfold trunc_us. pose proof (Z.mod_pos_bound t 1000). lia. Qed.

(** Times a millisecond or more apart stay ordered after truncation. *)
Lemma trunc_us_lt x d : 1000 <= d -> trunc_us x < trunc_us (x + d).
Proof. intros Hd. pose proof (trunc_us_bound x). pose proof (trunc_us_bound (x + d)). lia. Qed.

Lemma assign_cook_lookup c ids m id :
  assign_cook c ids m !! id =
  (fun r => if decide (id ∈ ids) then set_cook_id c r else r) <$> m !! id.
Proof.
  unfold assign_cook. rewrite map_lookup_imap. by destruct (m !! id).
Qed.

Lemma assign_cook_is_Some c ids m id :
  is_Some (assign_cook c ids m !! id) <-> is_Some (m !! id).
Proof. rewrite assign_cook_lookup. apply fmap_is_Some. Qed.

Lemma cook_ref_ok_mono t t' r :
  (forall c, is_Some (t_cooks t !! c) -> is_Some (t_cooks t' !! c)) ->
  cook_ref_ok t r -> cook_ref_ok t' r.
Proof. unfold cook_ref_ok. destruct (rr_cook_id r); auto. Qed.

#[export] Hint Resolve trunc_us_mod empty_tables_wf : grill.

Lemma exec_insert_reading_wf args t :
  tables_wf t -> tables_wf (pg_tables (exec_insert_reading args t) t).
Proof.
  intros [Hr Hc HR HC]. unfold exec_insert_reading.
  destruct args as [|[] [|[] [|[] [|[] []]]]]; try (split; assumption).
  destruct (t_readings t !! _) eqn:E; [split; assumption|].
  split; simpl; try lia; [|exact HC].
  apply map_Forall_insert_2.
  - split; [lia|]. split; [apply trunc_us_mod|exact I].
  - eapply map_Forall_impl; [exact HR|]. intros i r (? & ? & ?). split; [lia|auto].
Qed.

Lemma exec_insert_cook_wf args t :
  tables_wf t -> tables_wf (pg_tables (exec_insert_cook args t) t).
Proof.
  intros [Hr Hc HR HC]. unfold exec_insert_cook.
  destruct args as [|[] [|[] []]]; try (split; assumption).
  destruct (has_nul _); [split; assumption|].
  destruct (t_cooks t !! _) eqn:E; [split; assumption|].
  split; simpl; try lia.
  - eapply map_Forall_impl; [exact HR|]. intros i r (? & ? & Href).
    split; [lia|split; [done|]]. eapply cook_ref_ok_mono; [|exact Href].
    simpl. intros c Hs. by apply lookup_insert_is_Some'; right.
  - apply map_Forall_insert_2; [split; [lia|apply trunc_us_mod]|].
    eapply map_Forall_impl; [exact HC|]. intros i c (? & ?). split; [lia|done].
Qed.

Lemma exec_update_cook_wf args t :
  tables_wf t -> tables_wf (pg_tables (exec_update_cook args t) t).
Proof.
  intros [Hr Hc HR HC]. unfold exec_update_cook.
  destruct args as [|[] [|[] []]]; try (split; assumption).
  destruct (has_nul _); [split; assumption|].
  split; simpl; try lia.
  - eapply map_Forall_impl; [exact HR|]. intros i r (? & ? & Href).
    split; [lia|split; [done|]]. eapply cook_ref_ok_mono; [|exact Href].
    simpl. intros c Hs. by rewrite lookup_alter_is_Some.
  - intros i c Hi. apply lookup_alter_Some in Hi as [(-> & x & Hx & ->)|[_ Hx]];
      destruct (HC _ _ Hx); simpl; auto.
Qed.

Lemma assign_cook_wf c ids t :
  tables_wf t ->
  (forall x, c = Some x -> (exists id, id ∈ ids /\ is_Some (t_readings t !! id)) ->
             is_Some (t_cooks t !! x)) ->
  tables_wf (assign_tables c ids t).
Proof.
  intros [Hr Hc HR HC] Hfk. split; simpl; try done.
  intros i r' Hi. rewrite assign_cook_lookup in Hi.
  destruct (t_readings t !! i) as [r|] eqn:Ei; [|done]. simpl in Hi. invc Hi.
  destruct (HR _ _ Ei) as (? & ? & Href).
  destruct (decide (i ∈ ids)); [|done].
  split; [done|split; [done|]]. unfold cook_ref_ok, set_cook_id; simpl.
  destruct c as [x|]; [|done]. apply Hfk; eauto.
Qed.

Lemma exec_set_cook_wf l args t :
  tables_wf t -> tables_wf (pg_tables (exec_set_cook l args t) t).
Proof.
  intros Hwf. unfold exec_set_cook.
  destruct (parse_in_list l) as [idx|]; [|done].
  destruct (check_params _ _); [done|].
  destruct (int_arg args 1) as [c|], (int_args args idx) as [ids|]; try done.
  destruct (fk_violation ids c t) eqn:Efk; [done|]. simpl. unfold fk_violation in Efk.
  apply assign_cook_wf; [done|]. intros x [= <-] (id & Hid & Hs).
  apply andb_false_iff in Efk as [Efk|Efk].
  - exfalso. apply not_true_iff_false in Efk. apply Efk, existsb_exists.
    exists id. split; [by apply list_elem_of_In|by apply bool_decide_eq_true].
  - apply negb_false_iff, bool_decide_eq_true in Efk. done.
Qed.

Lemma exec_set_null_wf l args t :
  tables_wf t -> tables_wf (pg_tables (exec_set_null l args t) t).
Proof.
  intros Hwf. unfold exec_set_null.
  destruct (parse_in_list l) as [idx|]; [|done].
  destruct (check_params _ _); [done|].
  destruct (int_args args idx); [|done]. simpl.
  apply assign_cook_wf; [done|]. by intros x [=].
Qed.

(** The effect of a statement on the tables is that of one of the five
    statements that write; the others leave the tables as they are. *)
Lemma pg_exec_effect (P : Tables -> Tables -> Prop) :
  (forall t, P t t) ->
  (forall args t, P t (pg_tables (exec_insert_reading args t) t)) ->
  (forall args t, P t (pg_tables (exec_insert_cook args t) t)) ->
  (forall args t, P t (pg_tables (exec_update_cook args t) t)) ->
  (forall l args t, P t (pg_tables (exec_set_cook l args t) t)) ->
  (forall l args t, P t (pg_tables (exec_set_null l args t) t)) ->
  forall sql args t, P t (pg_tables (pg_exec sql args t) t).
Proof.
  intros Hid Hir Hic Huc Hsc Hsn sql args t. unfold pg_exec.
  repeat match goal with
  | |- context [if String.eqb ?a ?b then _ else _] => destruct (String.eqb a b)
  | |- context [match strip_prefix ?p ?s with _ => _ end] => destruct (strip_prefix p s)
  | |- context [match strip_suffix ?p ?s with _ => _ end] => destruct (strip_suffix p s)
  end; auto.
  all: unfold exec_orphans, exec_cook_by_id, exec_readings_of_cook, exec_cooks, bad_args;
    repeat split_match; simpl; auto.
Qed.

(** Every statement text, with any arguments, keeps the invariant. *)
Theorem pg_exec_wf sql args t :
  tables_wf t -> tables_wf (pg_tables (pg_exec sql args t) t).
Proof.
  revert sql args t. apply (pg_exec_effect (fun t t' => tables_wf t -> tables_wf t'));
    auto using exec_insert_reading_wf, exec_insert_cook_wf, exec_update_cook_wf,
      exec_set_cook_wf, exec_set_null_wf.
Qed.

Lemma assign_tables_grow c ids t : tables_grow t (assign_tables c ids t).
Proof. split; simpl; try lia; auto. intros i. by rewrite assign_cook_is_Some. Qed.

(** No statement deletes a row or moves a sequence back. *)
Theorem pg_exec_grow sql args t : tables_grow t (pg_tables (pg_exec sql args t) t).
Proof.
  revert sql args t. apply pg_exec_effect; [reflexivity|..]; intros.
  - unfold exec_insert_reading. repeat split_match; try reflexivity.
    split; simpl; try lia; auto. intros i Hi. apply lookup_insert_is_Some'; auto.
  - unfold exec_insert_cook. repeat split_match; try reflexivity.
    split; simpl; try lia; auto. intros i Hi. apply lookup_insert_is_Some'; auto.
  - unfold exec_update_cook. repeat split_match; try reflexivity.
    split; simpl; try lia; auto. intros i Hi. by apply lookup_alter_is_Some.
  - unfold exec_set_cook. repeat split_match; try reflexivity. apply assign_tables_grow.
  - unfold exec_set_null. repeat split_match; try reflexivity. apply assign_tables_grow.
Qed.

#[export] Hint Resolve pg_exec_wf pg_exec_grow : grill.

(** ** Round trips that answer in time, time out, or panic *)

Lemma rt_latency_nonneg w : 0 <= rt_latency w.
Proof. unfold rt_latency. destruct (w_net w); lia. Qed.

Lemma pgx_roundtrip_answer ctx sql args w :
  answers_before (ctx_deadline ctx) w ->
  pgx_roundtrip ctx sql args w =
  Ret (RtPg (pg_exec sql args (w_db w)))
      (rt_next w (pg_tables (pg_exec sql args (w_db w)) (w_db w))).
Proof.
  intros (Hp & Hd & Hf). pose proof (rt_latency_nonneg w).
  unfold pgx_roundtrip, rt_next. rewrite Hp. simpl.
  unfold rt_latency, rt_fault in *.
  destruct (w_net w) as [|r rs]; simpl in *; z_cases; try lia; by rewrite ?Hf.
Qed.

Lemma pgx_roundtrip_nil_pool ctx sql args w :
  w_pool w = false -> pgx_roundtrip ctx sql args w = Crash w.
Proof. intros Hp. unfold pgx_roundtrip. by rewrite Hp. Qed.

(** A round trip that is not answered before the deadline is a timeout;
    the tables are either untouched or the statement's result. *)
Lemma pgx_roundtrip_timeout ctx sql args w :
  w_pool w = true -> ctx_deadline ctx <= w_clock w + rt_latency w ->
  exists w', pgx_roundtrip ctx sql args w = Ret (RtErr ErrTimeout) w'
    /\ (w_db w' = w_db w \/ w_db w' = pg_tables (pg_exec sql args (w_db w)) (w_db w)).
Proof.
  intros Hp Hd. unfold pgx_roundtrip, rt_latency in *. rewrite Hp. simpl.
  destruct (Z.leb_spec (ctx_deadline ctx) (w_clock w)); [eauto|].
  destruct (w_net w) as [|r rs]; simpl in *; z_cases; try lia.
  destruct (sr_late_commit r); eauto.
Qed.

(** A round trip answered only after the deadline, whose statement the
    server commits all the same: the client sees a timeout, the tables
    hold the statement's effect. *)
Lemma pgx_roundtrip_late_commit ctx sql args w resp rest :
  w_pool w = true -> w_net w = resp :: rest ->
  w_clock w < ctx_deadline ctx <= w_clock w + Z.max 0 (sr_latency resp) ->
  sr_late_commit resp = true ->
  pgx_roundtrip ctx sql args w
  = Ret (RtErr ErrTimeout)
        (mkWorld (pg_tables (pg_exec sql args (w_db w)) (w_db w)) true (ctx_deadline ctx)
                 rest (w_log w)).
Proof.
  intros Hp Hn Hd Hc. unfold pgx_roundtrip. rewrite Hp, Hn, Hc. simpl. by z_cases; try lia.
Qed.

(** A round trip answered only after the deadline and not committed:
    the client sees a timeout at the deadline, the tables are untouched. *)
Lemma pgx_roundtrip_stall ctx sql args w resp rest :
  w_pool w = true -> w_net w = resp :: rest ->
  w_clock w < ctx_deadline ctx <= w_clock w + Z.max 0 (sr_latency resp) ->
  sr_late_commit resp = false ->
  pgx_roundtrip ctx sql args w
  = Ret (RtErr ErrTimeout) (mkWorld (w_db w) true (ctx_deadline ctx) rest (w_log w)).
Proof.
  intros Hp Hn Hd Hc. unfold pgx_roundtrip. rewrite Hp, Hn, Hc. simpl. by z_cases; try lia.
Qed.

(** A round trip whose connection fails before the deadline. *)
Lemma pgx_roundtrip_fault ctx sql args w resp rest msg :
  w_pool w = true -> w_net w = resp :: rest ->
  w_clock w + Z.max 0 (sr_latency resp) < ctx_deadline ctx ->
  sr_fault resp = Some msg ->
  pgx_roundtrip ctx sql args w
  = Ret (RtErr (ErrConn msg))
        (mkWorld (w_db w) true (w_clock w + Z.max 0 (sr_latency resp)) rest (w_log w)).
Proof.
  intros Hp Hn Hd Hf. unfold pgx_roundtrip. rewrite Hp, Hn, Hf. simpl. by z_cases; try lia.
Qed.

(** The next value of each sequence is a fresh id. *)
Lemma fresh_reading_id t : tables_wf t -> t_readings t !! (t_readings_seq t + 1) = None.
Proof.
  intros Hwf. destruct (t_readings t !! _) eqn:E; [|done].
  destruct (wf_readings _ Hwf _ _ E). lia.
Qed.

Lemma fresh_cook_id t : tables_wf t -> t_cooks t !! (t_cooks_seq t + 1) = None.
Proof.
  intros Hwf. destruct (t_cooks t !! _) eqn:E; [|done].
  destruct (wf_cooks _ Hwf _ _ E). lia.
Qed.

Lemma pgx_Exec_answer d sql args w :
  answers_before d w ->
  pgx_Exec (mkCtx d) sql args w =
  Ret (pg_error (pg_exec sql args (w_db w)))
      (rt_next w (pg_tables (pg_exec sql args (w_db w)) (w_db w))).
Proof.
  intros H. unfold pgx_Exec, pbind. rewrite pgx_roundtrip_answer by exact H.
  by destruct (pg_exec sql args (w_db w)).
Qed.

Lemma pgx_QueryRow_answer d sql args w :
  answers_before d w ->
  pgx_QueryRow (mkCtx d) sql args w =
  Ret (match pg_exec sql args (w_db w) with
       | PgPrepErr e | PgExecErr e => Err e
       | PgOk [] _ => Err ErrNoRows
       | PgOk (row :: _) _ => Ok row
       end)
      (rt_next w (pg_tables (pg_exec sql args (w_db w)) (w_db w))).
Proof.
  intros H. unfold pgx_QueryRow, pbind. rewrite pgx_roundtrip_answer by exact H.
  by destruct (pg_exec sql args (w_db w)) as [[]| |].
Qed.

Lemma pgx_Query_answer d sql args w :
  answers_before d w ->
  pgx_Query (mkCtx d) sql args w =
  Ret (match pg_exec sql args (w_db w) with
       | PgPrepErr e => Err e
       | PgExecErr e => Ok ([], Some e)
       | PgOk rows _ => Ok (rows, None)
       end)
      (rt_next w (pg_tables (pg_exec sql args (w_db w)) (w_db w))).
Proof.
  intros H. unfold pgx_Query, pbind. rewrite pgx_roundtrip_answer by exact H.
  by destruct (pg_exec sql args (w_db w)).
Qed.

(** A round trip that reaches the server returns [pg_exec]'s answer. *)
Lemma pgx_roundtrip_pg ctx sql args w res w' :
  pgx_roundtrip ctx sql args w = Ret (RtPg res) w' -> res = pg_exec sql args (w_db w).
Proof.
  unfold pgx_roundtrip. destruct (w_pool w); simpl; [|done].
  destruct (_ <=? _); [done|].
  destruct (match w_net w with [] => _ | _ => _ end) as [r net'].
  destruct (_ <=? _); [done|]. destruct (sr_fault r); [done|]. by intros [= <- _].
Qed.

(** ** Programs that respect a preorder on worlds

    Every result below holds for any preorder [RW] on worlds that each
    round trip respects.  It is used with [on_db R] for a preorder [R] on
    the tables that every statement's effect respects ([wf_kept], the
    invariant, and [tables_grow]) and with [pool_kept]. *)

Section Respects.
Context (RW : relation World) `{!PreOrder RW}.

Lemma respects_pret {A} (a : A) : respects RW (pret a).
Proof. intros w. simpl. reflexivity. Qed.

Lemma respects_bind {A B} (m : prog World A) (k : A -> prog World B) :
  respects RW m -> (forall a, respects RW (k a)) -> respects RW (pbind m k).
Proof.
  intros Hm Hk w. specialize (Hm w). unfold pbind.
  destruct (m w) as [a w1|w1]; simpl in *; [|done]. etrans; [exact Hm|apply Hk].
Qed.

Hypothesis RW_rt : forall ctx sql args, respects RW (pgx_roundtrip ctx sql args).

Lemma respects_QueryRow ctx sql args : respects RW (pgx_QueryRow ctx sql args).
Proof. apply respects_bind; [apply RW_rt|intros; apply respects_pret]. Qed.

Lemma respects_Query ctx sql args : respects RW (pgx_Query ctx sql args).
Proof. apply respects_bind; [apply RW_rt|intros; apply respects_pret]. Qed.

Lemma respects_Exec ctx sql args : respects RW (pgx_Exec ctx sql args).
Proof. apply respects_bind; [apply RW_rt|intros; apply respects_pret]. Qed.

End Respects.

(** A round trip changes the tables only by a statement's effect. *)
Lemma on_db_roundtrip (R : relation Tables) `{!PreOrder R} :
  (forall sql args t, R t (pg_tables (pg_exec sql args t) t)) ->
  forall ctx sql args, respects (on_db R) (pgx_roundtrip ctx sql args).
Proof.
  intros R_exec ctx sql args w. unfold on_db, pgx_roundtrip.
  destruct (w_pool w); simpl; [|reflexivity].
  destruct (ctx_deadline ctx <=? w_clock w); [reflexivity|].
  destruct (match w_net w with [] => _ | _ => _ end) as [resp net'].
  destruct (_ <=? _); [destruct (sr_late_commit resp)|destruct (sr_fault resp)];
    simpl; first [reflexivity|apply R_exec].
Qed.

(** A round trip leaves [pool] as it is: a nil pool panics, a live one
    stays live. *)
Lemma pool_roundtrip ctx sql args : respects pool_kept (pgx_roundtrip ctx sql args).
Proof.
  intros w. unfold pool_kept, pgx_roundtrip. destruct (w_pool w) eqn:Hp; simpl; [|done].
  destruct (ctx_deadline ctx <=? w_clock w); [done|].
  destruct (match w_net w with [] => _ | _ => _ end) as [resp net'].
  destruct (_ <=? _); [|destruct (sr_fault resp)]; done.
Qed.

Lemma pg_exec_kept sql args t : wf_kept t (pg_tables (pg_exec sql args t) t).
Proof. intros H. by apply pg_exec_wf. Qed.

(** A round trip takes time: the clock moves to the answer or to the
    deadline, never back. *)
Lemma clock_roundtrip ctx sql args : respects clock_mono (pgx_roundtrip ctx sql args).
Proof.
  intros w. unfold clock_mono, pgx_roundtrip. destruct (w_pool w); simpl; [|lia].
  destruct (Z.leb_spec (ctx_deadline ctx) (w_clock w)); simpl; [lia|].
  destruct (match w_net w with [] => _ | _ => _ end) as [resp net'].
  destruct (_ <=? _); [|destruct (sr_fault resp)]; simpl; lia.
Qed.

Lemma log_roundtrip ctx sql args : respects log_kept (pgx_roundtrip ctx sql args).
Proof.
  intros w. unfold log_kept, pgx_roundtrip. destruct (w_pool w); simpl; [|done].
  destruct (ctx_deadline ctx <=? w_clock w); [done|].
  destruct (match w_net w with [] => _ | _ => _ end) as [resp net'].
  destruct (_ <=? _); [|destruct (sr_fault resp)]; done.
Qed.

#[export] Hint Resolve respects_pret respects_QueryRow respects_Query respects_Exec
  pg_exec_kept on_db_roundtrip pool_roundtrip clock_roundtrip log_roundtrip : grill.

(** Build a [respects] proof along the binds of a program, splitting the
    [match]es between them. *)
Ltac solve_respects :=
  repeat first
    [ apply respects_bind;
      [try typeclasses eauto | solve [eauto with grill typeclass_instances] | intros ?]
    | progress eauto with grill typeclass_instances
    | case_match ].

Lemma pgx_Exec_timeout d sql args w :
  w_pool w = true -> d <= w_clock w + rt_latency w ->
  exists w', pgx_Exec (mkCtx d) sql args w = Ret (Some ErrTimeout) w'.
Proof.
  intros Hp Hd. destruct (pgx_roundtrip_timeout (mkCtx d) sql args w Hp Hd) as (w' & H & _).
  exists w'. unfold pgx_Exec, pbind. by rewrite H.
Qed.

Lemma pgx_QueryRow_timeout d sql args w :
  w_pool w = true -> d <= w_clock w + rt_latency w ->
  exists w', pgx_QueryRow (mkCtx d) sql args w = Ret (Err ErrTimeout) w'.
Proof.
  intros Hp Hd. destruct (pgx_roundtrip_timeout (mkCtx d) sql args w Hp Hd) as (w' & H & _).
  exists w'. unfold pgx_QueryRow, pbind. by rewrite H.
Qed.

Lemma pgx_Query_timeout d sql args w :
  w_pool w = true -> d <= w_clock w + rt_latency w ->
  exists w', pgx_Query (mkCtx d) sql args w = Ret (Err ErrTimeout) w'.
Proof.
  intros Hp Hd. destruct (pgx_roundtrip_timeout (mkCtx d) sql args w Hp Hd) as (w' & H & _).
  exists w'. unfold pgx_Query, pbind. by rewrite H.
Qed.

Lemma assign_tables_idem c ids t :
  assign_tables c ids (assign_tables c ids t) = assign_tables c ids t.
Proof.
  unfold assign_tables. simpl. f_equal. apply map_eq. intros i.
  rewrite !assign_cook_lookup. destruct (t_readings t !! i); simpl; [|done].
  by destruct (decide (i ∈ ids)).
Qed.

(** ** An executable check of the invariant *)

Lemma tables_wfb_sound t : tables_wfb t = true -> tables_wf t.
Proof.
  unfold tables_wfb. rewrite !andb_true_iff, !bool_decide_eq_true.
  intros [[[? ?] HR] ?]. split; try done.
  eapply map_Forall_impl; [exact HR|]. intros i r (? & ? & Hc). split; [done|split; [done|]].
  unfold cook_ref_okb, cook_ref_ok in *. destruct (rr_cook_id r); [|done].
  by apply bool_decide_eq_true in Hc.
Qed.

