(* ===== verification/Database.v ===== *)
(** * database.go: the store operations

    Each function of src/server/database.go is a [prog World _] that
    builds the same SQL text and argument list as the Go code and sends
    it through the pgx calls of [Store].  A Go function that returns only
    an [error] returns an [option GoError] ([None] is [nil]); one that
    fills a struct through a pointer returns the struct with the error;
    one that returns [(T, error)] returns a [result].  [defer cancel()]
    has no observable effect here and is left out.

    The theorems: the placeholder list [makeWhereInVarsForArray] builds
    parses back to exactly [$offset+1 .. $offset+size], so the [IN] list
    of [addReadingsToCook] and [removeReadingsFromCook] binds exactly the
    ids passed (and an empty list is a syntax error); the behaviour of
    each operation on every branch, timeouts included; and that every
    operation respects each preorder on the tables that every statement
    respects (the store invariant, the growth of the tables). *)

From S2P Require Import Prelude GoStrconv Types Store.
From Stdlib Require Import PrimFloat Ascii DecimalString DecimalPos.

(** ** The pool and the deadline *)

(** [connect()]: [pool = _pool] whether or not [pgxpool.Connect]
    succeeded; on failure [_pool] is nil and the error is only printed.
    [connected] is the outcome of [pgxpool.Connect] with [DATABASE_URL]. *)
Definition connect (connected : bool) : prog World unit :=
  pmodify (fun w => mkWorld (w_db w) connected (w_clock w) (w_net w) (w_log w)).

(** [timeoutContext()]: a context whose deadline is ten seconds from now. *)
Definition timeoutContext : prog World Ctx :=
  fun w => Ret (mkCtx (w_clock w + 10 * Second)) w.

(** ** [makeWhereInVarsForArray(size, offset)]

    The loop [for i := 0; i < size; i++] runs [Z.to_nat size] times. *)
Fixpoint where_in_loop (n : nat) (i size offset : Z) (str : string) : string :=
  match n with
  | O => str
  | S n' =>
      let str := (str ++ "$" ++ fmt_d (i + offset + 1))%string in
      let str := if negb (i =? size - 1) then (str ++ ",")%string else str in
      where_in_loop n' (i + 1) size offset str
  end.

Definition makeWhereInVarsForArray (size offset : Z) : string :=
  where_in_loop (Z.to_nat size) 0 size offset "".

(** ** Row scanning *)

(** [rows.Scan(&id)] into the [RETURNING "id"] row. *)
Definition scan_id (row : list SqlValue) : result Z GoError :=
  match row with
  | [VInt id] => Ok id
  | _ => Err (ErrPgx "can't scan into dest")
  end.

(** One [rows.Scan] of [processReadingsRow] into a fresh [Reading{}]. *)
Definition scan_reading (row : list SqlValue) : Reading.t :=
  match row with
  | [VInt id; VTime ts; VInt up; VFloat m; VFloat s] => Reading.mk id ts up m s
  | _ => Reading.zero
  end.

(** [processReadingsRow(rows)]: the scan errors are ignored and every
    row is appended. *)
Definition processReadingsRow (rows : list (list SqlValue)) : list Reading.t :=
  map scan_reading rows.

(** One [rows.Scan(&cook.Id, &cook.Created, &cook.Description)] of
    [getCooksInRange] into a fresh [Cook{}] (nil [Readings]). *)
Definition scan_cook (row : list SqlValue) : Cook.t :=
  match row with
  | [VInt id; VTime c; VText d] => Cook.mk id c d None
  | _ => Cook.zero
  end.

(** [Scan(&cook.Description, &cook.Created)] of [getCookById]. *)
Definition scan_desc_created (row : list SqlValue) : result (string * time) GoError :=
  match row with
  | [VText d; VTime c] => Ok (d, c)
  | _ => Err (ErrPgx "can't scan into dest")
  end.

(** ** The operations *)

(** [logNewReading(reading *Reading) error]: the generated id is written
    back into the reading when the scan succeeds. *)
Definition logNewReading (reading : Reading.t) : prog World (Reading.t * option GoError) :=
  do ctx <- timeoutContext ;
  do r <- pgx_QueryRow ctx sql_insert_reading
            [VTime (Reading.Timestamp reading); VInt (Reading.Uptime reading);
             VFloat (Reading.MeatTemp reading); VFloat (Reading.SmokeTemp reading)] ;
  pret (match r with
        | Err e => (reading, Some e)
        | Ok row =>
            match scan_id row with
            | Ok id => (Reading.mk id (Reading.Timestamp reading) (Reading.Uptime reading)
                          (Reading.MeatTemp reading) (Reading.SmokeTemp reading), None)
            | Err e => (reading, Some e)
            end
        end).

(** [createNewCook(cook *Cook) error] *)
Definition createNewCook (cook : Cook.t) : prog World (Cook.t * option GoError) :=
  do ctx <- timeoutContext ;
  do r <- pgx_QueryRow ctx sql_insert_cook
            [VText (Cook.Description cook); VTime (Cook.Created cook)] ;
  pret (match r with
        | Err e => (cook, Some e)
        | Ok row =>
            match scan_id row with
            | Ok id => (Cook.mk id (Cook.Created cook) (Cook.Description cook)
                          (Cook.Readings cook), None)
            | Err e => (cook, Some e)
            end
        end).

(** [updateCook(cook *Cook) error] *)
Definition updateCook (cook : Cook.t) : prog World (option GoError) :=
  do ctx <- timeoutContext ;
  pgx_Exec ctx sql_update_cook [VText (Cook.Description cook); VInt (Cook.Id cook)].

(** [addReadingsToCook(ids []int, cookId int) error]: [params[0]] is the
    cook id and [params[i+1] = ids[i]]. *)
Definition addReadingsToCook (ids : list Z) (cookId : Z) : prog World (option GoError) :=
  do ctx <- timeoutContext ;
  let vars := makeWhereInVarsForArray (Z.of_nat (length ids)) 1 in
  let params := VInt cookId :: map VInt ids in
  pgx_Exec ctx (sql_add_prefix ++ vars ++ ")")%string params.

(** [removeReadingsFromCook(ids []int) error]: [params[i] = ids[i]]. *)
Definition removeReadingsFromCook (ids : list Z) : prog World (option GoError) :=
  do ctx <- timeoutContext ;
  let vars := makeWhereInVarsForArray (Z.of_nat (length ids)) 0 in
  let params := map VInt ids in
  pgx_Exec ctx (sql_remove_prefix ++ vars ++ ")")%string params.

(** [getOrphanReadingsInRange(limit, offset int) ([]Reading, error)]:
    [rows.Err()] is never consulted. *)
Definition getOrphanReadingsInRange (limit offset : Z)
  : prog World (result (list Reading.t) GoError) :=
  do ctx <- timeoutContext ;
  do q <- pgx_Query ctx sql_orphans [VInt limit; VInt offset] ;
  pret (match q with
        | Err e => Err e
        | Ok (rows, _) => Ok (processReadingsRow rows)
        end).

(** [getCooksInRange(limit, offset int) ([]Cook, error)]: the query
    orders by a column named [timestamp]. *)
Definition getCooksInRange (limit offset : Z) : prog World (result (list Cook.t) GoError) :=
  do ctx <- timeoutContext ;
  do q <- pgx_Query ctx (sql_cooks_prefix ++ "timestamp" ++ sql_cooks_suffix)%string
            [VInt limit; VInt offset] ;
  pret (match q with
        | Err e => Err e
        | Ok (rows, _) => Ok (map scan_cook rows)
        end).

(** [getCookById(id int) (Cook, error)]: two statements under the same
    context, so under the same deadline. *)
Definition getCookById (id : Z) : prog World (result Cook.t GoError) :=
  do ctx <- timeoutContext ;
  do r <- pgx_QueryRow ctx sql_cook_by_id [VInt id] ;
  match r with
  | Err e => pret (Err e)
  | Ok row =>
      match scan_desc_created row with
      | Err e => pret (Err e)
      | Ok (d, c) =>
          do q <- pgx_Query ctx sql_readings_of_cook [VInt id] ;
          pret (match q with
                | Err e => Err e
                | Ok (rows, _) => Ok (Cook.mk id c d (Some (processReadingsRow rows)))
                end)
      end
  end.

(** ** The placeholder list round trip *)

(** The list [makeWhereInVarsForArray] is meant to build, written out. *)
Fixpoint in_items (ks : list Z) : string :=
  match ks with
  | [] => ""
  | [k] => "$" ++ fmt_d k
  | k :: ks' => "$" ++ fmt_d k ++ "," ++ in_items ks'
  end.

(** ** Conditions and decodings the theorems use *)

Definition in_time (w : World) : Prop := answers_before (w_clock w + 10 * Second) w.

(** The reading a row of [readings] decodes to. *)
Definition row_reading (x : Z * ReadingRow) : Reading.t :=
  Reading.mk x.1 (rr_timestamp x.2) (rr_uptime x.2) (rr_meat_temp x.2) (rr_smoke_temp x.2).

Definition times_out (w : World) : Prop :=
  w_pool w = true /\ 10 * Second <= rt_latency w.

(** The contract of "list orphan readings" (spec section 4.2): the page is
    the slice [off, off + lim) of some ordering of the orphan readings,
    newest first.  The order of equal timestamps is left open, as SQL
    leaves it. *)
Definition orphan_page_spec (t : Tables) (lim off : Z) (page : list Reading.t) : Prop :=
  exists L, L ≡ₚ orphans t /\ StronglySorted (fun x y => ts_ge x y = true) L
    /\ page = map row_reading (take (Z.to_nat lim) (drop (Z.to_nat off) L)).

#[export] Instance ts_ge_trans : Transitive (fun x y => ts_ge x y = true).
Proof. intros x y z. unfold ts_ge. rewrite !Z.leb_le. lia. Qed.

#[export] Instance ts_ge_total : Total (fun x y => ts_ge x y = true).
Proof. intros x y. unfold ts_ge. rewrite !Z.leb_le. lia. Qed.

Lemma where_in_loop_items k i size off str :
  size = i + Z.of_nat k ->
  where_in_loop k i size off str = (str ++ in_items (seqZ (i + off + 1) (Z.of_nat k)))%string.
Proof.
  revert i str; induction k as [|k IH]; intros i str Hs; simpl.
  - rewrite ?seqZ_nil by lia. simpl. by rewrite string_app_nil_r.
  - rewrite (seqZ_cons _ (Z.of_nat (S k))) by lia.
    rewrite IH by lia. replace (Z.pred (Z.of_nat (S k))) with (Z.of_nat k) by lia.
    replace (Z.succ (i + off + 1)) with (i + 1 + off + 1) by lia.
    destruct k as [|k].
    + destruct (Z.eqb_spec i (size - 1)); [|lia].
      rewrite ?seqZ_nil by lia. simpl. by autorewrite with grill_rw.
    + destruct (Z.eqb_spec i (size - 1)); [lia|]. simpl.
      rewrite (seqZ_cons _ (Z.of_nat (S k))) by lia. simpl.
      by autorewrite with grill_rw.
Qed.

Lemma scan_in_digits d rest n acc :
  scan_in_list (NilEmpty.string_of_uint d ++ rest) (InNum n) acc =
  scan_in_list rest (InNum (horner d n)) acc.
Proof.
  revert n; induction d; intros n; cbn [NilEmpty.string_of_uint horner];
    rewrite ?string_app_nil_l, ?string_app_cons; [reflexivity|..]; simpl; apply IHd.
Qed.

Lemma scan_in_fmt_d k rest acc :
  0 <= k ->
  scan_in_list (fmt_d k ++ rest) InDollar acc = scan_in_list rest (InNum k) acc.
Proof.
  intros Hk. destruct k as [|p|p]; [reflexivity| |lia].
  unfold fmt_d. simpl Z.to_int. simpl NilEmpty.string_of_int.
  rewrite <- (horner_to_uint p).
  pose proof (DecimalPos.Unsigned.to_uint_nonnil p) as Hnil.
  destruct (Pos.to_uint p); [done|..]; cbn [NilEmpty.string_of_uint];
    rewrite string_app_cons; simpl; apply scan_in_digits.
Qed.

Lemma scan_in_items ks acc :
  ks <> [] -> Forall (fun k => 0 <= k) ks ->
  scan_in_list (in_items ks ++ ")") InStart acc = Some (rev acc ++ ks).
Proof.
  revert acc; induction ks as [|k ks IH]; intros acc Hne Hall; [done|].
  inversion Hall as [|? ? Hk Hks]; subst.
  destruct ks as [|k' ks].
  - cbn [in_items]. autorewrite with grill_rw. simpl.
    rewrite scan_in_fmt_d by done. simpl. by rewrite <-?app_assoc.
  - cbn [in_items]. autorewrite with grill_rw. simpl.
    rewrite scan_in_fmt_d by done. simpl.
    rewrite IH by done. simpl. by rewrite <-?app_assoc.
Qed.

Theorem makeWhereInVarsForArray_parse (n : nat) (off : Z) :
  0 <= off -> (0 < n)%nat ->
  parse_in_list (makeWhereInVarsForArray (Z.of_nat n) off ++ ")") =
  Some (seqZ (off + 1) (Z.of_nat n)).
Proof.
  intros Hoff Hn. unfold makeWhereInVarsForArray, parse_in_list.
  rewrite Nat2Z.id, where_in_loop_items by lia. rewrite string_app_nil_l.
  rewrite scan_in_items; [reflexivity| |].
  - rewrite seqZ_cons by lia. done.
  - apply Forall_forall. intros x Hx. apply elem_of_seqZ in Hx. lia.
Qed.

(** The reference for the placeholder list: [$k] for each [k] of
    [offset+1 .. offset+size], joined by commas. *)
Lemma in_items_concat ks :
  in_items ks = String.concat "," (map (fun k => "$" ++ fmt_d k)%string ks).
Proof.
  induction ks as [|k [|k' ks] IH]; [done|done|].
  change (in_items (k :: k' :: ks)) with ("$" ++ fmt_d k ++ "," ++ in_items (k' :: ks))%string.
  rewrite IH. simpl. by autorewrite with grill_rw.
Qed.

(** C32: For every size and offset, the loop of makeWhereInVarsForArray
    builds the placeholders [$offset+1 .. $offset+size] joined by commas
    (the empty string when size is zero or negative). *)
Theorem makeWhereInVarsForArray_reference size off :
  makeWhereInVarsForArray size off
  = String.concat "," (map (fun k => "$" ++ fmt_d k)%string (seqZ (off + 1) size)).
Proof.
  unfold makeWhereInVarsForArray. destruct (Z.le_gt_cases 0 size) as [Hs|Hs].
  - rewrite where_in_loop_items, Z2Nat.id by lia.
    by rewrite string_app_nil_l, in_items_concat, Z.add_0_l.
  - rewrite seqZ_nil by lia. by replace (Z.to_nat size) with 0%nat by lia.
Qed.

(** ** Binding the placeholders *)

Lemma find_None_intro {A} (f : A -> bool) (l : list A) :
  (forall x, x ∈ l -> f x = false) -> List.find f l = None.
Proof.
  induction l as [|x l IH]; intros H; simpl; [done|].
  rewrite H by constructor. apply IH. intros y Hy. apply H. by constructor.
Qed.

Lemma fold_max_ge (l : list Z) x : x ∈ l -> x <= fold_right Z.max 0 l.
Proof. induction l; intros Hx; [inversion Hx|]. inversion Hx; subst; simpl; [lia|]. specialize (IHl H1). lia. Qed.

Lemma fold_max_le (l : list Z) b : 0 <= b -> (forall x, x ∈ l -> x <= b) -> fold_right Z.max 0 l <= b.
Proof.
  induction l as [|x l IH]; intros Hb H; simpl; [lia|].
  assert (x <= b) by (apply H; constructor).
  assert (fold_right Z.max 0 l <= b) by (apply IH; [done|]; intros y Hy; apply H; by constructor). lia.
Qed.

Lemma check_params_seqZ (m : nat) :
  (0 < m)%nat -> check_params (seqZ 1 (Z.of_nat m)) m = None.
Proof.
  intros Hm. unfold check_params.
  assert (fold_right Z.max 0 (seqZ 1 (Z.of_nat m)) = Z.of_nat m) as ->.
  { apply Z.le_antisymm.
    - apply fold_max_le; [lia|]. intros x Hx%elem_of_seqZ. lia.
    - apply fold_max_ge, elem_of_seqZ. lia. }
  rewrite find_None_intro.
  2:{ intros x Hx%elem_of_seqZ. apply Z.ltb_ge. lia. }
  rewrite find_None_intro.
  2:{ intros x Hx. apply negb_false_iff, existsb_exists. exists x.
      split; [by apply list_elem_of_In|apply Z.eqb_refl]. }
  by rewrite Z.eqb_refl.
Qed.

Lemma int_args_seqZ (pre : list SqlValue) (ids : list Z) :
  int_args (pre ++ map VInt ids) (seqZ (Z.of_nat (length pre) + 1) (Z.of_nat (length ids)))
  = Some ids.
Proof.
  revert pre; induction ids as [|x ids IH]; intros pre; [done|].
  rewrite (seqZ_cons _ (Z.of_nat (length (x :: ids)))) by (simpl; lia). simpl.
  unfold int_arg. replace (Z.to_nat (Z.of_nat (length pre) + 1 - 1)) with (length pre) by lia.
  rewrite lookup_app_r, Nat.sub_diag by lia. simpl.
  specialize (IH (pre ++ [VInt x])). rewrite <- app_assoc in IH. simpl in IH.
  rewrite length_app in IH. simpl in IH.
  replace (Z.succ (Z.of_nat (length pre) + 1)) with (Z.of_nat (length pre + 1) + 1) by lia.
  replace (Z.pred (Z.of_nat (S (length ids)))) with (Z.of_nat (length ids)) by lia.
  by rewrite IH.
Qed.

Lemma strip_prefix_app p r : strip_prefix p (p ++ r) = Some r.
Proof. induction p; rewrite ?string_app_nil_l, ?string_app_cons; simpl; [done|]. by rewrite Ascii.eqb_refl. Qed.

(** The [IN] list [addReadingsToCook] sends binds exactly its ids. *)
Lemma exec_set_cook_sent ids c t :
  ids <> [] ->
  exec_set_cook (makeWhereInVarsForArray (Z.of_nat (length ids)) 1 ++ ")")
    (VInt c :: map VInt ids) t =
  if fk_violation ids c t then PgExecErr fk_error
  else PgOk [] (assign_tables (Some c) ids t).
Proof.
  intros Hne. assert (0 < length ids)%nat by (destruct ids; simpl; [done|lia]).
  unfold exec_set_cook. rewrite makeWhereInVarsForArray_parse by lia.
  replace (1 :: seqZ (1 + 1) (Z.of_nat (length ids)))
    with (seqZ 1 (Z.of_nat (S (length ids)))) by (rewrite (seqZ_cons 1) by lia; f_equal; f_equal; lia).
  rewrite length_cons, length_map, check_params_seqZ by lia.
  pose proof (int_args_seqZ [VInt c] ids) as Hb. simpl in Hb.
  simpl. change (Z.of_nat 1 + 1) with (1 + 1) in Hb. rewrite Hb. reflexivity.
Qed.

Lemma exec_set_null_sent ids t :
  ids <> [] ->
  exec_set_null (makeWhereInVarsForArray (Z.of_nat (length ids)) 0 ++ ")") (map VInt ids) t =
  PgOk [] (assign_tables None ids t).
Proof.
  intros Hne. assert (0 < length ids)%nat by (destruct ids; simpl; [done|lia]).
  unfold exec_set_null. rewrite makeWhereInVarsForArray_parse by lia.
  rewrite length_map, check_params_seqZ by lia.
  pose proof (int_args_seqZ [] ids) as Hb. simpl in Hb.
  change (Z.of_nat 0 + 1) with (0 + 1) in Hb. by rewrite Hb.
Qed.

Lemma pg_exec_add r args t :
  pg_exec (sql_add_prefix ++ r) args t = exec_set_cook r args t.
Proof. unfold pg_exec. rewrite strip_prefix_app. reflexivity. Qed.

Lemma pg_exec_remove r args t :
  pg_exec (sql_remove_prefix ++ r) args t = exec_set_null r args t.
Proof. unfold pg_exec. rewrite strip_prefix_app. reflexivity. Qed.

(** ** The operations on every branch

    [in_time w]: the next round trip goes through a live pool and is
    answered without fault within the ten seconds of [timeoutContext]. *)

Lemma run_timeoutContext {A} (k : Ctx -> prog World A) w :
  pbind timeoutContext k w = k (mkCtx (w_clock w + 10 * Second)) w.
Proof. reflexivity. Qed.

(** C1: addReadingsToCook on a non-empty id list, answered in time,
    assigns exactly those readings to the cook, or returns the foreign-key
    error and leaves the store unchanged when the cook does not exist. *)
Theorem addReadingsToCook_spec ids c w :
  ids <> [] -> in_time w ->
  addReadingsToCook ids c w =
  Ret (if fk_violation ids c (w_db w) then Some fk_error else None)
      (rt_next w (if fk_violation ids c (w_db w) then w_db w
                  else assign_tables (Some c) ids (w_db w))).
Proof.
  intros Hne Ht. unfold addReadingsToCook. rewrite run_timeoutContext.
  rewrite pgx_Exec_answer by exact Ht.
  rewrite pg_exec_add, exec_set_cook_sent by done.
  by destruct (fk_violation ids c (w_db w)).
Qed.

Theorem removeReadingsFromCook_spec ids w :
  ids <> [] -> in_time w ->
  removeReadingsFromCook ids w = Ret None (rt_next w (assign_tables None ids (w_db w))).
Proof.
  intros Hne Ht. unfold removeReadingsFromCook. rewrite run_timeoutContext.
  rewrite pgx_Exec_answer by exact Ht.
  by rewrite pg_exec_remove, exec_set_null_sent by done.
Qed.

(** C22: addReadingsToCook with an empty id list sends the text IN ()
    which the store rejects as a syntax error, and the store is unchanged. *)
Theorem addReadingsToCook_empty c w :
  in_time w -> addReadingsToCook [] c w = Ret (Some syntax_error) (rt_next w (w_db w)).
Proof.
  intros Ht. unfold addReadingsToCook. rewrite run_timeoutContext.
  by rewrite pgx_Exec_answer by exact Ht.
Qed.

Theorem logNewReading_spec r w :
  tables_wf (w_db w) -> in_time w ->
  let id := t_readings_seq (w_db w) + 1 in
  logNewReading r w =
  Ret (Reading.mk id (Reading.Timestamp r) (Reading.Uptime r) (Reading.MeatTemp r)
         (Reading.SmokeTemp r), None)
      (rt_next w (mkTables
         (<[id := mkReadingRow (trunc_us (Reading.Timestamp r)) (Reading.Uptime r)
                    (Reading.MeatTemp r) (Reading.SmokeTemp r) None]> (t_readings (w_db w)))
         (t_cooks (w_db w)) id (t_cooks_seq (w_db w)))).
Proof.
  intros Hwf Ht id. unfold logNewReading. rewrite run_timeoutContext.
  unfold pbind. rewrite pgx_QueryRow_answer by exact Ht.
  pose proof (fresh_reading_id _ Hwf) as Hfresh. fold id in Hfresh.
  unfold pg_exec. simpl. unfold exec_insert_reading. fold id. by rewrite Hfresh.
Qed.

(** createNewCook, answered in time on a well-formed store, inserts
    the cook under the next sequence id with its creation time truncated
    to microseconds, or returns the encoding error for a description with
    a NUL byte. *)
Theorem createNewCook_spec c w :
  tables_wf (w_db w) -> in_time w ->
  let id := t_cooks_seq (w_db w) + 1 in
  createNewCook c w =
  if has_nul (Cook.Description c)
  then Ret (c, Some nul_error) (rt_next w (w_db w))
  else Ret (Cook.mk id (Cook.Created c) (Cook.Description c) (Cook.Readings c), None)
           (rt_next w (mkTables (t_readings (w_db w))
              (<[id := mkCookRow (trunc_us (Cook.Created c)) (Cook.Description c)]>
                 (t_cooks (w_db w)))
              (t_readings_seq (w_db w)) id)).
Proof.
  intros Hwf Ht id. unfold createNewCook. rewrite run_timeoutContext.
  unfold pbind. rewrite pgx_QueryRow_answer by exact Ht.
  pose proof (fresh_cook_id _ Hwf) as Hfresh. fold id in Hfresh.
  unfold pg_exec. simpl. unfold exec_insert_cook.
  destruct (has_nul (Cook.Description c)); [done|]. fold id. by rewrite Hfresh.
Qed.

(** C23: updateCook, answered in time, replaces the description of the
    cook with the given id, returns no error even when no cook has that
    id, and rejects a description with a NUL byte. *)
Theorem updateCook_spec c w :
  in_time w ->
  updateCook c w =
  if has_nul (Cook.Description c)
  then Ret (Some nul_error) (rt_next w (w_db w))
  else Ret None (rt_next w (mkTables (t_readings (w_db w))
              (alter (fun r => mkCookRow (cr_created r) (Cook.Description c))
                 (Cook.Id c) (t_cooks (w_db w)))
              (t_readings_seq (w_db w)) (t_cooks_seq (w_db w)))).
Proof.
  intros Ht. unfold updateCook. rewrite run_timeoutContext.
  rewrite pgx_Exec_answer by exact Ht.
  unfold pg_exec. simpl. unfold exec_update_cook.
  by destruct (has_nul (Cook.Description c)).
Qed.

Lemma pg_exec_cooks_timestamp args t :
  pg_exec (sql_cooks_prefix ++ "timestamp" ++ sql_cooks_suffix) args t =
  PgPrepErr (sql_err "42703" ("column " ++ quote "timestamp" ++ " does not exist")).
Proof. reflexivity. Qed.

Theorem getCooksInRange_never_ok lim off w r w' :
  getCooksInRange lim off w = Ret r w' -> exists e, r = Err e.
Proof.
  intros H. unfold getCooksInRange in H. rewrite run_timeoutContext in H.
  unfold pgx_Query, pbind in H.
  destruct (pgx_roundtrip _ _ _ w) as [[e|res] w1|] eqn:E; try discriminate.
  - invc H. eauto.
  - apply pgx_roundtrip_pg in E. subst res.
    rewrite pg_exec_cooks_timestamp in H. invc H. eauto.
Qed.

Lemma processReadingsRow_values xs :
  processReadingsRow (map reading_values xs) = map row_reading xs.
Proof. unfold processReadingsRow. rewrite map_map. reflexivity. Qed.

Theorem getOrphanReadingsInRange_spec lim off w :
  in_time w ->
  getOrphanReadingsInRange lim off w =
  Ret (Ok (if (off <? 0) || (lim <? 0) then []
           else map row_reading (paginate lim off (sort_desc ts_ge (orphans (w_db w))))))
      (rt_next w (w_db w)).
Proof.
  intros Ht. unfold getOrphanReadingsInRange. rewrite run_timeoutContext.
  unfold pbind. rewrite pgx_Query_answer by exact Ht.
  unfold pg_exec. simpl. unfold exec_orphans, check_limit_offset.
  destruct (off <? 0), (lim <? 0); simpl; by rewrite ?processReadingsRow_values.
Qed.

(** getCookById, answered in time, returns the stored cook with the
    readings that reference it, or the no rows error when the id is not a
    cook, and changes nothing in the store. *)
Theorem getCookById_spec id w :
  in_time w -> answers_before (w_clock w + 10 * Second) (rt_next w (w_db w)) ->
  getCookById id w =
  match t_cooks (w_db w) !! id with
  | None => Ret (Err ErrNoRows) (rt_next w (w_db w))
  | Some r =>
      Ret (Ok (Cook.mk id (cr_created r) (cr_description r)
                 (Some (map row_reading (readings_of id (w_db w))))))
          (rt_next (rt_next w (w_db w)) (w_db w))
  end.
Proof.
  intros Ht1 Ht2. unfold getCookById. rewrite run_timeoutContext.
  unfold pbind at 1. rewrite pgx_QueryRow_answer by exact Ht1.
  assert (pg_exec sql_cook_by_id [VInt id] (w_db w) = exec_cook_by_id [VInt id] (w_db w))
    as -> by reflexivity.
  unfold exec_cook_by_id.
  destruct (t_cooks (w_db w) !! id) as [r|]; cbn [scan_desc_created pg_tables]; [|done].
  unfold pbind. rewrite pgx_Query_answer by exact Ht2.
  change (w_db (rt_next w (w_db w))) with (w_db w).
  assert (pg_exec sql_readings_of_cook [VInt id] (w_db w)
          = exec_readings_of_cook [VInt id] (w_db w)) as -> by reflexivity.
  simpl.
  by rewrite processReadingsRow_values.
Qed.

(** ** Timeouts

    A round trip not answered within the ten seconds of the context
    makes the operation return the timeout error instead of waiting. *)

(** When the store does not answer within the ten seconds of
    timeoutContext, logNewReading returns its argument with the timeout
    error. *)
Lemma logNewReading_timeout r w :
  times_out w -> exists w', logNewReading r w = Ret (r, Some ErrTimeout) w'.
Proof.
  intros [Hp Hl]. unfold logNewReading. rewrite run_timeoutContext. unfold pbind.
  destruct (pgx_QueryRow_timeout (w_clock w + 10 * Second) sql_insert_reading
              [VTime (Reading.Timestamp r); VInt (Reading.Uptime r);
               VFloat (Reading.MeatTemp r); VFloat (Reading.SmokeTemp r)] w Hp)
    as [w' ->]; [lia|eauto].
Qed.

(** A timeout after which the server still commits the insert: the
    reading is stored while the caller gets the timeout error. *)
Lemma logNewReading_late_commit r w resp rest :
  tables_wf (w_db w) -> w_pool w = true -> w_net w = resp :: rest ->
  10 * Second <= sr_latency resp -> sr_late_commit resp = true ->
  let id := t_readings_seq (w_db w) + 1 in
  logNewReading r w =
  Ret (r, Some ErrTimeout)
      (mkWorld (mkTables (<[id := mkReadingRow (trunc_us (Reading.Timestamp r))
                                   (Reading.Uptime r) (Reading.MeatTemp r)
                                   (Reading.SmokeTemp r) None]> (t_readings (w_db w)))
                         (t_cooks (w_db w)) id (t_cooks_seq (w_db w)))
               true (w_clock w + 10 * Second) rest (w_log w)).
Proof.
  intros Hwf Hp Hn Hl Hc id. unfold logNewReading. rewrite run_timeoutContext.
  unfold pbind at 1. unfold pgx_QueryRow, pbind.
  rewrite (pgx_roundtrip_late_commit _ _ _ w resp rest) by (simpl; unfold Second in *; lia || done).
  pose proof (fresh_reading_id _ Hwf) as Hfresh. fold id in Hfresh.
  unfold pg_exec. simpl. unfold exec_insert_reading. fold id. by rewrite Hfresh.
Qed.

Lemma createNewCook_timeout c w :
  times_out w -> exists w', createNewCook c w = Ret (c, Some ErrTimeout) w'.
Proof.
  intros [Hp Hl]. unfold createNewCook. rewrite run_timeoutContext. unfold pbind.
  destruct (pgx_QueryRow_timeout (w_clock w + 10 * Second) sql_insert_cook
              [VText (Cook.Description c); VTime (Cook.Created c)] w Hp)
    as [w' ->]; [lia|eauto].
Qed.

Lemma updateCook_timeout c w :
  times_out w -> exists w', updateCook c w = Ret (Some ErrTimeout) w'.
Proof.
  intros [Hp Hl]. unfold updateCook. rewrite run_timeoutContext.
  apply pgx_Exec_timeout; [done|lia].
Qed.

Lemma addReadingsToCook_timeout ids c w :
  times_out w -> exists w', addReadingsToCook ids c w = Ret (Some ErrTimeout) w'.
Proof.
  intros [Hp Hl]. unfold addReadingsToCook. rewrite run_timeoutContext.
  apply pgx_Exec_timeout; [done|lia].
Qed.

Lemma removeReadingsFromCook_timeout ids w :
  times_out w -> exists w', removeReadingsFromCook ids w = Ret (Some ErrTimeout) w'.
Proof.
  intros [Hp Hl]. unfold removeReadingsFromCook. rewrite run_timeoutContext.
  apply pgx_Exec_timeout; [done|lia].
Qed.

Lemma getOrphanReadingsInRange_timeout lim off w :
  times_out w -> exists w', getOrphanReadingsInRange lim off w = Ret (Err ErrTimeout) w'.
Proof.
  intros [Hp Hl]. unfold getOrphanReadingsInRange. rewrite run_timeoutContext. unfold pbind.
  destruct (pgx_Query_timeout (w_clock w + 10 * Second) sql_orphans
              [VInt lim; VInt off] w Hp) as [w' ->]; [lia|eauto].
Qed.

Lemma getCooksInRange_timeout lim off w :
  times_out w -> exists w', getCooksInRange lim off w = Ret (Err ErrTimeout) w'.
Proof.
  intros [Hp Hl]. unfold getCooksInRange. rewrite run_timeoutContext. unfold pbind.
  destruct (pgx_Query_timeout (w_clock w + 10 * Second)
              (sql_cooks_prefix ++ "timestamp" ++ sql_cooks_suffix)
              [VInt lim; VInt off] w Hp) as [w' ->]; [lia|eauto].
Qed.

Lemma getCookById_timeout id w :
  times_out w -> exists w', getCookById id w = Ret (Err ErrTimeout) w'.
Proof.
  intros [Hp Hl]. unfold getCookById. rewrite run_timeoutContext. unfold pbind.
  destruct (pgx_QueryRow_timeout (w_clock w + 10 * Second) sql_cook_by_id
              [VInt id] w Hp) as [w' ->]; [lia|eauto].
Qed.

(** The two statements of getCookById share one ten second deadline:
    a cook found in time still times out when both round trips together
    take ten seconds or more. *)
Theorem getCookById_shared_deadline id w r :
  in_time w -> t_cooks (w_db w) !! id = Some r ->
  10 * Second <= rt_latency w + rt_latency (rt_next w (w_db w)) ->
  exists w', getCookById id w = Ret (Err ErrTimeout) w'.
Proof.
  intros Ht Hr Hl. unfold getCookById. rewrite run_timeoutContext.
  unfold pbind at 1. rewrite pgx_QueryRow_answer by exact Ht.
  assert (pg_exec sql_cook_by_id [VInt id] (w_db w) = exec_cook_by_id [VInt id] (w_db w))
    as -> by reflexivity.
  unfold exec_cook_by_id. rewrite Hr. cbn [scan_desc_created pg_tables].
  destruct (pgx_Query_timeout (w_clock w + 10 * Second) sql_readings_of_cook [VInt id]
              (rt_next w (w_db w))) as [w' Hq]; [done|simpl; lia|].
  exists w'. unfold pbind. by rewrite Hq.
Qed.

(** ** The page of orphan readings *)

(** C16: getOrphanReadingsInRange with a non-negative limit and offset,
    answered in time, refines the contract of spec section 4.2: its page
    is a slice of an ordering of exactly the orphan readings, newest
    first, and the store is unchanged. *)
Theorem getOrphanReadingsInRange_refines lim off w :
  in_time w -> 0 <= lim -> 0 <= off ->
  exists page,
    getOrphanReadingsInRange lim off w = Ret (Ok page) (rt_next w (w_db w))
    /\ orphan_page_spec (w_db w) lim off page.
Proof.
  intros Ht Hl Ho. rewrite getOrphanReadingsInRange_spec by done.
  destruct (Z.ltb_spec off 0), (Z.ltb_spec lim 0); try lia. simpl.
  eexists. split; [reflexivity|].
  exists (sort_desc ts_ge (orphans (w_db w))). split; [|split].
  - apply merge_sort_Permutation.
  - apply StronglySorted_merge_sort; apply _.
  - reflexivity.
Qed.

(** When no two orphan readings share a timestamp, the newest-first
    order is unique. *)
Lemma orphan_order_unique t L1 L2 :
  (forall x y, x ∈ orphans t -> y ∈ orphans t -> rr_timestamp x.2 = rr_timestamp y.2 -> x = y) ->
  L1 ≡ₚ orphans t -> L2 ≡ₚ orphans t ->
  StronglySorted (fun x y => ts_ge x y = true) L1 ->
  StronglySorted (fun x y => ts_ge x y = true) L2 -> L1 = L2.
Proof.
  intros Hd H1 H2 S1 S2.
  apply (StronglySorted_unique_strong (fun x y => ts_ge x y = true));
    [|done|done|by rewrite H1, H2].
  intros x y Hx Hy Hxy Hyx. unfold ts_ge in *. apply Z.leb_le in Hxy, Hyx.
  apply Hd; [by rewrite <- H1|by rewrite <- H2|lia].
Qed.

(** In a list sorted by strictly decreasing timestamps, a timestamp
    names one element. *)
Lemma strictly_sorted_ts_inj (L : list (Z * ReadingRow)) x y :
  StronglySorted (fun a b => rr_timestamp b.2 < rr_timestamp a.2) L ->
  x ∈ L -> y ∈ L -> rr_timestamp x.2 = rr_timestamp y.2 -> x = y.
Proof.
  induction 1 as [|a L _ IH Ha]; [by intros []%elem_of_nil|].
  rewrite Forall_forall in Ha. rewrite !elem_of_cons.
  intros [->|Hx] [->|Hy] Hxy; auto.
  - specialize (Ha _ Hy). lia.
  - specialize (Ha _ Hx). lia.
Qed.

(** Orphan readings with pairwise distinct timestamps come back in the
    one newest-first order there is. *)
Lemma sort_desc_orphans_exact t L :
  orphans t ≡ₚ L ->
  StronglySorted (fun a b => rr_timestamp b.2 < rr_timestamp a.2) L ->
  sort_desc ts_ge (orphans t) = L.
Proof.
  intros HP HS. apply (orphan_order_unique t).
  - intros x y Hx Hy. rewrite HP in Hx, Hy. by apply (strictly_sorted_ts_inj L).
  - apply merge_sort_Permutation.
  - done.
  - apply StronglySorted_merge_sort; apply _.
  - eapply StronglySorted_weaken; [|exact HS]. intros a b Hab.
    cbv beta in *. unfold ts_ge. apply Z.leb_le. lia.
Qed.

(** The page of orphan readings: sorted by timestamp, newest first. *)
Lemma orphan_page_sorted lim off t :
  StronglySorted (fun a b => Reading.Timestamp b <= Reading.Timestamp a)
    (map row_reading (paginate lim off (sort_desc ts_ge (orphans t)))).
Proof.
  apply (StronglySorted_map_impl (fun x y => ts_ge x y = true)).
  { intros x y H. unfold ts_ge in H. apply Z.leb_le in H. exact H. }
  unfold paginate. apply StronglySorted_take, StronglySorted_drop.
  apply StronglySorted_merge_sort; apply _.
Qed.

Lemma orphan_page_elem lim off t x :
  x ∈ paginate lim off (sort_desc ts_ge (orphans t)) ->
  t_readings t !! x.1 = Some x.2 /\ rr_cook_id x.2 = None.
Proof.
  unfold paginate, sort_desc. intros Hx%elem_of_take_drop.
  rewrite (merge_sort_Permutation _ (orphans t)) in Hx.
  unfold orphans in Hx. apply list_elem_of_filter in Hx as [Hc Hx].
  split; [by apply elem_of_map_to_list'|done].
Qed.

Lemma orphan_page_length lim off t :
  0 <= lim -> 0 <= off ->
  length (paginate lim off (sort_desc ts_ge (orphans t))) =
  Nat.min (Z.to_nat lim) (length (orphans t) - Z.to_nat off).
Proof.
  intros. unfold paginate, sort_desc. rewrite length_take_drop.
  by rewrite (Permutation_length (merge_sort_Permutation _ (orphans t))).
Qed.

(** ** Every operation respects what every round trip respects

    For a preorder [RW] on worlds that every round trip respects, every
    operation of database.go (but [connect], which sets [pool]) respects
    [RW]: with [on_db wf_kept] it keeps the store invariant, with
    [on_db tables_grow] it never deletes a row nor moves a sequence back,
    with [pool_kept] it leaves [pool] as it was. *)

Lemma respects_connect (R : relation Tables) `{!PreOrder R} b : respects (on_db R) (connect b).
Proof. intros w. unfold on_db. simpl. reflexivity. Qed.

Section Respects.
Context (RW : relation World) `{!PreOrder RW}.
Hypothesis RW_rt : forall ctx sql args, respects RW (pgx_roundtrip ctx sql args).
#[local] Hint Resolve RW_rt : grill.

Lemma respects_timeoutContext : respects RW timeoutContext.
Proof. intros w. simpl. reflexivity. Qed.
#[local] Hint Resolve respects_timeoutContext : grill.

Ltac respects_op := intros; unfold logNewReading, createNewCook, updateCook,
  addReadingsToCook, removeReadingsFromCook, getOrphanReadingsInRange, getCooksInRange,
  getCookById; solve_respects.

Lemma respects_logNewReading r : respects RW (logNewReading r).
Proof. respects_op. Qed.
Lemma respects_createNewCook c : respects RW (createNewCook c).
Proof. respects_op. Qed.
Lemma respects_updateCook c : respects RW (updateCook c).
Proof. respects_op. Qed.
Lemma respects_addReadingsToCook ids c : respects RW (addReadingsToCook ids c).
Proof. respects_op. Qed.
Lemma respects_removeReadingsFromCook ids : respects RW (removeReadingsFromCook ids).
Proof. respects_op. Qed.
Lemma respects_getOrphanReadingsInRange l o : respects RW (getOrphanReadingsInRange l o).
Proof. respects_op. Qed.
Lemma respects_getCooksInRange l o : respects RW (getCooksInRange l o).
Proof. respects_op. Qed.
Lemma respects_getCookById id : respects RW (getCookById id).
Proof. respects_op. Qed.

End Respects.

#[export] Hint Resolve respects_connect respects_logNewReading respects_createNewCook
  respects_updateCook respects_addReadingsToCook respects_removeReadingsFromCook
  respects_getOrphanReadingsInRange respects_getCooksInRange respects_getCookById : grill.

(** ** The statements the bulk updates send *)

(** The statement addReadingsToCook sends for a non-empty id list
    binds the cook id to $1 and exactly the given reading ids to the IN
    list, so the store sets cook_id of exactly those readings (or refuses
    the whole statement when the cook does not exist). *)
Lemma addReadingsToCook_statement ids c t :
  ids <> [] ->
  pg_exec (sql_add_prefix ++ makeWhereInVarsForArray (Z.of_nat (length ids)) 1 ++ ")")
    (VInt c :: map VInt ids) t =
  if fk_violation ids c t then PgExecErr fk_error
  else PgOk [] (assign_tables (Some c) ids t).
Proof. intros Hne. rewrite pg_exec_add. by apply exec_set_cook_sent. Qed.

(** The statement removeReadingsFromCook sends for a non-empty id
    list binds exactly the given reading ids to the IN list, so the store
    clears cook_id of exactly those readings. *)
Theorem removeReadingsFromCook_statement ids t :
  ids <> [] ->
  pg_exec (sql_remove_prefix ++ makeWhereInVarsForArray (Z.of_nat (length ids)) 0 ++ ")")
    (map VInt ids) t =
  PgOk [] (assign_tables None ids t).
Proof. intros Hne. rewrite pg_exec_remove. by apply exec_set_null_sent. Qed.

(** C20: Removing the same readings from their cooks twice succeeds both
    times and the second removal leaves the store as the first one left
    it. *)
Theorem removeReadingsFromCook_idempotent ids w :
  ids <> [] -> in_time w -> in_time (rt_next w (assign_tables None ids (w_db w))) ->
  exists w1 w2,
    removeReadingsFromCook ids w = Ret None w1
    /\ removeReadingsFromCook ids w1 = Ret None w2
    /\ w_db w2 = w_db w1.
Proof.
  intros Hne Ht1 Ht2. eexists _, _. split; [by apply removeReadingsFromCook_spec|].
  split; [by apply removeReadingsFromCook_spec|]. simpl. apply assign_tables_idem.
Qed.

(** ** Witnesses: the claims at concrete stores and worlds *)

Lemma addReadingsToCook_spec_witness :
  addReadingsToCook [1] 1 demo_world =
  Ret (if fk_violation [1] 1 (w_db demo_world) then Some fk_error else None)
      (rt_next demo_world (if fk_violation [1] 1 (w_db demo_world) then w_db demo_world
                           else assign_tables (Some 1) [1] (w_db demo_world))).
Proof.
  apply addReadingsToCook_spec; [discriminate|].
  split; [reflexivity|split; [vm_compute; reflexivity|reflexivity]].
Defined.

Lemma addReadingsToCook_empty_witness :
  addReadingsToCook [] 1 demo_world = Ret (Some syntax_error) (rt_next demo_world (w_db demo_world)).
Proof.
  apply addReadingsToCook_empty.
  split; [reflexivity|split; [vm_compute; reflexivity|reflexivity]].
Defined.

Lemma removeReadingsFromCook_idempotent_witness :
  exists w1 w2,
    removeReadingsFromCook [2] demo_world = Ret None w1
    /\ removeReadingsFromCook [2] w1 = Ret None w2 /\ w_db w2 = w_db w1.
Proof.
  apply removeReadingsFromCook_idempotent; [discriminate| |];
    (split; [reflexivity|split; [vm_compute; reflexivity|reflexivity]]).
Defined.

Lemma updateCook_spec_witness :
  updateCook (Cook.mk 9 0 "Pork shoulder" None) demo_world =
  if has_nul (Cook.Description (Cook.mk 9 0 "Pork shoulder" None))
  then Ret (Some nul_error) (rt_next demo_world (w_db demo_world))
  else Ret None (rt_next demo_world (mkTables (t_readings (w_db demo_world))
              (alter (fun r => mkCookRow (cr_created r) (Cook.Description (Cook.mk 9 0 "Pork shoulder" None)))
                 (Cook.Id (Cook.mk 9 0 "Pork shoulder" None)) (t_cooks (w_db demo_world)))
              (t_readings_seq (w_db demo_world)) (t_cooks_seq (w_db demo_world)))).
Proof.
  apply updateCook_spec.
  split; [reflexivity|split; [vm_compute; reflexivity|reflexivity]].
Defined.

Lemma getOrphanReadingsInRange_refines_witness :
  exists page,
    getOrphanReadingsInRange 20 0 demo_world = Ret (Ok page) (rt_next demo_world (w_db demo_world))
    /\ orphan_page_spec (w_db demo_world) 20 0 page.
Proof.
  apply getOrphanReadingsInRange_refines; [|lia|lia].
  split; [reflexivity|split; [vm_compute; reflexivity|reflexivity]].
Defined.
