(* ===== verification/Api.v ===== *)
(** * api.go: the handlers and the route table

    A request carries its method, path, query parameters, the path
    variables the router extracted ([mux.Vars]) and its body.  The body is
    given by what the code can observe of it: whether [ioutil.ReadAll]
    failed and what [json.Unmarshal] yields into each of the three struct
    types the handlers decode (encoding/json itself is not modelled).

    Each handler of src/server/api.go is a [prog World Response]: the
    early returns after [errorResponse] are the branches of a match, the
    store calls are the operations of [Database], and [time.Now().UTC()]
    reads the world's clock.  [jsonResponse], [errorResponse] and
    [getLimitOffset] are not in src/; they are modelled from spec
    section 4.3 (status 200 for [jsonResponse], 500 with the message
    envelope for [errorResponse], defaults limit=20 and offset=0).

    The route table of [runHttpServer] is [routes]; [dispatch] is
    gorilla/mux's matching (first route whose path and method match; 405
    when only the path matches; 404 otherwise), and [serve] runs the
    handler a request is dispatched to. *)

From S2P Require Import Prelude GoStrconv Types Store Database.
From Stdlib Require Import Ascii PrimFloat.

(** ** Requests and responses *)

Record RequestBody := mkRequestBody {
  read_err : option GoError;                       (** [ioutil.ReadAll] *)
  as_reading : result Reading.t GoError;           (** [json.Unmarshal] into [Reading] *)
  as_cook : result Cook.t GoError;                 (** into [Cook] *)
  as_update : result CookReadingUpdate.t GoError;  (** into [CookReadingUpdate] *)
}.

Record Request := mkRequest {
  req_method : string;
  req_path : string;
  req_query : list (string * string);
  req_vars : list (string * string);
  req_body : RequestBody;
}.

Inductive Payload :=
| PMessage (m : Message.t)
| PReading (r : Reading.t)
| PReadings (rs : list Reading.t)
| PCook (c : Cook.t)
| PCooks (cs : list Cook.t)
| PText (s : string).

Record Response := mkResponse {
  resp_status : Z;
  resp_body : Payload;
}.

Definition is_success (r : Response) : bool :=
  (200 <=? resp_status r) && (resp_status r <? 300).

(** [jsonResponse(w, v)] *)
Definition jsonResponse (p : Payload) : Response := mkResponse 200 p.

(** [errorResponse(w, err)]: the message envelope with [err.Error()]. *)
Definition errorResponse (e : GoError) : Response :=
  mkResponse 500 (PMessage (Message.mk true (Error e))).

(** [mux.Vars(req)[k]]: the empty string when the variable is absent. *)
Definition var (req : Request) (k : string) : string :=
  match List.find (fun kv => String.eqb kv.1 k) (req_vars req) with
  | Some kv => kv.2
  | None => ""
  end.

(** [req.URL.Query().Get(k)]. *)
Definition query_get (req : Request) (k : string) : string :=
  match List.find (fun kv => String.eqb kv.1 k) (req_query req) with
  | Some kv => kv.2
  | None => ""
  end.

(** [getLimitOffset(req)]: an absent parameter takes its default, a
    present one must parse as an int. *)
Definition int_param (s : string) (default : Z) : result Z GoError :=
  if String.eqb s "" then Ok default
  else match Atoi s with Ok n => Ok n | Err e => Err (ErrAtoi e) end.

Definition getLimitOffset (req : Request) : result (Z * Z) GoError :=
  match int_param (query_get req "limit") 20 with
  | Err e => Err e
  | Ok limit =>
      match int_param (query_get req "offset") 0 with
      | Err e => Err e
      | Ok offset => Ok (limit, offset)
      end
  end.

(** [time.Now().UTC()] *)
Definition now_utc : prog World time := fun w => Ret (w_clock w) w.

(** ** The handlers *)

Definition getStatus (req : Request) : prog World Response :=
  pret (jsonResponse (PMessage (Message.mk false "ok"))).

Definition postReading (req : Request) : prog World Response :=
  match read_err (req_body req) with
  | Some e => pret (errorResponse e)
  | None =>
      match as_reading (req_body req) with
      | Err e => pret (errorResponse e)
      | Ok reading =>
          do now <- now_utc ;
          let reading := Reading.mk (Reading.Id reading) now (Reading.Uptime reading)
                           (Reading.MeatTemp reading) (Reading.SmokeTemp reading) in
          do res <- logNewReading reading ;
          match res with
          | (_, Some e) => pret (errorResponse e)
          | (reading, None) => pret (jsonResponse (PReading reading))
          end
      end
  end.

Definition getReadings (req : Request) : prog World Response :=
  match getLimitOffset req with
  | Err e => pret (errorResponse e)
  | Ok (limit, offset) =>
      do res <- getOrphanReadingsInRange limit offset ;
      match res with
      | Err e => pret (errorResponse e)
      | Ok readings => pret (jsonResponse (PReadings readings))
      end
  end.

Definition saveCook (req : Request) : prog World Response :=
  match read_err (req_body req) with
  | Some e => pret (errorResponse e)
  | None =>
      match as_cook (req_body req) with
      | Err e => pret (errorResponse e)
      | Ok cook =>
          if String.eqb (req_method req) "POST" then
            do now <- now_utc ;
            let cook := Cook.mk (Cook.Id cook) now (Cook.Description cook) (Cook.Readings cook) in
            do res <- createNewCook cook ;
            match res with
            | (_, Some e) => pret (errorResponse e)
            | (cook, None) => pret (jsonResponse (PCook cook))
            end
          else if String.eqb (req_method req) "PUT" then
            match Atoi (var req "id") with
            | Err e => pret (errorResponse (ErrAtoi e))
            | Ok id =>
                if negb (id =? Cook.Id cook) then pret (errorResponse ErrIdMismatch)
                else
                  do err <- updateCook cook ;
                  match err with
                  | Some e => pret (errorResponse e)
                  | None => pret (jsonResponse (PCook cook))
                  end
            end
          else pret (errorResponse ErrBadMethod)
      end
  end.

Definition getCooks (req : Request) : prog World Response :=
  match getLimitOffset req with
  | Err e => pret (errorResponse e)
  | Ok (limit, offset) =>
      do res <- getCooksInRange limit offset ;
      match res with
      | Err e => pret (errorResponse e)
      | Ok cooks => pret (jsonResponse (PCooks cooks))
      end
  end.

Definition getCook (req : Request) : prog World Response :=
  match Atoi (var req "id") with
  | Err e => pret (errorResponse (ErrAtoi e))
  | Ok id =>
      do res <- getCookById id ;
      match res with
      | Err e => pret (errorResponse e)
      | Ok cook => pret (jsonResponse (PCook cook))
      end
  end.

Definition updateCookReadings (req : Request) : prog World Response :=
  match Atoi (var req "id") with
  | Err e => pret (errorResponse (ErrAtoi e))
  | Ok id =>
      match read_err (req_body req) with
      | Some e => pret (errorResponse e)
      | None =>
          match as_update (req_body req) with
          | Err e => pret (errorResponse e)
          | Ok update =>
              do err1 <- (if (0 <? length (CookReadingUpdate.Add update))%nat
                          then addReadingsToCook (CookReadingUpdate.Add update) id
                          else pret None) ;
              match err1 with
              | Some e => pret (errorResponse e)
              | None =>
                  do err2 <- (if (0 <? length (CookReadingUpdate.Remove update))%nat
                              then removeReadingsFromCook (CookReadingUpdate.Remove update)
                              else pret None) ;
                  match err2 with
                  | Some e => pret (errorResponse e)
                  | None => pret (jsonResponse (PMessage (Message.mk false "ok")))
                  end
              end
          end
      end
  end.

(** ** The route table of [runHttpServer] and gorilla/mux's dispatch *)

Inductive Handler :=
| HgetStatus | HpostReading | HgetReadings | HsaveCook | HgetCooks | HgetCook
| HupdateCookReadings.

Definition run_handler (h : Handler) : Request -> prog World Response :=
  match h with
  | HgetStatus => getStatus
  | HpostReading => postReading
  | HgetReadings => getReadings
  | HsaveCook => saveCook
  | HgetCooks => getCooks
  | HgetCook => getCook
  | HupdateCookReadings => updateCookReadings
  end.

(** A path template segment: a literal or a [{name}] variable, which
    matches one non-empty segment. *)
Inductive Seg := Lit (s : string) | PVar (name : string).

Record Route := mkRoute {
  route_path : list Seg;
  route_methods : option (list string);   (** [None]: no [.Methods(...)] *)
  route_handler : Handler;
}.

(** [r.HandleFunc(...)] in the order of [runHttpServer]. *)
Definition routes : list Route :=
  [ mkRoute [Lit "api"] None HgetStatus;
    mkRoute [Lit "api"; Lit "reading"] (Some ["POST"]) HpostReading;
    mkRoute [Lit "api"; Lit "reading"] (Some ["GET"]) HgetReadings;
    mkRoute [Lit "api"; Lit "cook"] (Some ["POST"]) HsaveCook;
    mkRoute [Lit "api"; Lit "cook"] (Some ["GET"]) HgetCooks;
    mkRoute [Lit "api"; Lit "cook"; PVar "id"] (Some ["GET"]) HgetCook;
    mkRoute [Lit "api"; Lit "cook"; PVar "id"] (Some ["PUT"]) HsaveCook;
    mkRoute [Lit "api"; Lit "cook"; PVar "id"; Lit "readings"] (Some ["PUT"])
      HupdateCookReadings ].

Fixpoint split_slash (s : string) : list string :=
  match s with
  | EmptyString => [""]
  | String c r =>
      if Ascii.eqb c "/"%char then "" :: split_slash r
      else match split_slash r with
           | x :: xs => String c x :: xs
           | [] => [String c ""]
           end
  end.

(** The segments of an absolute path. *)
Definition path_segments (p : string) : option (list string) :=
  match p with
  | String c r => if Ascii.eqb c "/"%char then Some (split_slash r) else None
  | EmptyString => None
  end.

Fixpoint match_segs (pat : list Seg) (segs : list string)
  : option (list (string * string)) :=
  match pat, segs with
  | [], [] => Some []
  | Lit a :: pat', s :: segs' =>
      if String.eqb a s then match_segs pat' segs' else None
  | PVar n :: pat', s :: segs' =>
      if String.eqb s "" then None
      else option_map (cons (n, s)) (match_segs pat' segs')
  | _, _ => None
  end.

Definition method_ok (r : Route) (m : string) : bool :=
  match route_methods r with
  | None => true
  | Some ms => existsb (String.eqb m) ms
  end.

Inductive Dispatch :=
| Matched (h : Handler) (vars : list (string * string))
| MethodNotAllowed
| NotFound.

Fixpoint dispatch (rs : list Route) (m : string) (segs : list string) (mismatch : bool)
  : Dispatch :=
  match rs with
  | [] => if mismatch then MethodNotAllowed else NotFound
  | r :: rs' =>
      match match_segs (route_path r) segs with
      | Some vars =>
          if method_ok r m then Matched (route_handler r) vars
          else dispatch rs' m segs true
      | None => dispatch rs' m segs mismatch
      end
  end.

Definition with_vars (req : Request) (vars : list (string * string)) : Request :=
  mkRequest (req_method req) (req_path req) (req_query req) vars (req_body req).

Definition not_found : Response :=
  mkResponse 404 (PText ("404 page not found" ++ String (Ascii.ascii_of_nat 10) "")).

Definition method_not_allowed : Response := mkResponse 405 (PText "").

(** One request through the router. *)
Definition serve (req : Request) : prog World Response :=
  match path_segments (req_path req) with
  | None => pret not_found
  | Some segs =>
      match dispatch routes (req_method req) segs false with
      | Matched h vars => run_handler h (with_vars req vars)
      | MethodNotAllowed => pret method_not_allowed
      | NotFound => pret not_found
      end
  end.

(** ** Theorems *)

Definition ok_message : Response := jsonResponse (PMessage (Message.mk false "ok")).

(** Requests used to instantiate the theorems. *)
Definition no_body : RequestBody :=
  mkRequestBody None (Err (ErrJSON "unexpected end of JSON input"))
    (Err (ErrJSON "unexpected end of JSON input"))
    (Err (ErrJSON "unexpected end of JSON input")).
Definition demo_get_status : Request := mkRequest "GET" "/api" [] [] no_body.
Definition demo_post_reading : Request :=
  mkRequest "POST" "/api/reading" [] []
    (mkRequestBody None (Ok (Reading.mk 0 0 5 75.5%float 225%float))
       (Err (ErrJSON "json: cannot unmarshal")) (Err (ErrJSON "json: cannot unmarshal"))).
Definition demo_get_readings (limit : string) : Request :=
  mkRequest "GET" "/api/reading" [("limit", limit)] [] no_body.
Definition demo_put_cook : Request :=
  mkRequest "PUT" "/api/cook/2" [] [("id", "2")]
    (mkRequestBody None (Err (ErrJSON "json: cannot unmarshal"))
       (Ok (Cook.mk 3 0 "Brisket #2" None)) (Err (ErrJSON "json: cannot unmarshal"))).
Definition demo_get_cooks : Request := mkRequest "GET" "/api/cook" [] [] no_body.
Definition demo_get_cook : Request := mkRequest "GET" "/api/cook/1" [] [("id", "1")] no_body.
Definition demo_empty_update : Request :=
  mkRequest "PUT" "/api/cook/1/readings" [] [("id", "1")]
    (mkRequestBody None (Err (ErrJSON "json: cannot unmarshal"))
       (Err (ErrJSON "json: cannot unmarshal")) (Ok (CookReadingUpdate.mk [] []))).

(** C19: Every request to /api, whatever its method, answers the ok status
    message and leaves the world unchanged. *)
Theorem serve_status_ok req w :
  path_segments (req_path req) = Some ["api"] ->
  serve req w = Ret ok_message w.
Proof. intros H. unfold serve. rewrite H. reflexivity. Qed.

Lemma dispatch_route rs m segs b h vars :
  dispatch rs m segs b = Matched h vars ->
  exists r, r ∈ rs /\ route_handler r = h /\ method_ok r m = true.
Proof.
  revert b; induction rs as [|r rs IH]; intros b; simpl.
  - by destruct b.
  - destruct (match_segs (route_path r) segs).
    + destruct (method_ok r m) eqn:Hm.
      * intros [= <- _]. exists r. split; [constructor|done].
      * intros H. destruct (IH _ H) as (r' & ? & ? & ?). exists r'. split; [by constructor|done].
    + intros H. destruct (IH _ H) as (r' & ? & ? & ?). exists r'. split; [by constructor|done].
Qed.

(** The route table sends only POST and PUT requests to saveCook, so
    its bad method branch is unreachable. *)
Theorem dispatch_saveCook_method m segs vars :
  dispatch routes m segs false = Matched HsaveCook vars -> m = "POST" \/ m = "PUT".
Proof.
  intros H. destruct (dispatch_route _ _ _ _ _ _ H) as (r & Hr & Hh & Hm).
  apply list_elem_of_In in Hr. simpl in Hr.
  repeat destruct Hr as [<-|Hr]; try done; simpl in Hh; try discriminate;
    unfold method_ok in Hm; simpl in Hm; apply orb_true_iff in Hm as [Hm|Hm];
    try discriminate; apply String.eqb_eq in Hm; auto.
Qed.

(** C10: PUT /api/cook/{id} whose body carries a different id answers the
    id mismatch error and touches neither the store nor the network. *)
Theorem saveCook_put_mismatch req n cook w :
  req_method req = "PUT" -> var req "id" = fmt_d n -> in_int64 n ->
  read_err (req_body req) = None -> as_cook (req_body req) = Ok cook ->
  Cook.Id cook <> n ->
  saveCook req w = Ret (errorResponse ErrIdMismatch) w.
Proof.
  intros Hm Hv Hn Hr Hc Hne. unfold saveCook. rewrite Hr, Hc, Hm. simpl.
  rewrite Hv, Atoi_fmt_d by done.
  destruct (Z.eqb_spec n (Cook.Id cook)); [congruence|reflexivity].
Qed.

(** C11: PUT /api/cook/{id}/readings with empty add and remove lists
    answers ok without sending any statement. *)
Theorem updateCookReadings_empty req n w :
  var req "id" = fmt_d n -> in_int64 n -> read_err (req_body req) = None ->
  as_update (req_body req) = Ok (CookReadingUpdate.mk [] []) ->
  updateCookReadings req w = Ret ok_message w.
Proof.
  intros Hv Hn Hr Hu. unfold updateCookReadings.
  rewrite Hv, Atoi_fmt_d, Hr, Hu by done. reflexivity.
Qed.

Lemma run_now_utc {A} (k : time -> prog World A) w :
  pbind now_utc k w = k (w_clock w) w.
Proof. reflexivity. Qed.

(** C4: POST /api/reading with a decodable body stores a new reading under
    a fresh positive id, stamped with the server clock (truncated to
    microseconds in the store), and answers it with that id and the
    untruncated server time. *)
Theorem postReading_spec req r w :
  tables_wf (w_db w) -> in_time w ->
  read_err (req_body req) = None -> as_reading (req_body req) = Ok r ->
  let id := t_readings_seq (w_db w) + 1 in
  exists w',
    postReading req w =
      Ret (jsonResponse (PReading (Reading.mk id (w_clock w) (Reading.Uptime r)
                                    (Reading.MeatTemp r) (Reading.SmokeTemp r)))) w'
    /\ 0 < id
    /\ t_readings (w_db w') !! id =
         Some (mkReadingRow (trunc_us (w_clock w)) (Reading.Uptime r)
                 (Reading.MeatTemp r) (Reading.SmokeTemp r) None).
Proof.
  intros Hwf Ht Hr Hb id. unfold postReading. rewrite Hr, Hb.
  rewrite run_now_utc. unfold pbind.
  rewrite logNewReading_spec by done. simpl.
  eexists. split; [reflexivity|]. split.
  - pose proof (wf_seq_r _ Hwf). unfold id. lia.
  - simpl. apply lookup_insert_eq.
Qed.

(** C21: GET /api/cook never answers a success status: the query orders by
    a column that does not exist in the cooks table. *)
Theorem getCooks_never_success req w resp w' :
  getCooks req w = Ret resp w' -> is_success resp = false.
Proof.
  unfold getCooks. destruct (getLimitOffset req) as [[l o]|e].
  - unfold pbind. destruct (getCooksInRange l o w) as [r w1|] eqn:E; [|done].
    destruct (getCooksInRange_never_ok _ _ _ _ _ E) as [e ->]. by intros [= <- _].
  - by intros [= <- _].
Qed.

(** C25: After a failed connect the pool is nil and GET /api/cook/{id}
    panics instead of answering an error. *)
Theorem getCook_nil_pool req n w :
  w_pool w = false -> var req "id" = fmt_d n -> in_int64 n ->
  getCook req w = Crash w.
Proof.
  intros Hp Hv Hn. unfold getCook. rewrite Hv, Atoi_fmt_d by done.
  unfold getCookById, pbind, pgx_QueryRow, pbind. simpl.
  by rewrite pgx_roundtrip_nil_pool.
Qed.

(** C5: GET /api/reading with limit l >= 0 and offset o >= 0 answers at
    most l readings, each an orphan reading of the store with its stored
    timestamp, newest first. *)
Theorem getReadings_page req l o w :
  getLimitOffset req = Ok (l, o) -> 0 <= l -> 0 <= o -> in_time w ->
  exists rs,
    getReadings req w = Ret (jsonResponse (PReadings rs)) (rt_next w (w_db w))
    /\ length rs = Nat.min (Z.to_nat l) (length (orphans (w_db w)) - Z.to_nat o)
    /\ Forall (fun r => exists row, t_readings (w_db w) !! Reading.Id r = Some row
                         /\ rr_cook_id row = None
                         /\ rr_timestamp row = Reading.Timestamp r) rs
    /\ StronglySorted (fun a b => Reading.Timestamp b <= Reading.Timestamp a) rs.
Proof.
  intros Hlo Hl Ho Ht. unfold getReadings. rewrite Hlo. unfold pbind.
  rewrite getOrphanReadingsInRange_spec by done.
  destruct (Z.ltb_spec o 0), (Z.ltb_spec l 0); try lia. simpl.
  eexists. split; [reflexivity|]. split; [|split].
  - by rewrite length_map, orphan_page_length.
  - apply Forall_forall. intros r Hr. apply list_elem_of_fmap in Hr as (x & -> & Hx).
    destruct (orphan_page_elem _ _ _ _ Hx). by exists x.2.
  - apply orphan_page_sorted.
Qed.

(** ** Serving a request respects what every round trip respects *)

Section Respects.
Context (RW : relation World) `{!PreOrder RW}.
Hypothesis RW_rt : forall ctx sql args, respects RW (pgx_roundtrip ctx sql args).
#[local] Hint Resolve RW_rt : grill.

Lemma respects_now_utc : respects RW now_utc.
Proof. intros w. simpl. reflexivity. Qed.
#[local] Hint Resolve respects_now_utc : grill.

Lemma respects_run_handler h req : respects RW (run_handler h req).
Proof.
  destruct h; simpl; unfold getStatus, postReading, getReadings, saveCook, getCooks,
    getCook, updateCookReadings; solve_respects.
Qed.

Lemma respects_serve req : respects RW (serve req).
Proof.
  unfold serve. repeat case_match; eauto using respects_run_handler with grill.
Qed.

End Respects.

#[export] Hint Resolve respects_serve : grill.

(** C26: GET /api/reading with a negative limit answers an empty page with
    a success status, because the store error only ends the rows and
    rows.Err() is not consulted. *)
Theorem getReadings_negative_limit req l o w :
  getLimitOffset req = Ok (l, o) -> l < 0 -> in_time w ->
  getReadings req w = Ret (jsonResponse (PReadings [])) (rt_next w (w_db w)).
Proof.
  intros Hlo Hl Ht. unfold getReadings. rewrite Hlo. unfold pbind.
  rewrite getOrphanReadingsInRange_spec by done.
  destruct (Z.ltb_spec l 0); [|lia]. by rewrite orb_true_r.
Qed.

(** ** Witnesses: the claims on concrete requests *)

Lemma serve_status_ok_witness : serve demo_get_status demo_world = Ret ok_message demo_world.
Proof. apply serve_status_ok. reflexivity. Defined.

Lemma saveCook_put_mismatch_witness :
  saveCook demo_put_cook demo_world = Ret (errorResponse ErrIdMismatch) demo_world.
Proof.
  apply (saveCook_put_mismatch demo_put_cook 2 (Cook.mk 3 0 "Brisket #2" None));
    first [reflexivity | vm_compute; discriminate | split; vm_compute; congruence].
Defined.

Lemma updateCookReadings_empty_witness :
  updateCookReadings demo_empty_update demo_world = Ret ok_message demo_world.
Proof. apply (updateCookReadings_empty _ 1); first [reflexivity | split; vm_compute; congruence]. Defined.

Lemma postReading_spec_witness :
  exists w',
    postReading demo_post_reading demo_world =
      Ret (jsonResponse (PReading (Reading.mk 3 1000000 5 75.5%float 225%float))) w'
    /\ 0 < 3
    /\ t_readings (w_db w') !! 3 =
         Some (mkReadingRow (trunc_us 1000000) 5 75.5%float 225%float None).
Proof.
  apply (postReading_spec demo_post_reading (Reading.mk 0 0 5 75.5%float 225%float) demo_world).
  - apply tables_wfb_sound. vm_compute. reflexivity.
  - split; [reflexivity|split; [vm_compute; reflexivity|reflexivity]].
  - reflexivity.
  - reflexivity.
Defined.

Lemma getCooks_never_success_witness :
  is_success (errorResponse (ErrPg "42703" ("column " ++ quote "timestamp" ++ " does not exist"))) = false.
Proof.
  apply (getCooks_never_success demo_get_cooks demo_world _ (rt_next demo_world (w_db demo_world))).
  vm_compute. reflexivity.
Defined.

Lemma getCook_nil_pool_witness : getCook demo_get_cook demo_world_nil_pool = Crash demo_world_nil_pool.
Proof. apply (getCook_nil_pool _ 1); first [reflexivity | split; vm_compute; congruence]. Defined.

Lemma getReadings_page_witness :
  exists rs,
    getReadings (demo_get_readings "2") demo_world
      = Ret (jsonResponse (PReadings rs)) (rt_next demo_world (w_db demo_world))
    /\ length rs = Nat.min (Z.to_nat 2) (length (orphans (w_db demo_world)) - Z.to_nat 0)
    /\ Forall (fun r => exists row, t_readings (w_db demo_world) !! Reading.Id r = Some row
                         /\ rr_cook_id row = None
                         /\ rr_timestamp row = Reading.Timestamp r) rs
    /\ StronglySorted (fun a b => Reading.Timestamp b <= Reading.Timestamp a) rs.
Proof.
  apply getReadings_page; first [reflexivity | lia | split; [reflexivity|split; [vm_compute; reflexivity|reflexivity]]].
Defined.

Lemma getReadings_negative_limit_witness :
  getReadings (demo_get_readings "-1") demo_world
  = Ret (jsonResponse (PReadings [])) (rt_next demo_world (w_db demo_world)).
Proof.
  apply (getReadings_negative_limit _ (-1) 0); first [reflexivity | lia | split; [reflexivity|split; [vm_compute; reflexivity|reflexivity]]].
Defined.
