(* ===== verification/Liveness.v ===== *)
(** * Every request is answered, within two store deadlines

    Spec section 5: a request waits only at its store round trips, each
    bounded by the 10 s of [timeoutContext]; there is no end-to-end
    request timeout.  This file shows what that gives: with a live pool
    every operation of database.go returns (no panic) within 10 s of
    server time, every handler of api.go within the sum of the deadlines
    of the operations it calls, and so [serve] answers every request
    within 20 s ([updateCookReadings] makes two store calls, each with a
    fresh context).

    - [before D m]: with a live pool [m] returns, keeps the pool, and its
      clock does not go back nor past [D] (or the start, if later): what
      round trips under a context with deadline [D] do.
    - [answers d m]: with a live pool [m] returns, keeps the pool, and
      takes at most [d] of server time.  [answers_bind] adds the budgets
      of a sequence. *)

From S2P Require Import Prelude GoStrconv Types Store Database Api.

Definition before (D : time) {A} (m : prog World A) : Prop :=
  forall w, w_pool w = true -> exists a w', m w = Ret a w' /\ w_pool w' = true /\
    w_clock w <= w_clock w' <= Z.max (w_clock w) D.

Definition answers (d : Z) {A} (m : prog World A) : Prop :=
  forall w, w_pool w = true -> exists a w', m w = Ret a w' /\ w_pool w' = true /\
    w_clock w <= w_clock w' <= w_clock w + d.

(** ** Round trips under a deadline *)

Local Ltac fin := eexists _, _; split; [reflexivity|split; simpl; [done|lia]].

Section Before.
Context (D : time).

Lemma before_pret {A} (a : A) : before D (pret a).
Proof. intros w Hp. exists a, w. repeat split; [done|lia|lia]. Qed.

Lemma before_bind {A B} (m : prog World A) (k : A -> prog World B) :
  before D m -> (forall x, before D (k x)) -> before D (pbind m k).
Proof.
  intros Hm Hk w Hp. destruct (Hm w Hp) as (a & w1 & E1 & Hp1 & Hc1).
  destruct (Hk a w1 Hp1) as (b & w2 & E2 & Hp2 & Hc2).
  exists b, w2. unfold pbind. rewrite E1. repeat split; [done|done|lia|lia].
Qed.

Lemma before_roundtrip ctx sql args :
  ctx_deadline ctx <= D -> before D (pgx_roundtrip ctx sql args).
Proof.
  intros HD w Hp. unfold pgx_roundtrip. rewrite Hp. simpl.
  destruct (Z.leb_spec (ctx_deadline ctx) (w_clock w)); [fin|].
  destruct (match w_net w with [] => _ | _ => _ end) as [r net'].
  destruct (Z.leb_spec (ctx_deadline ctx) (w_clock w + Z.max 0 (sr_latency r))); [fin|].
  destruct (sr_fault r); fin.
Qed.

End Before.

Ltac solve_before :=
  repeat first
    [ apply before_bind; [|intros ?]
    | apply before_pret
    | apply before_roundtrip; simpl; lia
    | progress unfold pgx_QueryRow, pgx_Query, pgx_Exec
    | case_match ].

(** ** Budgets of sequences *)

Lemma answers_pret {A} d (a : A) : 0 <= d -> answers d (pret a).
Proof. intros Hd w Hp. exists a, w. repeat split; [done|lia|lia]. Qed.

Lemma answers_bind {A B} d1 d (m : prog World A) (k : A -> prog World B) :
  answers d1 m -> (forall x, answers (d - d1) (k x)) -> answers d (pbind m k).
Proof.
  intros Hm Hk w Hp. destruct (Hm w Hp) as (a & w1 & E1 & Hp1 & Hc1).
  destruct (Hk a w1 Hp1) as (b & w2 & E2 & Hp2 & Hc2).
  exists b, w2. unfold pbind. rewrite E1. repeat split; [done|done|lia|lia].
Qed.

Lemma answers_weaken {A} d d' (m : prog World A) : answers d m -> d <= d' -> answers d' m.
Proof.
  intros Hm Hd w Hp. destruct (Hm w Hp) as (a & w' & E & Hp' & Hc).
  exists a, w'. repeat split; [done|done|lia|lia].
Qed.

(** An operation: a fresh 10 s context, then round trips under it. *)
Lemma answers_timeout {A} (body : Ctx -> prog World A) :
  (forall ctx, before (ctx_deadline ctx) (body ctx)) ->
  answers (10 * Second) (pbind timeoutContext body).
Proof.
  intros Hb w Hp. unfold pbind, timeoutContext.
  destruct (Hb (mkCtx (w_clock w + 10 * Second)) w Hp) as (a & w' & E & Hp' & Hc).
  rewrite E. exists a, w'. simpl in Hc. unfold Second in *. repeat split; [done|lia|lia].
Qed.

Lemma answers_now_utc : answers 0 now_utc.
Proof. intros w Hp. exists (w_clock w), w. repeat split; [done|lia|lia]. Qed.

Ltac solve_op := intros; apply answers_timeout; intros ?ctx; solve_before.

Lemma answers_logNewReading r : answers (10 * Second) (logNewReading r).
Proof. solve_op. Qed.
Lemma answers_createNewCook c : answers (10 * Second) (createNewCook c).
Proof. solve_op. Qed.
Lemma answers_updateCook c : answers (10 * Second) (updateCook c).
Proof. solve_op. Qed.
Lemma answers_addReadingsToCook ids c : answers (10 * Second) (addReadingsToCook ids c).
Proof. solve_op. Qed.
Lemma answers_removeReadingsFromCook ids : answers (10 * Second) (removeReadingsFromCook ids).
Proof. solve_op. Qed.
Lemma answers_getOrphanReadingsInRange l o :
  answers (10 * Second) (getOrphanReadingsInRange l o).
Proof. solve_op. Qed.
Lemma answers_getCooksInRange l o : answers (10 * Second) (getCooksInRange l o).
Proof. solve_op. Qed.
Lemma answers_getCookById id : answers (10 * Second) (getCookById id).
Proof. solve_op. Qed.

Create HintDb answers.
#[export] Hint Resolve answers_now_utc answers_logNewReading answers_createNewCook
  answers_updateCook answers_addReadingsToCook answers_removeReadingsFromCook
  answers_getOrphanReadingsInRange answers_getCooksInRange answers_getCookById : answers.

(** A handler: each call either is instantaneous or spends one store
    deadline of the budget. *)
Ltac solve_answers :=
  repeat first
    [ apply answers_pret; unfold Second; lia
    | apply (answers_bind 0);
      [solve [eauto with answers | apply answers_pret; lia] | intros ?; cbv zeta]
    | apply (answers_bind (10 * Second)); [solve [eauto with answers] | intros ?; cbv zeta]
    | case_match ].

(** ** Theorems *)

(** C2: With a live pool every request gets an answer: serve returns a
    response and does not panic, whatever the store answers, faults or
    delays, and the request takes at most 20 s of server time (two store
    calls of at most 10 s each; every other handler makes at most one). *)
Theorem serve_answers req w :
  w_pool w = true ->
  exists resp w', serve req w = Ret resp w' /\ w_clock w <= w_clock w' <= w_clock w + 20 * Second.
Proof.
  intros Hp.
  assert (H : answers (20 * Second) (serve req)).
  { unfold serve. repeat case_match; try (apply answers_pret; unfold Second; lia).
    destruct h; simpl; unfold getStatus, postReading, getReadings, saveCook, getCooks,
      getCook, updateCookReadings; solve_answers. }
  destruct (H w Hp) as (resp & w' & E & _ & Hc). by exists resp, w'.
Qed.

(** ** Witnesses *)

Lemma serve_answers_witness :
  w_pool demo_world_slow = true /\
  exists resp w', serve demo_post_reading demo_world_slow = Ret resp w' /\
    w_clock demo_world_slow <= w_clock w' <= w_clock demo_world_slow + 20 * Second.
Proof. split; [reflexivity|]. apply serve_answers. reflexivity. Defined.
