(* ===== verification/Responses.v ===== *)
(** * The shape of every answer

    The route table of spec section 4.4 documents what each route answers
    on success: the ok message for [GET /api] and for the readings update,
    a [Reading] for [POST /api/reading], a page of readings for
    [GET /api/reading], a [Cook] for [POST /api/cook] and
    [PUT /api/cook/{id}], a page of cooks without nested readings for
    [GET /api/cook], and a cook with its readings for
    [GET /api/cook/{id}]; section 7 says every failure is the JSON error
    envelope ([error: true]) with a non-success status.

    [success_payload h p] is that table, per handler of [Api.routes];
    [conforms h r] accepts a response that is either a 200 carrying the
    handler's documented payload or the 500 error envelope.  The theorem
    shows every answer of [serve] conforms to the route the request was
    dispatched to, or is gorilla/mux's own plain-text 404 or 405 (which
    is not the JSON envelope).

    [returns P m] says every value [m] returns satisfies [P]; it is built
    up through [pbind] like [Store.respects]. *)

From S2P Require Import Prelude GoStrconv Types Store Database Api.
From Stdlib Require Import PrimFloat.

Definition returns {A} (P : A -> Prop) (m : prog World A) : Prop :=
  forall w a w', m w = Ret a w' -> P a.

(** [Readings] is a non-nil slice (JSON [[...]] rather than [null]). *)
Definition has_readings (c : Cook.t) : bool :=
  match Cook.Readings c with Some _ => true | None => false end.

(** The success payload spec section 4.4 documents for each handler. *)
Definition success_payload (h : Handler) (p : Payload) : bool :=
  match h, p with
  | HgetStatus, PMessage m | HupdateCookReadings, PMessage m =>
      negb (Message.Error m) && String.eqb (Message.Message m) "ok"
  | HpostReading, PReading _ => true
  | HgetReadings, PReadings _ => true
  | HsaveCook, PCook _ => true
  | HgetCooks, PCooks cs => forallb (fun c => negb (has_readings c)) cs
  | HgetCook, PCook c => has_readings c
  | _, _ => false
  end.

(** The error envelope of spec section 7. *)
Definition error_envelope (p : Payload) : bool :=
  match p with PMessage m => Message.Error m | _ => false end.

Definition conforms (h : Handler) (r : Response) : bool :=
  ((resp_status r =? 200) && success_payload h (resp_body r))
  || ((resp_status r =? 500) && error_envelope (resp_body r)).

(** What [serve] may answer for a request: the documented answer of the
    route it is dispatched to, or mux's 404 and 405. *)
Definition serve_conforms (req : Request) (resp : Response) : Prop :=
  match path_segments (req_path req) with
  | None => resp = not_found
  | Some segs =>
      match dispatch routes (req_method req) segs false with
      | Matched h _ => conforms h resp = true
      | MethodNotAllowed => resp = method_not_allowed
      | NotFound => resp = not_found
      end
  end.

(** ** The [returns] calculus *)

Lemma returns_pret {A} (P : A -> Prop) a : P a -> returns P (pret a).
Proof. intros HP w b w' [= <- _]. exact HP. Qed.

Lemma returns_bind {A B} (Q : A -> Prop) (P : B -> Prop) m (k : A -> prog World B) :
  returns Q m -> (forall x, Q x -> returns P (k x)) -> returns P (pbind m k).
Proof.
  intros Hm Hk w b w'. unfold pbind. destruct (m w) as [a w1|w1] eqn:E; [|done].
  exact (Hk a (Hm w a w1 E) w1 b w').
Qed.

Lemma returns_True {A} (m : prog World A) : returns (fun _ => True) m.
Proof. done. Qed.

Lemma returns_getCookById id :
  returns (fun r => match r with Ok c => has_readings c = true | Err _ => True end)
    (getCookById id).
Proof.
  unfold getCookById. eapply returns_bind; [apply returns_True|intros ctx _].
  eapply returns_bind; [apply returns_True|intros r _].
  repeat case_match; try (apply returns_pret; done).
  eapply returns_bind; [apply returns_True|intros q _]. apply returns_pret. by destruct q as [[? ?]|].
Qed.

Lemma returns_getCooksInRange l o :
  returns (fun r => match r with
                    | Ok cs => forallb (fun c => negb (has_readings c)) cs = true
                    | Err _ => True end)
    (getCooksInRange l o).
Proof.
  unfold getCooksInRange. eapply returns_bind; [apply returns_True|intros ctx _].
  eapply returns_bind; [apply returns_True|intros q _]. apply returns_pret.
  destruct q as [[rows ?]|]; [|done]. apply forallb_forall.
  intros c (row & <- & _)%in_map_iff. unfold scan_cook. by repeat case_match.
Qed.

Create HintDb returns.
#[export] Hint Resolve returns_getCookById returns_getCooksInRange : returns.
#[export] Hint Resolve returns_True | 10 : returns.

Ltac solve_returns :=
  repeat first
    [ eapply returns_bind; [solve [eauto with returns] | intros ? ?; cbv zeta]
    | apply returns_pret; unfold conforms; simpl in *;
      rewrite ?Bool.andb_true_r, ?Bool.orb_false_r; done
    | case_match ].

(** ** Theorems *)

(** C3: Every answer of the server has the shape spec section 4.4
    documents for the route the request is dispatched to: a 200 with that
    route's payload (the ok message, a reading, a page of readings, a
    cook, a page of cooks without nested readings, a cook with its
    readings) or the 500 JSON error envelope; a request no route matches
    gets mux's plain-text 404, one whose path matches only under another
    method its empty 405. *)
Theorem serve_typed req w resp w' : serve req w = Ret resp w' -> serve_conforms req resp.
Proof.
  unfold serve, serve_conforms. intros E.
  destruct (path_segments (req_path req)) as [segs|]; [|by injection E].
  destruct (dispatch routes (req_method req) segs false) as [h vars| |]; [|by injection E..].
  revert w resp w' E. fold (returns (fun r => conforms h r = true) (run_handler h (with_vars req vars))).
  destruct h; simpl; unfold getStatus, postReading, getReadings, saveCook, getCooks,
    getCook, updateCookReadings; solve_returns.
Qed.

(** ** Witnesses *)

Lemma serve_typed_witness :
  serve demo_get_cook demo_world = Ret (jsonResponse (PCook (Cook.mk 1 0 "Brisket #1"
    (Some [Reading.mk 2 2000 7 80.5%float 230%float])))) demo_world /\
  serve_conforms demo_get_cook (jsonResponse (PCook (Cook.mk 1 0 "Brisket #1"
    (Some [Reading.mk 2 2000 7 80.5%float 230%float])))).
Proof.
  assert (E : serve demo_get_cook demo_world = Ret (jsonResponse (PCook (Cook.mk 1 0 "Brisket #1"
    (Some [Reading.mk 2 2000 7 80.5%float 230%float])))) demo_world) by (vm_compute; reflexivity).
  split; [exact E|]. exact (serve_typed _ _ _ _ E).
Defined.
