(* ===== verification/Server.v ===== *)
(** * The running service

    [main] (not under src/, modelled from spec section 4.5) calls
    [connect()] and then [runHttpServer()], whose [ListenAndServe] loop
    serves requests for ever through the logging middleware.  That loop
    is the step relation [server_step]: a step serves one request through
    [logRequestHandler] around [serve] (a handler
    that panics leaves the world it reached and the server goes on, as
    net/http recovers), lets time pass, or changes what the network will
    do next.  [reachable] is every world of a run that starts from a
    store satisfying the invariant.

    The lemmas: a step keeps every preorder on the tables that every
    statement keeps; hence the store invariant holds in every reachable
    world, and along any run no row is deleted and no id sequence goes
    back, and no step reassigns [pool].  These are facts of the store
    model of Store.v (PostgreSQL enforces the key, the sequences and the
    microsecond times for any statement, and the code has no DELETE), not
    properties that the handlers could break, so they support the other
    files rather than state claims of their own. *)

From S2P Require Import Prelude GoStrconv Types Store Database Api Logging.

(** [main()]: [connect()]; [runHttpServer()] then runs [server_step]. *)
Definition main (connected : bool) : prog World unit := connect connected.

Inductive server_step : World -> World -> Prop :=
| step_request size cl req w :
    server_step w (out_state (logRequestHandler size cl req w))
| step_clock w d :
    0 <= d ->
    server_step w (mkWorld (w_db w) (w_pool w) (w_clock w + d) (w_net w) (w_log w))
| step_network w net :
    server_step w (mkWorld (w_db w) (w_pool w) (w_clock w) net (w_log w)).

Inductive reachable : World -> Prop :=
| reach_start t clock connected :
    tables_wf t ->
    reachable (out_state (main connected (mkWorld t false clock [] [])))
| reach_step w w' :
    reachable w -> server_step w w' -> reachable w'.

(** Each step respects what every statement respects. *)
Lemma server_step_respects (R : relation Tables) `{!PreOrder R} w w' :
  (forall sql args t, R t (pg_tables (pg_exec sql args t) t)) ->
  server_step w w' -> R (w_db w) (w_db w').
Proof.
  intros HR Hs. destruct Hs as [size cl req w|w d _|w net]; simpl; [|reflexivity|reflexivity].
  exact (respects_logRequestHandler (on_db R) (on_db_roundtrip R HR) (on_db_push R) size cl req w).
Qed.

(** No step reassigns [pool]. *)
Lemma server_step_pool w w' : server_step w w' -> w_pool w' = w_pool w.
Proof.
  destruct 1 as [size cl req w|w d _|w net]; [|done|done].
  exact (respects_logRequestHandler pool_kept pool_roundtrip pool_kept_push size cl req w).
Qed.

Lemma run_pool_kept w w' : rtc server_step w w' -> w_pool w' = w_pool w.
Proof.
  induction 1 as [w|w1 w2 w3 Hs _ IH]; [done|]. rewrite IH. exact (server_step_pool _ _ Hs).
Qed.

Lemma server_step_wf w w' : world_wf w -> server_step w w' -> world_wf w'.
Proof. intros Hw Hs. exact (server_step_respects wf_kept w w' pg_exec_kept Hs Hw). Qed.

(** In every world the service reaches, ids lie within their
    sequences, stored times are whole microseconds, and every reading's
    cook_id names an existing cook. *)
Lemma reachable_wf w : reachable w -> world_wf w.
Proof.
  induction 1 as [t clock b Ht|w w' _ IH Hs].
  - exact Ht.
  - by eapply server_step_wf.
Qed.

(** No run of the service deletes a reading or a cook, and neither id
    sequence ever goes back: the tables of every later world contain every
    row of every earlier one. *)
Lemma run_tables_grow w w' : rtc server_step w w' -> tables_grow (w_db w) (w_db w').
Proof.
  induction 1 as [w|w1 w2 w3 Hs _ IH]; [reflexivity|].
  etrans; [|exact IH]. exact (server_step_respects tables_grow w1 w2 pg_exec_grow Hs).
Qed.

