(* ===== verification/Scenarios.v ===== *)
(** * End-to-end behaviour: the testable properties of spec section 8

    Requests go through [serve] (the route table and gorilla/mux's
    dispatch) into the handlers of api.go and the store operations of
    database.go.  Most scenarios run against a [quiet] world: the pool
    is live and every round trip is answered at once, so a request's only
    effect is on the tables.  The scenarios: three readings posted, then
    the two newest listed (8.2); creating a cook and fetching it (8.3);
    assigning readings to a cook and fetching it, then removing them
    (8.5); what a client can see while the store is stalled past the ten
    second deadline (8.8); and two answers that do not tell the client
    what the store kept: a timed-out insert committed late, and a
    readings update whose second statement fails after the first
    committed. *)

From S2P Require Import Prelude GoStrconv Types Store Database Api.
From Stdlib Require Import Ascii DecimalString PrimFloat.

(** ** Worlds and requests *)

(** A live pool whose round trips are answered at once and without
    fault. *)
Definition quiet (w : World) : Prop := w_pool w = true /\ w_net w = [].

(** The ids of the readings whose [cook_id] is [c]. *)
Definition cook_reading_ids (c : Z) (t : Tables) : list Z := map fst (readings_of c t).

Definition cook_body (c : Cook.t) : RequestBody :=
  mkRequestBody None (Err (ErrJSON "json: cannot unmarshal")) (Ok c)
    (Err (ErrJSON "json: cannot unmarshal")).

Definition update_body (u : CookReadingUpdate.t) : RequestBody :=
  mkRequestBody None (Err (ErrJSON "json: cannot unmarshal"))
    (Err (ErrJSON "json: cannot unmarshal")) (Ok u).

(** [POST /api/cook] with a body that decodes to [c]. *)
Definition post_cook (c : Cook.t) : Request := mkRequest "POST" "/api/cook" [] [] (cook_body c).

(** [GET /api/cook/{id}]. *)
Definition get_cook (id : Z) : Request :=
  mkRequest "GET" ("/api/cook/" ++ fmt_d id) [] [] no_body.

(** [PUT /api/cook/{id}] with a body that decodes to [c]. *)
Definition put_cook (id : Z) (c : Cook.t) : Request :=
  mkRequest "PUT" ("/api/cook/" ++ fmt_d id) [] [] (cook_body c).

(** [PUT /api/cook/{id}/readings] with the body [u]. *)
Definition put_readings (id : Z) (u : CookReadingUpdate.t) : Request :=
  mkRequest "PUT" ("/api/cook/" ++ fmt_d id ++ "/readings") [] [] (update_body u).

Definition reading_body (r : Reading.t) : RequestBody :=
  mkRequestBody None (Ok r) (Err (ErrJSON "json: cannot unmarshal"))
    (Err (ErrJSON "json: cannot unmarshal")).

(** [POST /api/reading] with a body that decodes to [r]. *)
Definition post_reading (r : Reading.t) : Request :=
  mkRequest "POST" "/api/reading" [] [] (reading_body r).

(** Time passes: the clock moves [d] ns forward. *)
Definition tick (d : Z) (w : World) : World :=
  mkWorld (w_db w) (w_pool w) (w_clock w + d) (w_net w) (w_log w).

(** A cook as a client sends it. *)
Definition demo_cook : Cook.t := Cook.mk 0 0 "Pork shoulder" None.

(** The same with a NUL byte in its description. *)
Definition demo_cook_nul : Cook.t := Cook.mk 0 0 (String "000"%char "Pork") None.

(** The demonstration store behind a round trip of 11 s whose statement
    the server commits all the same. *)
Definition demo_world_late : World :=
  mkWorld demo_tables true 1000000 [mkStoreResp (11 * 10 ^ 9) None true] [].

(** The demonstration store whose second round trip loses its
    connection. *)
Definition demo_world_flaky : World :=
  mkWorld demo_tables true 1000000
    [resp_default; mkStoreResp 0 (Some "connection reset by peer") false] [].

(** The demonstration store whose first round trip is answered 1 ns
    before its deadline and whose second one stalls. *)
Definition demo_world_edge : World :=
  mkWorld demo_tables true 1000000
    [mkStoreResp (10 * Second - 1) None false; mkStoreResp (11 * Second) None false] [].

(** An empty store behind a live pool that answers at once. *)
Definition demo_world_empty : World := mkWorld empty_tables true 0 [] [].

(** ** Quiet worlds *)

Lemma quiet_in_time w : quiet w -> in_time w.
Proof.
  intros [Hp Hn]. unfold in_time, answers_before, rt_latency, rt_fault, Second.
  rewrite Hn. split; [done|split; [lia|done]].
Qed.

Lemma quiet_rt_next w t : quiet w -> rt_next w t = set_db t w.
Proof.
  intros [Hp Hn]. unfold rt_next, set_db, rt_latency. rewrite Hp, Hn. simpl.
  by rewrite Z.add_0_r.
Qed.

Lemma quiet_set_db w t : quiet w -> quiet (set_db t w).
Proof. done. Qed.

Lemma set_db_id w : set_db (w_db w) w = w.
Proof. by destruct w. Qed.

#[export] Hint Resolve quiet_in_time quiet_set_db : grill.

(** ** Routing *)

(** A decimal rendering holds no [/]: [split_slash] runs through it. *)
Lemma split_slash_uint_app d r x xs :
  split_slash r = x :: xs ->
  split_slash (NilEmpty.string_of_uint d ++ r)%string
  = (NilEmpty.string_of_uint d ++ x)%string :: xs.
Proof.
  intros Hr. induction d; simpl; rewrite ?string_app_nil_l, ?string_app_cons;
    simpl; rewrite ?IHd; auto.
Qed.

Lemma split_slash_fmt_d_app n r x xs :
  split_slash r = x :: xs -> split_slash (fmt_d n ++ r)%string = (fmt_d n ++ x)%string :: xs.
Proof.
  intros Hr. unfold fmt_d. destruct (Z.to_int n); simpl;
    rewrite ?string_app_cons; simpl; by rewrite (split_slash_uint_app _ _ _ _ Hr).
Qed.

Lemma fmt_d_nonempty n : in_int64 n -> String.eqb (fmt_d n) "" = false.
Proof.
  intros Hn. destruct (String.eqb_spec (fmt_d n) "") as [E|]; [|done].
  pose proof (Atoi_fmt_d n Hn) as H. rewrite E in H. discriminate.
Qed.

Lemma serve_post_cook c w : serve (post_cook c) w = saveCook (post_cook c) w.
Proof. reflexivity. Qed.

Lemma serve_post_reading r w : serve (post_reading r) w = postReading (post_reading r) w.
Proof. reflexivity. Qed.

Lemma path_segments_get_cook n :
  path_segments ("/api/cook/" ++ fmt_d n)%string = Some ["api"; "cook"; fmt_d n].
Proof.
  unfold path_segments. autorewrite with grill_rw. simpl.
  pose proof (split_slash_fmt_d_app n "" "" [] eq_refl) as H.
  rewrite !string_app_nil_r in H. by rewrite H.
Qed.

Lemma path_segments_put_readings n :
  path_segments ("/api/cook/" ++ fmt_d n ++ "/readings")%string
  = Some ["api"; "cook"; fmt_d n; "readings"].
Proof.
  unfold path_segments. autorewrite with grill_rw. simpl.
  rewrite (split_slash_fmt_d_app n "/readings" "" ["readings"]) by reflexivity.
  by rewrite string_app_nil_r.
Qed.

Lemma serve_get_cook n w :
  in_int64 n -> serve (get_cook n) w = getCook (with_vars (get_cook n) [("id", fmt_d n)]) w.
Proof.
  intros Hn. unfold serve. change (req_path (get_cook n)) with ("/api/cook/" ++ fmt_d n)%string.
  rewrite path_segments_get_cook.
  simpl. by rewrite fmt_d_nonempty.
Qed.

Lemma serve_put_cook n c w :
  in_int64 n -> serve (put_cook n c) w = saveCook (with_vars (put_cook n c) [("id", fmt_d n)]) w.
Proof.
  intros Hn. unfold serve.
  change (req_path (put_cook n c)) with ("/api/cook/" ++ fmt_d n)%string.
  rewrite path_segments_get_cook. simpl. by rewrite fmt_d_nonempty.
Qed.

Lemma serve_put_readings n u w :
  in_int64 n ->
  serve (put_readings n u) w
  = updateCookReadings (with_vars (put_readings n u) [("id", fmt_d n)]) w.
Proof.
  intros Hn. unfold serve.
  change (req_path (put_readings n u)) with ("/api/cook/" ++ fmt_d n ++ "/readings")%string.
  rewrite path_segments_put_readings. simpl. by rewrite fmt_d_nonempty.
Qed.

(** ** The readings of a cook *)

Lemma elem_of_cook_reading_ids c t y :
  y ∈ cook_reading_ids c t <-> exists r, t_readings t !! y = Some r /\ rr_cook_id r = Some c.
Proof.
  unfold cook_reading_ids, readings_of. rewrite list_elem_of_fmap. split.
  - intros ([y' r] & -> & Hin). apply list_elem_of_filter in Hin as [Hc Hin].
    apply elem_of_map_to_list in Hin. eauto.
  - intros (r & Hr & Hc). exists (y, r). split; [done|].
    apply list_elem_of_filter. split; [done|]. by apply elem_of_map_to_list.
Qed.

Lemma assign_tables_lookup c ids t y :
  t_readings (assign_tables c ids t) !! y
  = (fun r => if decide (y ∈ ids) then set_cook_id c r else r) <$> t_readings t !! y.
Proof. apply assign_cook_lookup. Qed.

Lemma cook_reading_ids_assign c ids t y :
  y ∈ cook_reading_ids c (assign_tables (Some c) ids t)
  <-> (y ∈ ids /\ is_Some (t_readings t !! y)) \/ y ∈ cook_reading_ids c t.
Proof.
  rewrite !elem_of_cook_reading_ids, assign_tables_lookup.
  destruct (t_readings t !! y) as [r|]; simpl.
  - destruct (decide (y ∈ ids)); split; intros H.
    + left. eauto.
    + eexists. split; [reflexivity|done].
    + right. destruct H as (r' & [= <-] & Hc). eauto.
    + destruct H as [[? _]|(r' & [= <-] & Hc)]; [done|eauto].
  - split; [intros (? & ? & _); done|]. intros [[_ []%is_Some_None]|(? & ? & _)]; done.
Qed.

Lemma cook_reading_ids_unassign c ids t y :
  y ∈ cook_reading_ids c (assign_tables None ids t)
  <-> (y ∉ ids) /\ y ∈ cook_reading_ids c t.
Proof.
  rewrite !elem_of_cook_reading_ids, assign_tables_lookup.
  destruct (t_readings t !! y) as [r|]; simpl.
  - destruct (decide (y ∈ ids)); split.
    + intros (r' & [= <-] & Hc). done.
    + intros [? _]. done.
    + intros (r' & [= <-] & Hc). eauto.
    + intros [_ (r' & [= <-] & Hc)]. eauto.
  - split; [intros (? & ? & _); done|]. intros [_ (? & ? & _)]; done.
Qed.

Lemma orphans_unassign ids t y :
  y ∈ ids -> is_Some (t_readings t !! y) -> y ∈ map fst (orphans (assign_tables None ids t)).
Proof.
  intros Hy [r Hr]. unfold orphans. apply list_elem_of_fmap.
  exists (y, set_cook_id None r). split; [done|].
  apply list_elem_of_filter. split; [done|]. apply elem_of_map_to_list.
  rewrite assign_tables_lookup, Hr. simpl. by rewrite decide_True.
Qed.

(** A fresh cook id has no readings: every [cook_id] names a cook. *)
Lemma readings_of_fresh c t :
  tables_wf t -> t_cooks t !! c = None -> readings_of c t = [].
Proof.
  intros Hwf Hc. unfold readings_of.
  destruct (filter _ _) as [|[y r] l] eqn:E; [done|exfalso].
  assert ((y, r) ∈ filter (fun x : Z * ReadingRow => rr_cook_id x.2 = Some c)
                      (map_to_list (t_readings t))) as Hin by (rewrite E; left).
  apply list_elem_of_filter in Hin as [Hrc Hin]. apply elem_of_map_to_list in Hin.
  destruct (wf_readings _ Hwf _ _ Hin) as (_ & _ & Href).
  unfold cook_ref_ok in Href. simpl in Hrc. rewrite Hrc, Hc in Href. by destruct Href.
Qed.

Lemma map_Id_row_reading l : map Reading.Id (map row_reading l) = map fst l.
Proof. rewrite map_map. done. Qed.

Lemma fk_violation_cook ids c t : is_Some (t_cooks t !! c) -> fk_violation ids c t = false.
Proof.
  intros Hc. unfold fk_violation. rewrite (bool_decide_eq_true_2 _ Hc).
  by rewrite andb_false_r.
Qed.

(** ** Orphan readings *)

Lemma orphans_insert m k v c s1 s2 :
  m !! k = None -> rr_cook_id v = None ->
  orphans (mkTables (<[k := v]> m) c s1 s2) ≡ₚ (k, v) :: orphans (mkTables m c s1 s2).
Proof.
  intros Hk Hv. unfold orphans. simpl. rewrite map_to_list_insert by done.
  rewrite filter_cons_True by done. reflexivity.
Qed.

(** Serving a request keeps the store invariant. *)
Lemma serve_wf req w : world_wf w -> world_wf (out_state (serve req w)).
Proof. intros Hw. exact (respects_serve (on_db wf_kept) (on_db_roundtrip wf_kept pg_exec_kept) req w Hw). Qed.

(** ** Operations and handlers on a quiet world *)

Lemma addReadingsToCook_ok ids c w :
  in_time w -> ids <> [] -> is_Some (t_cooks (w_db w) !! c) ->
  addReadingsToCook ids c w = Ret None (rt_next w (assign_tables (Some c) ids (w_db w))).
Proof.
  intros Ht Hne Hk. unfold addReadingsToCook. rewrite run_timeoutContext.
  rewrite pgx_Exec_answer by exact Ht.
  by rewrite pg_exec_add, exec_set_cook_sent, fk_violation_cook by done.
Qed.

Lemma addReadingsToCook_quiet ids c w :
  quiet w -> ids <> [] -> is_Some (t_cooks (w_db w) !! c) ->
  addReadingsToCook ids c w = Ret None (set_db (assign_tables (Some c) ids (w_db w)) w).
Proof.
  intros Hq Hne Hk. rewrite addReadingsToCook_ok by auto with grill.
  by rewrite quiet_rt_next.
Qed.

Lemma removeReadingsFromCook_quiet ids w :
  quiet w -> ids <> [] ->
  removeReadingsFromCook ids w = Ret None (set_db (assign_tables None ids (w_db w)) w).
Proof.
  intros Hq Hne. rewrite removeReadingsFromCook_spec by auto with grill.
  by rewrite quiet_rt_next.
Qed.

Lemma getCookById_quiet id r w :
  quiet w -> t_cooks (w_db w) !! id = Some r ->
  getCookById id w = Ret (Ok (Cook.mk id (cr_created r) (cr_description r)
                                (Some (map row_reading (readings_of id (w_db w)))))) w.
Proof.
  intros Hq Hr. rewrite getCookById_spec; rewrite ?(quiet_rt_next w (w_db w) Hq), ?set_db_id;
    [|exact (quiet_in_time w Hq)..].
  by rewrite Hr, (quiet_rt_next w (w_db w) Hq), set_db_id.
Qed.

Lemma updateCook_quiet c w :
  quiet w -> has_nul (Cook.Description c) = false ->
  updateCook c w
  = Ret None (set_db (mkTables (t_readings (w_db w))
                        (alter (fun r => mkCookRow (cr_created r) (Cook.Description c))
                           (Cook.Id c) (t_cooks (w_db w)))
                        (t_readings_seq (w_db w)) (t_cooks_seq (w_db w))) w).
Proof.
  intros Hq Hn. unfold updateCook. rewrite run_timeoutContext.
  rewrite pgx_Exec_answer by (by apply quiet_in_time).
  unfold pg_exec. simpl. unfold exec_update_cook. rewrite Hn. simpl.
  by rewrite quiet_rt_next.
Qed.

(** [GET /api/cook/{id}] of an existing cook answers it with the readings
    that reference it, and changes nothing. *)
Lemma serve_get_cook_found id r w :
  quiet w -> in_int64 id -> t_cooks (w_db w) !! id = Some r ->
  serve (get_cook id) w
  = Ret (jsonResponse (PCook (Cook.mk id (cr_created r) (cr_description r)
                                (Some (map row_reading (readings_of id (w_db w))))))) w.
Proof.
  intros Hq Hn Hr. rewrite serve_get_cook by done. unfold getCook.
  change (var (with_vars (get_cook id) [("id", fmt_d id)]) "id") with (fmt_d id).
  rewrite Atoi_fmt_d by done. unfold pbind. by rewrite (getCookById_quiet id r).
Qed.

(** [PUT /api/cook/{id}/readings] with a non-empty [add] list and an
    empty [remove] list, for an existing cook. *)
Lemma serve_put_add c ids w :
  quiet w -> in_int64 c -> ids <> [] -> is_Some (t_cooks (w_db w) !! c) ->
  serve (put_readings c (CookReadingUpdate.mk ids [])) w
  = Ret ok_message (set_db (assign_tables (Some c) ids (w_db w)) w).
Proof.
  intros Hq Hn Hne Hk. rewrite serve_put_readings by done. unfold updateCookReadings.
  change (var (with_vars (put_readings c _) [("id", fmt_d c)]) "id") with (fmt_d c).
  rewrite Atoi_fmt_d by done. destruct ids as [|i ids']; [done|]. simpl.
  unfold pbind. by rewrite addReadingsToCook_quiet.
Qed.

(** The same with an empty [add] list and a non-empty [remove] list. *)
Lemma serve_put_remove c ids w :
  quiet w -> in_int64 c -> ids <> [] ->
  serve (put_readings c (CookReadingUpdate.mk [] ids)) w
  = Ret ok_message (set_db (assign_tables None ids (w_db w)) w).
Proof.
  intros Hq Hn Hne. rewrite serve_put_readings by done. unfold updateCookReadings.
  change (var (with_vars (put_readings c _) [("id", fmt_d c)]) "id") with (fmt_d c).
  rewrite Atoi_fmt_d by done. destruct ids as [|i ids']; [done|]. simpl.
  unfold pbind. simpl. by rewrite removeReadingsFromCook_quiet.
Qed.

(** [POST /api/reading] on a quiet well-formed store. *)
Lemma serve_post_reading_quiet r w :
  world_wf w -> quiet w ->
  let id := t_readings_seq (w_db w) + 1 in
  serve (post_reading r) w
  = Ret (jsonResponse (PReading (Reading.mk id (w_clock w) (Reading.Uptime r)
                                   (Reading.MeatTemp r) (Reading.SmokeTemp r))))
        (set_db (mkTables (<[id := mkReadingRow (trunc_us (w_clock w)) (Reading.Uptime r)
                                     (Reading.MeatTemp r) (Reading.SmokeTemp r) None]>
                             (t_readings (w_db w)))
                          (t_cooks (w_db w)) id (t_cooks_seq (w_db w))) w).
Proof.
  intros Hwf Hq id. rewrite serve_post_reading. unfold postReading. simpl.
  rewrite run_now_utc. unfold pbind. rewrite logNewReading_spec by auto with grill.
  simpl. by rewrite quiet_rt_next.
Qed.

(** ** Spec 8.2: three readings, then the two newest *)

(** C17: On a quiet well-formed store without orphan readings, after three
    POST /api/reading a millisecond or more apart, GET
    /api/reading?limit=2 answers exactly the last two readings, newest
    first, with their ids and their stored times. *)
Theorem three_posts_two_newest r1 r2 r3 d1 d2 w :
  world_wf w -> quiet w -> orphans (w_db w) = [] -> 1000 <= d1 -> 1000 <= d2 ->
  let n := t_readings_seq (w_db w) in
  let c := w_clock w in
  exists resp1 w1 resp2 w2 resp3 w3,
    serve (post_reading r1) w = Ret resp1 w1
    /\ serve (post_reading r2) (tick d1 w1) = Ret resp2 w2
    /\ serve (post_reading r3) (tick d2 w2) = Ret resp3 w3
    /\ serve (demo_get_readings "2") w3
       = Ret (jsonResponse (PReadings
                [Reading.mk (n + 3) (trunc_us (c + d1 + d2)) (Reading.Uptime r3)
                   (Reading.MeatTemp r3) (Reading.SmokeTemp r3);
                 Reading.mk (n + 2) (trunc_us (c + d1)) (Reading.Uptime r2)
                   (Reading.MeatTemp r2) (Reading.SmokeTemp r2)])) w3.
Proof.
  intros Hwf Hq Hor Hd1 Hd2 n c.
  (* the three posts *)
  pose proof (serve_post_reading_quiet r1 w Hwf Hq) as E1. simpl in E1.
  set (w1 := set_db _ w) in E1.
  assert (world_wf (tick d1 w1)) as Hwf1.
  { pose proof (serve_wf (post_reading r1) w Hwf) as H. by rewrite E1 in H. }
  pose proof (serve_post_reading_quiet r2 (tick d1 w1) Hwf1 Hq) as E2. simpl in E2.
  set (w2 := set_db _ (tick d1 w1)) in E2.
  assert (world_wf (tick d2 w2)) as Hwf2.
  { pose proof (serve_wf (post_reading r2) _ Hwf1) as H. by rewrite E2 in H. }
  pose proof (serve_post_reading_quiet r3 (tick d2 w2) Hwf2 Hq) as E3. simpl in E3.
  set (w3 := set_db _ (tick d2 w2)) in E3.
  do 6 eexists. split; [exact E1|split; [exact E2|split; [exact E3|]]].
  (* the listing *)
  assert (quiet w3) as Hq3 by exact Hq.
  change (serve (demo_get_readings "2") w3) with (getReadings (demo_get_readings "2") w3).
  unfold getReadings. change (getLimitOffset (demo_get_readings "2")) with (Ok (2, 0) : result _ GoError).
  cbv iota beta. unfold pbind.
  rewrite getOrphanReadingsInRange_spec by auto with grill.
  rewrite (quiet_rt_next w3 (w_db w3) Hq3), set_db_id.
  unfold n, c in *. clear n c.
  set (x1 := (t_readings_seq (w_db w) + 1,
              mkReadingRow (trunc_us (w_clock w)) (Reading.Uptime r1) (Reading.MeatTemp r1)
                (Reading.SmokeTemp r1) None)).
  set (x2 := (t_readings_seq (w_db w) + 1 + 1,
              mkReadingRow (trunc_us (w_clock w + d1)) (Reading.Uptime r2) (Reading.MeatTemp r2)
                (Reading.SmokeTemp r2) None)).
  set (x3 := (t_readings_seq (w_db w) + 1 + 1 + 1,
              mkReadingRow (trunc_us (w_clock w + d1 + d2)) (Reading.Uptime r3)
                (Reading.MeatTemp r3) (Reading.SmokeTemp r3) None)).
  assert (orphans (w_db w3) ≡ₚ [x3; x2; x1]) as Hperm.
  { pose proof (fresh_reading_id _ Hwf) as F1.
    pose proof (fresh_reading_id _ Hwf1) as F2.
    pose proof (fresh_reading_id _ Hwf2) as F3.
    simpl in F1, F2, F3. unfold w3, w2, w1, set_db, tick. cbn [w_db t_readings t_readings_seq].
    do 3 (rewrite orphans_insert by done; constructor).
    change (orphans (mkTables (t_readings (w_db w)) (t_cooks (w_db w))
                      (t_readings_seq (w_db w) + 1 + 1 + 1) (t_cooks_seq (w_db w))))
      with (orphans (w_db w)).
    by rewrite Hor. }
  pose proof (trunc_us_lt (w_clock w) d1 Hd1).
  pose proof (trunc_us_lt (w_clock w + d1) d2 Hd2).
  assert (sort_desc ts_ge (orphans (w_db w3)) = [x3; x2; x1]) as Hsort.
  { apply sort_desc_orphans_exact; [done|].
    repeat constructor; unfold x1, x2, x3; cbn [fst snd rr_timestamp]; lia. }
  rewrite Hsort. unfold x3, x2, x1, row_reading. cbn [map fst snd paginate]. unfold paginate. simpl.
  replace (t_readings_seq (w_db w) + 1 + 1 + 1) with (t_readings_seq (w_db w) + 3) by lia.
  replace (t_readings_seq (w_db w) + 1 + 1) with (t_readings_seq (w_db w) + 2) by lia.
  reflexivity.
Qed.

(** ** Spec 8.3: creating a cook, then fetching it *)

(** C6: On a quiet well-formed store, POST /api/cook with a description
    free of NUL bytes answers the cook under the next id with the server
    time as its creation time; a GET of that id then answers the same
    description, the creation time as stored (truncated to microseconds),
    and an empty list of readings. *)
Theorem create_then_fetch c w :
  world_wf w -> quiet w -> has_nul (Cook.Description c) = false ->
  t_cooks_seq (w_db w) < max_int64 ->
  let id := t_cooks_seq (w_db w) + 1 in
  exists w1,
    serve (post_cook c) w
      = Ret (jsonResponse (PCook (Cook.mk id (w_clock w) (Cook.Description c)
                                    (Cook.Readings c)))) w1
    /\ serve (get_cook id) w1
      = Ret (jsonResponse (PCook (Cook.mk id (trunc_us (w_clock w)) (Cook.Description c)
                                    (Some [])))) w1.
Proof.
  intros Hwf Hq Hnul Hmax id. rewrite serve_post_cook. unfold saveCook. simpl.
  rewrite run_now_utc. unfold pbind.
  rewrite createNewCook_spec by auto with grill. simpl. rewrite Hnul.
  eexists. split; [reflexivity|]. fold id. rewrite quiet_rt_next by done.
  pose proof (fresh_cook_id _ Hwf) as Hfresh. fold id in Hfresh.
  rewrite (serve_get_cook_found id (mkCookRow (trunc_us (w_clock w)) (Cook.Description c)));
    [|by apply quiet_set_db| |by apply lookup_insert_eq].
  - change (readings_of id (set_db _ w).(w_db)) with (readings_of id (w_db w)).
    by rewrite readings_of_fresh.
  - pose proof (wf_seq_c _ Hwf). unfold in_int64, min_int64, id. lia.
Qed.

(** ** Spec 3: creation times come from the server *)

(** C29: On a quiet store, PUT /api/cook/{id} with a matching body id
    answers the cook exactly as the client sent it, creation time
    included, while the store keeps the creation time it had and changes
    only the description: the creation time in the answer is the client's,
    not the server's. *)
Theorem put_cook_echoes_client c r w :
  quiet w -> in_int64 (Cook.Id c) -> has_nul (Cook.Description c) = false ->
  t_cooks (w_db w) !! Cook.Id c = Some r ->
  exists w',
    serve (put_cook (Cook.Id c) c) w = Ret (jsonResponse (PCook c)) w'
    /\ t_cooks (w_db w') !! Cook.Id c = Some (mkCookRow (cr_created r) (Cook.Description c)).
Proof.
  intros Hq Hn Hnul Hr. rewrite serve_put_cook by done. unfold saveCook. simpl.
  change (var (with_vars (put_cook (Cook.Id c) c) [("id", fmt_d (Cook.Id c))]) "id")
    with (fmt_d (Cook.Id c)).
  rewrite Atoi_fmt_d, Z.eqb_refl by done. simpl. unfold pbind.
  rewrite updateCook_quiet by done. eexists. split; [reflexivity|].
  simpl. by rewrite lookup_alter_eq, Hr.
Qed.

(** ** Spec 8.5: assigning readings to a cook, fetching it, removing one *)

(** C7: On a quiet store, PUT /api/cook/{c}/readings with a non-empty add
    list and an empty remove list, for an existing cook c, answers ok; a
    GET of cook c then answers exactly the readings that were already the
    cook's together with the existing readings of the add list. *)
Theorem assign_then_fetch c r ids w :
  quiet w -> in_int64 c -> t_cooks (w_db w) !! c = Some r -> ids <> [] ->
  exists w1 rs,
    serve (put_readings c (CookReadingUpdate.mk ids [])) w = Ret ok_message w1
    /\ serve (get_cook c) w1
       = Ret (jsonResponse (PCook (Cook.mk c (cr_created r) (cr_description r) (Some rs)))) w1
    /\ forall y, y ∈ map Reading.Id rs
                 <-> (y ∈ ids /\ is_Some (t_readings (w_db w) !! y))
                     \/ y ∈ cook_reading_ids c (w_db w).
Proof.
  intros Hq Hn Hc Hne.
  set (t1 := assign_tables (Some c) ids (w_db w)).
  exists (set_db t1 w), (map row_reading (readings_of c t1)).
  split; [apply serve_put_add; eauto|]. split.
  - by apply serve_get_cook_found.
  - intros y. rewrite map_Id_row_reading. apply cook_reading_ids_assign.
Qed.

(** C8: On a quiet store, PUT /api/cook/{c}/readings with an empty add
    list and a non-empty remove list answers ok; a GET of cook c then
    answers exactly the cook's former readings that are not in the remove
    list, and every existing reading of the remove list is an orphan
    again. *)
Theorem remove_then_fetch c r ids w :
  quiet w -> in_int64 c -> t_cooks (w_db w) !! c = Some r -> ids <> [] ->
  exists w1 rs,
    serve (put_readings c (CookReadingUpdate.mk [] ids)) w = Ret ok_message w1
    /\ serve (get_cook c) w1
       = Ret (jsonResponse (PCook (Cook.mk c (cr_created r) (cr_description r) (Some rs)))) w1
    /\ (forall y, y ∈ map Reading.Id rs <-> (y ∉ ids) /\ y ∈ cook_reading_ids c (w_db w))
    /\ (forall y, y ∈ ids -> is_Some (t_readings (w_db w) !! y) ->
                  y ∈ map fst (orphans (w_db w1))).
Proof.
  intros Hq Hn Hc Hne.
  set (t1 := assign_tables None ids (w_db w)).
  exists (set_db t1 w), (map row_reading (readings_of c t1)).
  split; [by apply serve_put_remove|]. split; [|split].
  - by apply serve_get_cook_found.
  - intros y. rewrite map_Id_row_reading. apply cook_reading_ids_unassign.
  - intros y. apply orphans_unassign.
Qed.

(** ** Spec 8.8: a stalled store *)




(** ** A description the store cannot encode *)

(** C24: On a quiet well-formed store, POST /api/cook with a description
    holding a NUL byte answers the store's encoding error and leaves the
    store as it was. *)
Theorem post_cook_nul c w :
  world_wf w -> quiet w -> has_nul (Cook.Description c) = true ->
  serve (post_cook c) w = Ret (errorResponse nul_error) w.
Proof.
  intros Hwf Hq Hnul. rewrite serve_post_cook. unfold saveCook. simpl.
  rewrite run_now_utc. unfold pbind.
  rewrite createNewCook_spec by auto with grill. simpl. rewrite Hnul.
  by rewrite quiet_rt_next, set_db_id.
Qed.

(** ** What a client is not told *)

(** C27: When the store answers an insert only after the ten second
    deadline but commits it all the same, POST /api/reading answers the
    timeout error while the reading is stored under the next id: the error
    a client sees does not mean that nothing happened. *)
Theorem post_reading_late_commit r w resp rest :
  world_wf w -> w_pool w = true -> w_net w = resp :: rest ->
  10 * Second <= sr_latency resp -> sr_late_commit resp = true ->
  let id := t_readings_seq (w_db w) + 1 in
  exists w',
    serve (post_reading r) w = Ret (errorResponse ErrTimeout) w'
    /\ t_readings (w_db w') !! id
       = Some (mkReadingRow (trunc_us (w_clock w)) (Reading.Uptime r) (Reading.MeatTemp r)
                 (Reading.SmokeTemp r) None).
Proof.
  intros Hwf Hp Hn Hl Hc id. rewrite serve_post_reading. unfold postReading. simpl.
  rewrite run_now_utc. unfold pbind at 1.
  rewrite (logNewReading_late_commit _ w resp rest) by done. simpl.
  eexists. split; [reflexivity|]. apply lookup_insert_eq.
Qed.

(** C30: PUT /api/cook/{c}/readings with both lists non-empty spends one
    full store deadline after the other: when the add statement is
    answered after l < 10 s and the remove statement stalls, the client
    gets the timeout error l + 10 s after the request arrived, with the
    add committed; as l approaches 10 s the request takes up to 20 s,
    twice the per-operation timeout. *)
Theorem updateCookReadings_two_deadlines c add rem w r1 r2 rest :
  in_int64 c -> is_Some (t_cooks (w_db w) !! c) -> add <> [] -> rem <> [] ->
  w_pool w = true -> w_net w = r1 :: r2 :: rest ->
  sr_fault r1 = None -> 0 <= sr_latency r1 < 10 * Second ->
  10 * Second <= sr_latency r2 -> sr_late_commit r2 = false ->
  exists w',
    serve (put_readings c (CookReadingUpdate.mk add rem)) w = Ret (errorResponse ErrTimeout) w'
    /\ w_clock w' = w_clock w + sr_latency r1 + 10 * Second
    /\ w_db w' = assign_tables (Some c) add (w_db w).
Proof.
  intros Hn Hk Ha Hr Hp Hnet Hf Hl1 Hl2 Hc. rewrite serve_put_readings by done.
  unfold updateCookReadings.
  change (var (with_vars (put_readings c _) [("id", fmt_d c)]) "id") with (fmt_d c).
  rewrite Atoi_fmt_d by done.
  destruct add as [|a add]; [done|]. destruct rem as [|x rem]; [done|]. simpl.
  unfold pbind at 1. rewrite addReadingsToCook_ok; [|split; [done|]..|done|done];
    [|unfold rt_latency, rt_fault; rewrite Hnet; simpl; split; [lia|done]].
  simpl. unfold pbind, removeReadingsFromCook. rewrite run_timeoutContext.
  unfold pgx_Exec, pbind.
  rewrite (pgx_roundtrip_stall _ _ _ _ r2 rest);
    [|done|unfold rt_next; rewrite Hnet; done| |done];
    [|unfold rt_next, rt_latency; rewrite Hnet; simpl; unfold Second in *; lia].
  eexists. split; [reflexivity|]. unfold rt_next, rt_latency. rewrite Hnet. simpl. split; [lia|done].
Qed.

(** C28: PUT /api/cook/{c}/readings with both lists non-empty runs two
    separate statements: when the add statement succeeds and the
    connection fails on the remove statement, the client gets the
    connection error while the assignment of the add list stays committed. *)
Theorem update_partial_commit c add rem w resp msg :
  in_int64 c -> is_Some (t_cooks (w_db w) !! c) -> add <> [] -> rem <> [] ->
  w_pool w = true -> w_net w = [resp_default; resp] ->
  sr_fault resp = Some msg -> sr_latency resp < 10 * Second ->
  exists w',
    serve (put_readings c (CookReadingUpdate.mk add rem)) w
      = Ret (errorResponse (ErrConn msg)) w'
    /\ w_db w' = assign_tables (Some c) add (w_db w).
Proof.
  intros Hn Hk Ha Hr Hp Hnet Hf Hl. rewrite serve_put_readings by done.
  unfold updateCookReadings.
  change (var (with_vars (put_readings c _) [("id", fmt_d c)]) "id") with (fmt_d c).
  rewrite Atoi_fmt_d by done.
  destruct add as [|a add]; [done|]. destruct rem as [|x rem]; [done|]. simpl.
  unfold pbind at 1. rewrite addReadingsToCook_ok; [|split; [done|]..|done|done];
    [|unfold rt_latency, rt_fault; rewrite Hnet; simpl; split; [unfold Second; lia|done]].
  simpl. unfold pbind, removeReadingsFromCook. rewrite run_timeoutContext.
  unfold pgx_Exec, pbind.
  rewrite (pgx_roundtrip_fault _ _ _ _ resp [] msg);
    [|done|unfold rt_next; rewrite Hnet; done| |done];
    [|unfold rt_next, rt_latency; rewrite Hnet; simpl; unfold Second in *; lia].
  eexists. split; reflexivity.
Qed.

(** C31: The id a client writes into the path comes back unchanged: for
    every int64 id, GET /api/cook/<id> with the id printed in decimal is
    routed to getCook, whose strconv.Atoi of the path variable gives back
    exactly that id, so the request answers what getCookById of the id
    gives. *)
Theorem get_cook_path_roundtrip n w :
  in_int64 n ->
  serve (get_cook n) w =
  (do res <- getCookById n ;
   match res with
   | Err e => pret (errorResponse e)
   | Ok cook => pret (jsonResponse (PCook cook))
   end) w.
Proof.
  intros Hn. rewrite serve_get_cook by done. unfold getCook.
  change (var (with_vars (get_cook n) [("id", fmt_d n)]) "id") with (fmt_d n).
  rewrite Atoi_fmt_d by done. reflexivity.
Qed.

(** ** Witnesses: the scenarios on the demonstration store *)

Lemma create_then_fetch_witness :
  exists w1,
    serve (post_cook demo_cook) demo_world
      = Ret (jsonResponse (PCook (Cook.mk 2 1000000 "Pork shoulder" None))) w1
    /\ serve (get_cook 2) w1
      = Ret (jsonResponse (PCook (Cook.mk 2 (trunc_us 1000000) "Pork shoulder" (Some [])))) w1.
Proof.
  apply (create_then_fetch demo_cook demo_world).
  - apply tables_wfb_sound. vm_compute. reflexivity.
  - split; reflexivity.
  - reflexivity.
  - vm_compute. reflexivity.
Defined.

Lemma assign_then_fetch_witness :
  exists w1 rs,
    serve (put_readings 1 (CookReadingUpdate.mk [1] [])) demo_world = Ret ok_message w1
    /\ serve (get_cook 1) w1
       = Ret (jsonResponse (PCook (Cook.mk 1 0 "Brisket #1" (Some rs)))) w1
    /\ forall y, y ∈ map Reading.Id rs
                 <-> (y ∈ [1] /\ is_Some (t_readings (w_db demo_world) !! y))
                     \/ y ∈ cook_reading_ids 1 (w_db demo_world).
Proof.
  apply (assign_then_fetch 1 (mkCookRow 0 "Brisket #1") [1] demo_world).
  - split; reflexivity.
  - split; vm_compute; congruence.
  - reflexivity.
  - discriminate.
Defined.

Lemma remove_then_fetch_witness :
  exists w1 rs,
    serve (put_readings 1 (CookReadingUpdate.mk [] [2])) demo_world = Ret ok_message w1
    /\ serve (get_cook 1) w1
       = Ret (jsonResponse (PCook (Cook.mk 1 0 "Brisket #1" (Some rs)))) w1
    /\ (forall y, y ∈ map Reading.Id rs <-> (y ∉ [2]) /\ y ∈ cook_reading_ids 1 (w_db demo_world))
    /\ (forall y, y ∈ [2] -> is_Some (t_readings (w_db demo_world) !! y) ->
                  y ∈ map fst (orphans (w_db w1))).
Proof.
  apply (remove_then_fetch 1 (mkCookRow 0 "Brisket #1") [2] demo_world).
  - split; reflexivity.
  - split; vm_compute; congruence.
  - reflexivity.
  - discriminate.
Defined.


Lemma post_cook_nul_witness :
  serve (post_cook demo_cook_nul) demo_world = Ret (errorResponse nul_error) demo_world.
Proof.
  apply post_cook_nul.
  - apply tables_wfb_sound. vm_compute. reflexivity.
  - split; reflexivity.
  - reflexivity.
Defined.

Lemma post_reading_late_commit_witness :
  exists w',
    serve (post_reading (Reading.mk 0 0 5 75.5%float 225%float)) demo_world_late
      = Ret (errorResponse ErrTimeout) w'
    /\ t_readings (w_db w') !! 3
       = Some (mkReadingRow (trunc_us 1000000) 5 75.5%float 225%float None).
Proof.
  apply (post_reading_late_commit (Reading.mk 0 0 5 75.5%float 225%float) demo_world_late
           (mkStoreResp (11 * 10 ^ 9) None true) []).
  - apply tables_wfb_sound. vm_compute. reflexivity.
  - reflexivity.
  - reflexivity.
  - unfold Second. simpl. lia.
  - reflexivity.
Defined.

Lemma update_partial_commit_witness :
  exists w',
    serve (put_readings 1 (CookReadingUpdate.mk [1] [2])) demo_world_flaky
      = Ret (errorResponse (ErrConn "connection reset by peer")) w'
    /\ w_db w' = assign_tables (Some 1) [1] (w_db demo_world_flaky).
Proof.
  apply (update_partial_commit 1 [1] [2] demo_world_flaky
           (mkStoreResp 0 (Some "connection reset by peer") false)).
  - split; vm_compute; congruence.
  - vm_compute. eauto.
  - discriminate.
  - discriminate.
  - reflexivity.
  - reflexivity.
  - reflexivity.
  - unfold Second. simpl. lia.
Defined.

Lemma three_posts_two_newest_witness :
  let ra := Reading.mk 0 0 5 75.5%float 225%float in
  let rb := Reading.mk 0 0 65 80%float 230%float in
  let rc := Reading.mk 0 0 125 85%float 235%float in
  exists resp1 w1 resp2 w2 resp3 w3,
    serve (post_reading ra) demo_world_empty = Ret resp1 w1
    /\ serve (post_reading rb) (tick 2000 w1) = Ret resp2 w2
    /\ serve (post_reading rc) (tick 3000 w2) = Ret resp3 w3
    /\ serve (demo_get_readings "2") w3
       = Ret (jsonResponse (PReadings
                [Reading.mk (t_readings_seq (w_db demo_world_empty) + 3)
                   (trunc_us (w_clock demo_world_empty + 2000 + 3000)) 125 85%float 235%float;
                 Reading.mk (t_readings_seq (w_db demo_world_empty) + 2)
                   (trunc_us (w_clock demo_world_empty + 2000)) 65 80%float 230%float])) w3.
Proof.
  intros ra rb rc.
  apply (three_posts_two_newest ra rb rc 2000 3000 demo_world_empty).
  - apply empty_tables_wf.
  - split; reflexivity.
  - reflexivity.
  - lia.
  - lia.
Defined.

Lemma put_cook_echoes_client_witness :
  exists w',
    serve (put_cook 1 (Cook.mk 1 42000 "Brisket, second try" None)) demo_world
      = Ret (jsonResponse (PCook (Cook.mk 1 42000 "Brisket, second try" None))) w'
    /\ t_cooks (w_db w') !! 1 = Some (mkCookRow 0 "Brisket, second try").
Proof.
  apply (put_cook_echoes_client (Cook.mk 1 42000 "Brisket, second try" None)
           (mkCookRow 0 "Brisket #1") demo_world).
  - split; reflexivity.
  - split; vm_compute; congruence.
  - reflexivity.
  - reflexivity.
Defined.

Lemma get_cook_path_roundtrip_witness :
  in_int64 7 /\
  serve (get_cook 7) demo_world =
  (do res <- getCookById 7 ;
   match res with
   | Err e => pret (errorResponse e)
   | Ok cook => pret (jsonResponse (PCook cook))
   end) demo_world.
Proof. split; [by vm_compute|]. apply get_cook_path_roundtrip. by vm_compute. Defined.

Lemma updateCookReadings_two_deadlines_witness :
  exists w',
    serve (put_readings 1 (CookReadingUpdate.mk [1] [1])) demo_world_edge
      = Ret (errorResponse ErrTimeout) w'
    /\ w_clock w' = w_clock demo_world_edge + (10 * Second - 1) + 10 * Second
    /\ w_db w' = assign_tables (Some 1) [1] (w_db demo_world_edge).
Proof.
  apply (updateCookReadings_two_deadlines 1 [1] [1] demo_world_edge
           (mkStoreResp (10 * Second - 1) None false) (mkStoreResp (11 * Second) None false) []);
    try (vm_compute; first [reflexivity|discriminate|by eauto|split; discriminate]).
Defined.
