(* ===== verification/Interleave.v ===== *)
(** * Requests as threads of store round trips, and a torn read

    net/http runs every request in its own goroutine (spec section 5);
    the only points where a request waits, and so where the round trips
    of other requests can come in between, are its store round trips.
    Each round trip is one statement, which the store runs atomically.

    - [thread A]: a request cut at its round trips.  [TStep m k] runs the
      program [m] (one round trip and the local work before it) in one
      atomic step and continues with [k] on its result; [run_thread] runs
      a thread alone, and [tbind] runs one thread after another (a
      client that waits for an answer before sending the next request).
    - [serve_thread req]: the router and every handler as a thread.  A
      handler that makes one round trip is one step; [getCookById] makes
      two under the same context (the cook row, then its readings), and
      [updateCookReadings] up to two ([addReadingsToCook], then
      [removeReadingsFromCook]).  [serve_thread_refines] checks the cut
      against [Api.serve]: run alone, the thread is the handler.
    - [istep]: any number of threads in flight on one world; any of them
      runs its next step; a step that panics (nil pool) ends its
      goroutine.
    - [serial_answers req clients w]: what [req] answers when it runs
      alone before, between or after the requests of a client.

    The theorem: [GET /api/cook/{id}] is not atomic.  On any quiet store,
    racing with a client that renames the cook and then assigns it a
    reading of another cook or of none, it can answer the old description
    with the new reading, an answer it gives at none of the points where
    it could run alone. *)

From S2P Require Import Prelude GoStrconv Types Store Database Api Scenarios.
From Stdlib Require Import PrimFloat.

(** ** Threads *)

Inductive thread (A : Type) : Type :=
| TRet (a : A)
| TStep {X : Type} (m : prog World X) (k : X -> thread A).
Arguments TRet {A} a.
Arguments TStep {A X} m k.

Fixpoint run_thread {A} (t : thread A) : prog World A :=
  match t with
  | TRet a => pret a
  | TStep m k => pbind m (fun x => run_thread (k x))
  end.

Fixpoint tbind {A B} (t : thread A) (f : A -> thread B) : thread B :=
  match t with
  | TRet a => f a
  | TStep m k => TStep m (fun x => tbind (k x) f)
  end.

(** A program with one round trip at most: one atomic step. *)
Definition atomic {A} (m : prog World A) : thread A := TStep m TRet.

(** [getCookById] cut after its first statement: the context and the
    cook row are read in one step, the readings in a second one. *)
Definition getCookById_thread (id : Z) : thread (result Cook.t GoError) :=
  TStep (do ctx <- timeoutContext ;
         do r <- pgx_QueryRow ctx sql_cook_by_id [VInt id] ;
         pret (ctx, r))
    (fun '(ctx, r) =>
       match r with
       | Err e => TRet (Err e)
       | Ok row =>
           match scan_desc_created row with
           | Err e => TRet (Err e)
           | Ok (d, c) =>
               TStep (pgx_Query ctx sql_readings_of_cook [VInt id])
                 (fun q => TRet (match q with
                                 | Err e => Err e
                                 | Ok (rows, _) => Ok (Cook.mk id c d (Some (processReadingsRow rows)))
                                 end))
           end
       end).

Definition getCook_thread (req : Request) : thread Response :=
  match Atoi (var req "id") with
  | Err e => TRet (errorResponse (ErrAtoi e))
  | Ok id =>
      tbind (getCookById_thread id) (fun res =>
        TRet (match res with
              | Err e => errorResponse e
              | Ok cook => jsonResponse (PCook cook)
              end))
  end.

Definition updateCookReadings_thread (req : Request) : thread Response :=
  match Atoi (var req "id") with
  | Err e => TRet (errorResponse (ErrAtoi e))
  | Ok id =>
      match read_err (req_body req) with
      | Some e => TRet (errorResponse e)
      | None =>
          match as_update (req_body req) with
          | Err e => TRet (errorResponse e)
          | Ok update =>
              tbind (if (0 <? length (CookReadingUpdate.Add update))%nat
                     then atomic (addReadingsToCook (CookReadingUpdate.Add update) id)
                     else TRet None) (fun err1 =>
              match err1 with
              | Some e => TRet (errorResponse e)
              | None =>
                  tbind (if (0 <? length (CookReadingUpdate.Remove update))%nat
                         then atomic (removeReadingsFromCook (CookReadingUpdate.Remove update))
                         else TRet None) (fun err2 =>
                  TRet (match err2 with
                        | Some e => errorResponse e
                        | None => jsonResponse (PMessage (Message.mk false "ok"))
                        end))
              end)
          end
      end
  end.

(** Every other handler makes at most one round trip. *)
Definition handler_thread (h : Handler) (req : Request) : thread Response :=
  match h with
  | HgetCook => getCook_thread req
  | HupdateCookReadings => updateCookReadings_thread req
  | _ => atomic (run_handler h req)
  end.

Definition serve_thread (req : Request) : thread Response :=
  match path_segments (req_path req) with
  | None => TRet not_found
  | Some segs =>
      match dispatch routes (req_method req) segs false with
      | Matched h vars => handler_thread h (with_vars req vars)
      | MethodNotAllowed => TRet method_not_allowed
      | NotFound => TRet not_found
      end
  end.

(** ** Requests in flight *)

Inductive tstate (A : Type) : Type :=
| Running (t : thread A)
| Panicked.
Arguments Running {A} t.
Arguments Panicked {A}.

(** The world and the goroutines in flight, one per request (or per
    client that chains requests). *)
Record IConfig := mkIConfig {
  ic_world : World;
  ic_threads : list (tstate Response);
}.

(** One step of a thread: its next program runs atomically; a panic
    ends the goroutine. *)
Definition tstep1 (w : World) (s : tstate Response) (w' : World) (s' : tstate Response) : Prop :=
  match s with
  | Running (TStep m k) =>
      (exists x, m w = Ret x w' /\ s' = Running (k x)) \/ (m w = Crash w' /\ s' = Panicked)
  | _ => False
  end.

(** Any goroutine in flight takes its next step. *)
Inductive istep : IConfig -> IConfig -> Prop :=
| istep_at w ts i s w' s' :
    ts !! i = Some s -> tstep1 w s w' s' -> istep (mkIConfig w ts) (mkIConfig w' (<[i := s']> ts)).

Definition answer_of (o : outcome World Response) : option Response :=
  match o with Ret r _ => Some r | Crash _ => None end.

(** The answers of [req] run alone before the client's requests, between
    any two of them, and after the last. *)
Fixpoint serial_answers (req : Request) (client : list Request) (w : World) : list (option Response) :=
  match client with
  | [] => [answer_of (serve req w)]
  | r :: rs => answer_of (serve req w) :: serial_answers req rs (out_state (serve r w))
  end.

(** ** Run alone, a thread is the handler *)

Lemma run_tbind {A B} (t : thread A) (f : A -> thread B) w :
  run_thread (tbind t f) w = pbind (run_thread t) (fun a => run_thread (f a)) w.
Proof.
  revert w. induction t as [a|X m k IH]; intros w; [reflexivity|].
  simpl. unfold pbind. destruct (m w) as [x w1|w1]; [apply IH|reflexivity].
Qed.

Lemma run_atomic {A} (m : prog World A) w : run_thread (atomic m) w = m w.
Proof. simpl. unfold pbind, pret. by destruct (m w). Qed.

Lemma getCookById_thread_refines id w :
  run_thread (getCookById_thread id) w = getCookById id w.
Proof.
  unfold getCookById_thread, getCookById. simpl. unfold pbind, pret, timeoutContext.
  destruct (pgx_QueryRow _ _ _ w) as [[row|e] w1|w1]; simpl; [|reflexivity..].
  destruct (scan_desc_created row) as [[d c]|e]; simpl; [|reflexivity].
  unfold pbind. by destruct (pgx_Query _ _ _ w1).
Qed.

(** A statement sent only when its list is not empty. *)
Lemma run_opt {B} (b : bool) (m : prog World (option GoError)) (f : option GoError -> thread B) w :
  run_thread (tbind (if b then atomic m else TRet None) f) w =
  pbind (if b then m else pret None) (fun e => run_thread (f e)) w.
Proof. rewrite run_tbind. destruct b; [unfold pbind; by rewrite run_atomic|reflexivity]. Qed.

Lemma handler_thread_refines h req w :
  run_thread (handler_thread h req) w = run_handler h req w.
Proof.
  destruct h; try apply run_atomic; simpl.
  - unfold getCook_thread, getCook. destruct (Atoi _); [|reflexivity].
    rewrite run_tbind. unfold pbind. rewrite getCookById_thread_refines.
    by destruct (getCookById _ w) as [[c|e] w1|w1].
  - unfold updateCookReadings_thread, updateCookReadings.
    destruct (Atoi _) as [id|e]; [|reflexivity].
    destruct (read_err (req_body _)); [reflexivity|].
    destruct (as_update (req_body _)) as [u|e]; [|reflexivity].
    rewrite run_opt. apply pbind_ext. intros [e|] w1; [reflexivity|].
    rewrite run_opt. apply pbind_ext. by intros [e|] w2.
Qed.

(** Run alone, the thread of a request is the router and its handler. *)
Lemma serve_thread_refines req w : run_thread (serve_thread req) w = serve req w.
Proof.
  unfold serve_thread, serve. repeat case_match; try reflexivity. apply handler_thread_refines.
Qed.

(** ** The router as threads *)

Lemma istep_at' w ts i s w' s' ts' :
  ts !! i = Some s -> tstep1 w s w' s' -> ts' = <[i := s']> ts ->
  istep (mkIConfig w ts) (mkIConfig w' ts').
Proof. intros Hi Hs ->. exact (istep_at _ _ _ _ _ _ Hi Hs). Qed.

Lemma serve_thread_get_cook n :
  in_int64 n -> serve_thread (get_cook n) = getCook_thread (with_vars (get_cook n) [("id", fmt_d n)]).
Proof.
  intros Hn. unfold serve_thread.
  change (req_path (get_cook n)) with ("/api/cook/" ++ fmt_d n)%string.
  rewrite path_segments_get_cook. simpl. by rewrite fmt_d_nonempty.
Qed.

Lemma serve_thread_put_cook n c :
  in_int64 n ->
  serve_thread (put_cook n c) = atomic (saveCook (with_vars (put_cook n c) [("id", fmt_d n)])).
Proof.
  intros Hn. unfold serve_thread.
  change (req_path (put_cook n c)) with ("/api/cook/" ++ fmt_d n)%string.
  rewrite path_segments_get_cook. simpl. by rewrite fmt_d_nonempty.
Qed.

Lemma serve_thread_put_readings n u :
  in_int64 n ->
  serve_thread (put_readings n u)
  = updateCookReadings_thread (with_vars (put_readings n u) [("id", fmt_d n)]).
Proof.
  intros Hn. unfold serve_thread.
  change (req_path (put_readings n u)) with ("/api/cook/" ++ fmt_d n ++ "/readings")%string.
  rewrite path_segments_put_readings. simpl. by rewrite fmt_d_nonempty.
Qed.

(** ** The four steps of the race, on a quiet store *)

Lemma quiet_answers_before d w : quiet w -> w_clock w < d -> answers_before d w.
Proof. intros [Hp Hn] Hd. unfold answers_before, rt_latency, rt_fault. rewrite Hn. repeat split; [done|lia]. Qed.

(** PUT /api/cook/{c} with a body of id [c] and a description without
    NUL: the cook's description is replaced. *)
Lemma saveCook_put_quiet c k w :
  quiet w -> in_int64 c -> Cook.Id k = c -> has_nul (Cook.Description k) = false ->
  saveCook (with_vars (put_cook c k) [("id", fmt_d c)]) w
  = Ret (jsonResponse (PCook k))
        (set_db (mkTables (t_readings (w_db w))
                   (alter (fun r => mkCookRow (cr_created r) (Cook.Description k)) c (t_cooks (w_db w)))
                   (t_readings_seq (w_db w)) (t_cooks_seq (w_db w))) w).
Proof.
  intros Hq Hn <- Hnul. unfold saveCook. simpl.
  change (var (with_vars (put_cook (Cook.Id k) k) [("id", fmt_d (Cook.Id k))]) "id")
    with (fmt_d (Cook.Id k)).
  rewrite Atoi_fmt_d, Z.eqb_refl by done. simpl. unfold pbind.
  by rewrite updateCook_quiet.
Qed.

(** The reader's first statement: the cook row, under a fresh context. *)
Lemma getCook_first_step c cr w :
  quiet w -> in_int64 c -> t_cooks (w_db w) !! c = Some cr ->
  exists k,
    tstep1 w (Running (serve_thread (get_cook c))) w
      (Running (TStep (pgx_Query (mkCtx (w_clock w + 10 * Second)) sql_readings_of_cook [VInt c]) k))
    /\ forall rows,
         k (Ok (rows, None))
         = TRet (jsonResponse (PCook (Cook.mk c (cr_created cr) (cr_description cr)
                                        (Some (processReadingsRow rows))))).
Proof.
  intros Hq Hn Hc. rewrite serve_thread_get_cook by done. unfold getCook_thread.
  change (var (with_vars (get_cook c) [("id", fmt_d c)]) "id") with (fmt_d c).
  rewrite Atoi_fmt_d by done. simpl.
  eexists. split.
  - left. eexists. split.
    + unfold pbind, timeoutContext. rewrite pgx_QueryRow_answer by (by apply quiet_in_time).
      assert (pg_exec sql_cook_by_id [VInt c] (w_db w) = exec_cook_by_id [VInt c] (w_db w))
        as -> by reflexivity.
      unfold exec_cook_by_id. rewrite Hc. simpl. by rewrite quiet_rt_next, set_db_id.
    + reflexivity.
  - intros rows. reflexivity.
Qed.

(** The reader's second statement: the readings that reference the cook
    now. *)
Lemma getCook_second_step d c k w :
  quiet w -> w_clock w < d ->
  tstep1 w (Running (TStep (pgx_Query (mkCtx d) sql_readings_of_cook [VInt c]) k)) w
    (Running (k (Ok (map reading_values (readings_of c (w_db w)), None)))).
Proof.
  intros Hq Hd. left. eexists. split.
  - rewrite pgx_Query_answer by (by apply quiet_answers_before).
    assert (pg_exec sql_readings_of_cook [VInt c] (w_db w)
            = exec_readings_of_cook [VInt c] (w_db w)) as -> by reflexivity.
    simpl. by rewrite quiet_rt_next, set_db_id.
  - reflexivity.
Qed.

(** The client's first request: the rename. *)
Lemma rename_step c k g w :
  quiet w -> in_int64 c -> Cook.Id k = c -> has_nul (Cook.Description k) = false ->
  tstep1 w (Running (tbind (serve_thread (put_cook c k)) g))
    (set_db (mkTables (t_readings (w_db w))
               (alter (fun r => mkCookRow (cr_created r) (Cook.Description k)) c (t_cooks (w_db w)))
               (t_readings_seq (w_db w)) (t_cooks_seq (w_db w))) w)
    (Running (g (jsonResponse (PCook k)))).
Proof.
  intros Hq Hn Hk Hnul. rewrite serve_thread_put_cook by done. simpl.
  left. eexists. split; [by apply saveCook_put_quiet|reflexivity].
Qed.

(** The client's second request: the assignment. *)
Lemma assign_step c x w :
  quiet w -> in_int64 c -> is_Some (t_cooks (w_db w) !! c) ->
  tstep1 w (Running (serve_thread (put_readings c (CookReadingUpdate.mk [x] []))))
    (set_db (assign_tables (Some c) [x] (w_db w)) w) (Running (TRet ok_message)).
Proof.
  intros Hq Hn Hk. rewrite serve_thread_put_readings by done. unfold updateCookReadings_thread.
  change (var (with_vars (put_readings c _) [("id", fmt_d c)]) "id") with (fmt_d c).
  rewrite Atoi_fmt_d by done. simpl.
  left. eexists. split; [by apply addReadingsToCook_quiet|reflexivity].
Qed.

(** ** Theorems *)

(** C15: GET /api/cook/{id} is not atomic: on any quiet store with cook c
    and a reading x that is not the cook's, racing with a client that
    renames c and then assigns x to c, the GET can answer the old
    description together with x among the readings while both client
    requests succeed, and that answer is none of those the GET gives when
    it runs alone before, between or after the client's requests. *)
Theorem getCook_torn_read w c cr x rr d' :
  quiet w -> in_int64 c -> t_cooks (w_db w) !! c = Some cr ->
  t_readings (w_db w) !! x = Some rr -> rr_cook_id rr <> Some c ->
  has_nul d' = false -> d' <> cr_description cr ->
  let rename := put_cook c (Cook.mk c 0 d' None) in
  let assign := put_readings c (CookReadingUpdate.mk [x] []) in
  exists rs c',
    rtc istep (mkIConfig w [Running (serve_thread (get_cook c));
                            Running (tbind (serve_thread rename) (fun _ => serve_thread assign))]) c'
    /\ ic_threads c' = [Running (TRet (jsonResponse (PCook (Cook.mk c (cr_created cr)
                                                          (cr_description cr) (Some rs)))));
                        Running (TRet ok_message)]
    /\ x ∈ map Reading.Id rs
    /\ Some (jsonResponse (PCook (Cook.mk c (cr_created cr) (cr_description cr) (Some rs))))
         ∉ serial_answers (get_cook c) [rename; assign] w.
Proof.
  intros Hq Hn Hc Hx Hxc Hnul Hd rename assign.
  set (t1 := mkTables (t_readings (w_db w))
               (alter (fun r => mkCookRow (cr_created r) d') c (t_cooks (w_db w)))
               (t_readings_seq (w_db w)) (t_cooks_seq (w_db w))).
  set (w1 := set_db t1 w). set (w3 := set_db (assign_tables (Some c) [x] t1) w).
  assert (Hc1 : t_cooks t1 !! c = Some (mkCookRow (cr_created cr) d'))
    by (simpl; by rewrite lookup_alter_eq, Hc).
  assert (Hq1 : quiet w1) by (by apply quiet_set_db).
  assert (Hq3 : quiet w3) by (by apply quiet_set_db).
  destruct (getCook_first_step c cr w Hq Hn Hc) as (k & Hs1 & Hk).
  assert (Hx3 : x ∈ cook_reading_ids c (assign_tables (Some c) [x] t1)).
  { apply cook_reading_ids_assign. left. split; [by apply list_elem_of_singleton|]. simpl. by rewrite Hx. }
  assert (E1 : serve rename w = Ret (jsonResponse (PCook (Cook.mk c 0 d' None))) w1)
    by (unfold rename; rewrite serve_put_cook, saveCook_put_quiet by done; reflexivity).
  assert (E2 : serve assign w1 = Ret ok_message w3)
    by (unfold assign; rewrite serve_put_add by (first [done|by rewrite Hc1]); reflexivity).
  exists (map row_reading (readings_of c (assign_tables (Some c) [x] t1))). eexists.
  split; [|split; [|split]].
  - eapply rtc_l. { eapply (istep_at' _ _ 0%nat); [reflexivity|exact Hs1|reflexivity]. }
    eapply rtc_l. { eapply (istep_at' _ _ 1%nat); [reflexivity|apply rename_step; done|reflexivity]. }
    eapply rtc_l. { eapply (istep_at' _ _ 1%nat); [reflexivity|apply (assign_step c x w1); done|reflexivity]. }
    apply rtc_once. eapply (istep_at' _ _ 0%nat); [reflexivity|apply getCook_second_step|reflexivity].
    + exact Hq3.
    + simpl. unfold Second. lia.
  - simpl. by rewrite Hk, processReadingsRow_values.
  - by rewrite map_Id_row_reading.
  - simpl. rewrite E1. simpl. rewrite E2. simpl.
    rewrite (serve_get_cook_found c cr w Hq Hn Hc), (serve_get_cook_found c _ w1 Hq1 Hn Hc1),
      (serve_get_cook_found c _ w3 Hq3 Hn Hc1). simpl.
    intros Hin. apply elem_of_cons in Hin as [Hin|Hin].
    + injection Hin as Hrs. apply (f_equal (map Reading.Id)) in Hrs.
      rewrite !map_Id_row_reading in Hrs. unfold cook_reading_ids in Hx3. rewrite Hrs in Hx3.
      apply elem_of_cook_reading_ids in Hx3 as (r' & Hr' & Hc'). rewrite Hx in Hr'.
      by injection Hr' as ->.
    + repeat (apply elem_of_cons in Hin as [Hin|Hin]; [injection Hin; congruence|]).
      by apply elem_of_nil in Hin.
Qed.

(** ** Witnesses *)

Lemma getCook_torn_read_witness :
  exists rs c',
    rtc istep (mkIConfig demo_world
                 [Running (serve_thread (get_cook 1));
                  Running (tbind (serve_thread (put_cook 1 (Cook.mk 1 0 "Pork shoulder" None)))
                             (fun _ => serve_thread (put_readings 1 (CookReadingUpdate.mk [1] []))))]) c'
    /\ ic_threads c' = [Running (TRet (jsonResponse (PCook (Cook.mk 1 0 "Brisket #1" (Some rs)))));
                        Running (TRet ok_message)]
    /\ 1 ∈ map Reading.Id rs
    /\ Some (jsonResponse (PCook (Cook.mk 1 0 "Brisket #1" (Some rs))))
         ∉ serial_answers (get_cook 1)
             [put_cook 1 (Cook.mk 1 0 "Pork shoulder" None);
              put_readings 1 (CookReadingUpdate.mk [1] [])] demo_world.
Proof.
  apply (getCook_torn_read demo_world 1 (mkCookRow 0 "Brisket #1") 1
           (mkReadingRow 1000 5 75.5%float 225%float None) "Pork shoulder");
    first [split; reflexivity | vm_compute; reflexivity | discriminate
          | unfold in_int64, min_int64, max_int64; lia].
Defined.
