(* ===== verification/Concurrency.v ===== *)
(** * Concurrent readings updates (spec section 5)

    net/http serves each request in its own goroutine; two requests meet
    only at the store, where each statement is atomic and nothing else is
    ordered.  [updateCookReadings] sends up to two statements
    ([addReadingsToCook], then [removeReadingsFromCook]) with no
    transaction around them, so the statements of two concurrent updates
    can interleave.

    - [Stmt] names the two statements of the handler, [update_stmts] the
      statements a decoded update sends, in order, and [run_stmts] runs a
      list of them as the handler does: in order, stopping at the first
      error.  [updateCookReadings_stmts] shows the handler is exactly
      that run.
    - [cstep] interleaves the statements of two requests: either request
      runs its next statement atomically; a request whose statement fails
      stops.

    The theorems: two updates over disjoint sets of readings give, in
    every interleaving, the store of running them one after the other;
    two updates over overlapping sets can end in a store that neither
    order gives. *)

From S2P Require Import Prelude GoStrconv Types Store Database Api Scenarios.
From Stdlib Require Import PrimFloat.

(** ** Statements and their interleavings *)

Inductive Stmt :=
| SAdd (ids : list Z) (c : Z)     (** [addReadingsToCook(ids, c)] *)
| SRemove (ids : list Z).         (** [removeReadingsFromCook(ids)] *)

Definition run_stmt (s : Stmt) : prog World (option GoError) :=
  match s with
  | SAdd ids c => addReadingsToCook ids c
  | SRemove ids => removeReadingsFromCook ids
  end.

(** The statements [updateCookReadings] sends for the update [u] of cook
    [id], in order. *)
Definition update_stmts (id : Z) (u : CookReadingUpdate.t) : list Stmt :=
  (if (0 <? length (CookReadingUpdate.Add u))%nat
   then [SAdd (CookReadingUpdate.Add u) id] else [])
  ++ (if (0 <? length (CookReadingUpdate.Remove u))%nat
      then [SRemove (CookReadingUpdate.Remove u)] else []).

(** Run statements in order; the first error ends the run. *)
Fixpoint run_stmts (l : list Stmt) : prog World (option GoError) :=
  match l with
  | [] => pret None
  | s :: l' =>
      do e <- run_stmt s ;
      match e with
      | Some e => pret (Some e)
      | None => run_stmts l'
      end
  end.

(** The effect of a statement that succeeds. *)
Definition stmt_effect (s : Stmt) (t : Tables) : Tables :=
  match s with
  | SAdd ids c => assign_tables (Some c) ids t
  | SRemove ids => assign_tables None ids t
  end.

Definition effects (l : list Stmt) (t : Tables) : Tables :=
  fold_left (fun t s => stmt_effect s t) l t.

Definition stmt_ids (s : Stmt) : list Z :=
  match s with SAdd ids _ => ids | SRemove ids => ids end.

(** A statement the store accepts: a non-empty list and, to add, an
    existing cook. *)
Definition stmt_ok (t : Tables) (s : Stmt) : Prop :=
  stmt_ids s <> [] /\ match s with SAdd _ c => is_Some (t_cooks t !! c) | SRemove _ => True end.

(** No reading id is touched by both requests. *)
Definition threads_disjoint (l1 l2 : list Stmt) : Prop :=
  forall s1 s2 x, s1 ∈ l1 -> s2 ∈ l2 -> x ∈ stmt_ids s1 -> x ∉ stmt_ids s2.

(** Two requests in flight: the world and the statements each has left. *)
Record Config := mkConfig {
  cf_world : World;
  cf_left : list Stmt;
  cf_right : list Stmt;
}.

Inductive cstep : Config -> Config -> Prop :=
| cstep_left w s l r w' :
    run_stmt s w = Ret None w' -> cstep (mkConfig w (s :: l) r) (mkConfig w' l r)
| cstep_left_err w s l r e w' :
    run_stmt s w = Ret (Some e) w' -> cstep (mkConfig w (s :: l) r) (mkConfig w' [] r)
| cstep_right w s l r w' :
    run_stmt s w = Ret None w' -> cstep (mkConfig w l (s :: r)) (mkConfig w' l r)
| cstep_right_err w s l r e w' :
    run_stmt s w = Ret (Some e) w' -> cstep (mkConfig w l (s :: r)) (mkConfig w' l []).

(** Two cooks, 7 and 8, and two readings, 1 and 2, of no cook. *)
Definition two_cooks_tables : Tables :=
  mkTables (<[2 := mkReadingRow 2000 7 80.5%float 230%float None]>
              {[1 := mkReadingRow 1000 5 75.5%float 225%float None]})
           (<[8 := mkCookRow 0 "Pork shoulder"]> {[7 := mkCookRow 0 "Brisket"]}) 2 8.

Definition two_cooks_world : World := mkWorld two_cooks_tables true 0 [] [].

(** What holds of a configuration reached from the threads [l0] and
    [r0] on the quiet store [t0]: the store is quiet, its cooks are those
    of [t0], and its tables are those of [t0] after the statements each
    thread has run, the right thread's first. *)
Definition interleave_inv (t0 : Tables) (l0 r0 : list Stmt) (c : Config) : Prop :=
  quiet (cf_world c) /\ t_cooks (w_db (cf_world c)) = t_cooks t0
  /\ exists dl dr, l0 = dl ++ cf_left c /\ r0 = dr ++ cf_right c
                   /\ w_db (cf_world c) = effects dl (effects dr t0).

(** The cook a reading is assigned to, when the reading exists. *)
Definition cook_of (t : Tables) (x : Z) : option (option Z) := rr_cook_id <$> t_readings t !! x.

(** ** The handler is the sequential run of its statements *)

(** C12: Once the path id and the body are decoded, updateCookReadings
    runs exactly the statements update_stmts names, in order, stopping at
    the first error, and answers that error or the ok message. *)
Theorem updateCookReadings_stmts req id u w :
  Atoi (var req "id") = Ok id -> read_err (req_body req) = None ->
  as_update (req_body req) = Ok u ->
  updateCookReadings req w =
  (do e <- run_stmts (update_stmts id u) ;
   pret (match e with
         | Some e => errorResponse e
         | None => jsonResponse (PMessage (Message.mk false "ok"))
         end)) w.
Proof.
  intros Ha Hr Hu. unfold updateCookReadings. rewrite Ha, Hr, Hu. unfold update_stmts.
  destruct (0 <? _)%nat, (0 <? _)%nat; simpl; unfold pbind, pret; simpl;
    repeat (case_match; simpl); congruence.
Qed.

(** ** Statements over disjoint readings commute *)

Lemma assign_tables_commute c1 ids1 c2 ids2 t :
  (forall x, x ∈ ids1 -> x ∉ ids2) ->
  assign_tables c1 ids1 (assign_tables c2 ids2 t) = assign_tables c2 ids2 (assign_tables c1 ids1 t).
Proof.
  intros Hd. unfold assign_tables. simpl. f_equal. apply map_eq. intros i.
  rewrite !assign_cook_lookup. destruct (t_readings t !! i); simpl; [|done].
  destruct (decide (i ∈ ids1)), (decide (i ∈ ids2)); try done. by destruct (Hd i).
Qed.

Lemma effects_commute s l t :
  (forall s' x, s' ∈ l -> x ∈ stmt_ids s -> x ∉ stmt_ids s') ->
  stmt_effect s (effects l t) = effects l (stmt_effect s t).
Proof.
  revert t; induction l as [|s' l IH]; intros t Hd; [done|]. simpl.
  rewrite IH by (intros; apply Hd; [by right|done]). f_equal.
  destruct s, s'; simpl; apply assign_tables_commute; intros x Hx;
    apply (Hd _ x (list_elem_of_here _ _) Hx).
Qed.

Lemma effects_app l1 l2 t : effects (l1 ++ l2) t = effects l2 (effects l1 t).
Proof. apply fold_left_app. Qed.

Lemma effects_swap l r t :
  threads_disjoint l r -> effects l (effects r t) = effects r (effects l t).
Proof.
  revert t; induction l as [|s l IH]; intros t Hd; [done|]. simpl.
  rewrite <- IH by (intros s1 s2 x H1 H2; apply (Hd s1 s2 x); [by right|done]).
  f_equal. apply effects_commute. intros s' x Hs' Hx. apply (Hd s s' x); [left|done|done].
Qed.

Lemma stmt_effect_cooks s t : t_cooks (stmt_effect s t) = t_cooks t.
Proof. by destruct s. Qed.

Lemma effects_cooks l t : t_cooks (effects l t) = t_cooks t.
Proof.
  revert t; induction l as [|s l IH]; intros t; [done|]. simpl. by rewrite IH, stmt_effect_cooks.
Qed.

(** A statement the store accepts succeeds on a quiet store. *)
Lemma run_stmt_quiet s w :
  quiet w -> stmt_ok (w_db w) s -> run_stmt s w = Ret None (set_db (stmt_effect s (w_db w)) w).
Proof.
  intros Hq [Hne Hc]. destruct s; simpl in *;
    [by apply addReadingsToCook_quiet|by apply removeReadingsFromCook_quiet].
Qed.

Lemma stmt_ok_cooks t t' s : t_cooks t' = t_cooks t -> stmt_ok t s -> stmt_ok t' s.
Proof. intros Hc [Hne Hs]. split; [done|]. destruct s; [by rewrite Hc|done]. Qed.

(** ** Every interleaving of disjoint updates is serial *)

Section Serial.
Variables (t0 : Tables) (l0 r0 : list Stmt).
Hypothesis Hok_l : Forall (stmt_ok t0) l0.
Hypothesis Hok_r : Forall (stmt_ok t0) r0.
Hypothesis Hdisj : threads_disjoint l0 r0.

Lemma interleave_inv_step c c' :
  interleave_inv t0 l0 r0 c -> cstep c c' -> interleave_inv t0 l0 r0 c'.
Proof.
  intros (Hq & Hc & dl & dr & El & Er & Et) Hs.
  destruct Hs as [w s l r w' H|w s l r e w' H|w s l r w' H|w s l r e w' H]; simpl in *.
  all: assert (stmt_ok (w_db w) s) as Hok
         by (eapply stmt_ok_cooks; [exact Hc|]; rewrite Forall_forall in Hok_l, Hok_r;
             first [apply Hok_l; rewrite El; apply elem_of_app; right; left
                   |apply Hok_r; rewrite Er; apply elem_of_app; right; left]).
  all: rewrite run_stmt_quiet in H by done; try discriminate; injection H as <-.
  all: split; [by apply quiet_set_db|]; simpl;
       split; [by rewrite stmt_effect_cooks|].
  - exists (dl ++ [s]), dr. rewrite <- app_assoc, effects_app, <- Et. auto.
  - exists dl, (dr ++ [s]). rewrite <- app_assoc, effects_app, Et. split; [done|split; [done|]].
    apply effects_commute. intros s' x Hs' Hx Hx'.
    apply (Hdisj s' s x); [rewrite El; apply elem_of_app; by left
                          |rewrite Er; apply elem_of_app; right; left|done|done].
Qed.

Lemma interleave_inv_rtc c c' :
  interleave_inv t0 l0 r0 c -> rtc cstep c c' -> interleave_inv t0 l0 r0 c'.
Proof.
  intros Hc Hr. induction Hr as [c|c1 c2 c3 Hs _ IH]; [done|].
  apply IH. by eapply interleave_inv_step.
Qed.

End Serial.

(** C13: Two readings updates in flight on a quiet store, whose statements
    the store accepts and which touch disjoint sets of readings, end, in
    every interleaving of their statements, with the store that running
    one after the other gives, in either order. *)
Theorem disjoint_updates_serializable w l r w' :
  quiet w -> Forall (stmt_ok (w_db w)) l -> Forall (stmt_ok (w_db w)) r ->
  threads_disjoint l r ->
  rtc cstep (mkConfig w l r) (mkConfig w' [] []) ->
  w_db w' = effects r (effects l (w_db w)) /\ w_db w' = effects l (effects r (w_db w)).
Proof.
  intros Hq Hl Hr Hd Hrun.
  assert (interleave_inv (w_db w) l r (mkConfig w l r)) as H0.
  { split; [done|split; [done|]]. by exists [], []. }
  destruct (interleave_inv_rtc _ _ _ Hl Hr Hd _ _ H0 Hrun) as (_ & _ & dl & dr & El & Er & Et).
  simpl in *. rewrite app_nil_r in El, Er. subst dl dr.
  rewrite Et. split; [by apply effects_swap|done].
Qed.

Lemma disjoint_updates_serializable_witness :
  exists w',
    rtc cstep (mkConfig demo_world [SAdd [1] 1] [SRemove [2]]) (mkConfig w' [] [])
    /\ w_db w' = effects [SRemove [2]] (effects [SAdd [1] 1] (w_db demo_world))
    /\ w_db w' = effects [SAdd [1] 1] (effects [SRemove [2]] (w_db demo_world)).
Proof.
  set (w1 := set_db (assign_tables (Some 1) [1] demo_tables) demo_world).
  set (w2 := set_db (assign_tables None [2] (assign_tables (Some 1) [1] demo_tables)) demo_world).
  assert (rtc cstep (mkConfig demo_world [SAdd [1] 1] [SRemove [2]]) (mkConfig w2 [] [])) as Hrun.
  { eapply rtc_l; [apply (cstep_left _ _ _ _ w1); vm_compute; reflexivity|].
    apply rtc_once. apply cstep_right. vm_compute. reflexivity. }
  exists w2. split; [exact Hrun|].
  apply (disjoint_updates_serializable demo_world); [split; reflexivity| | | |exact Hrun].
  - repeat constructor; [discriminate|vm_compute; eauto].
  - repeat constructor. discriminate.
  - intros s1 s2 x H1 H2. apply list_elem_of_singleton in H1, H2. subst. simpl.
    rewrite !list_elem_of_singleton. lia.
Defined.

(** ** Overlapping updates are not serializable *)

Lemma cook_of_assign c ids t x :
  cook_of (assign_tables c ids t) x =
  (fun o => if decide (x ∈ ids) then c else o) <$> cook_of t x.
Proof.
  unfold cook_of. rewrite assign_tables_lookup. destruct (t_readings t !! x) as [r|]; simpl; [by case_decide|done].
Qed.

Local Ltac run_ok := rewrite run_stmt_quiet;
  [reflexivity|repeat apply quiet_set_db; assumption|split; simpl; [discriminate|first [assumption|exact I]]].

(** The four statements of two crossing updates, run add, add, remove,
    remove. *)
Lemma crossing_run w c1 c2 x1 x2 :
  quiet w -> is_Some (t_cooks (w_db w) !! c1) -> is_Some (t_cooks (w_db w) !! c2) ->
  rtc cstep (mkConfig w (update_stmts c1 (CookReadingUpdate.mk [x1] [x2]))
                        (update_stmts c2 (CookReadingUpdate.mk [x2] [x1])))
    (mkConfig (set_db (assign_tables None [x1] (assign_tables None [x2]
                 (assign_tables (Some c2) [x2] (assign_tables (Some c1) [x1] (w_db w))))) w) [] []).
Proof.
  intros Hq H1 H2. simpl.
  eapply rtc_l; [apply cstep_left; run_ok|].
  eapply rtc_l; [apply cstep_right; run_ok|].
  eapply rtc_l; [apply cstep_left; run_ok|].
  apply rtc_once. apply cstep_right. run_ok.
Qed.

(** C14: Two readings updates over overlapping readings can interleave
    into a store that neither serial order gives: on any quiet store with
    cooks c1 and c2 and two distinct readings x1 and x2, when cook c1
    takes x1 and gives up x2 while cook c2 takes x2 and gives up x1,
    running both adds before both removes leaves both readings without a
    cook, while either serial order leaves one of them assigned. *)
Theorem overlapping_updates_not_serializable w c1 c2 x1 x2 :
  quiet w -> x1 <> x2 ->
  is_Some (t_cooks (w_db w) !! c1) -> is_Some (t_cooks (w_db w) !! c2) ->
  is_Some (t_readings (w_db w) !! x1) -> is_Some (t_readings (w_db w) !! x2) ->
  let l := update_stmts c1 (CookReadingUpdate.mk [x1] [x2]) in
  let r := update_stmts c2 (CookReadingUpdate.mk [x2] [x1]) in
  exists w',
    rtc cstep (mkConfig w l r) (mkConfig w' [] [])
    /\ cook_of (w_db w') x1 = Some None /\ cook_of (w_db w') x2 = Some None
    /\ cook_of (effects r (effects l (w_db w))) x2 = Some (Some c2)
    /\ cook_of (effects l (effects r (w_db w))) x1 = Some (Some c1).
Proof.
  intros Hq Hx H1 H2 [r1 Hr1] [r2 Hr2] l r.
  eexists. split; [exact (crossing_run w c1 c2 x1 x2 Hq H1 H2)|]. simpl.
  rewrite !cook_of_assign. unfold cook_of. rewrite Hr1, Hr2. simpl.
  repeat first [rewrite decide_True by (by apply list_elem_of_singleton)
               |rewrite decide_False by (rewrite list_elem_of_singleton; congruence)].
  done.
Qed.

Lemma updateCookReadings_stmts_witness :
  updateCookReadings demo_empty_update demo_world
  = (do e <- run_stmts (update_stmts 1 (CookReadingUpdate.mk [] [])) ;
     pret (match e with
           | Some e => errorResponse e
           | None => jsonResponse (PMessage (Message.mk false "ok"))
           end)) demo_world.
Proof. apply updateCookReadings_stmts; reflexivity. Defined.

Lemma overlapping_updates_not_serializable_witness :
  exists w',
    rtc cstep (mkConfig two_cooks_world (update_stmts 7 (CookReadingUpdate.mk [1] [2]))
                 (update_stmts 8 (CookReadingUpdate.mk [2] [1]))) (mkConfig w' [] [])
    /\ cook_of (w_db w') 1 = Some None /\ cook_of (w_db w') 2 = Some None
    /\ cook_of (effects (update_stmts 8 (CookReadingUpdate.mk [2] [1]))
                (effects (update_stmts 7 (CookReadingUpdate.mk [1] [2])) (w_db two_cooks_world))) 2
       = Some (Some 8)
    /\ cook_of (effects (update_stmts 7 (CookReadingUpdate.mk [1] [2]))
                (effects (update_stmts 8 (CookReadingUpdate.mk [2] [1])) (w_db two_cooks_world))) 1
       = Some (Some 7).
Proof.
  apply (overlapping_updates_not_serializable two_cooks_world 7 8 1 2);
    first [split; reflexivity | discriminate | vm_compute; eauto].
Defined.
